(** * interactive-mcp: the command-window input session

    A shallow embedding of [getTerminalCommand], [cleanupResources] and
    [getCmdWindowInput] (the launch-target resolver and the session
    coordinator), and the properties of the specification that concern them.

    Strings are [String.string], a string of the session being written as
    its UTF-8 bytes; times are milliseconds in [Z], as returned by
    [Date.now()]; the Node event loop is a timed transition system whose
    events are the callbacks and the completions of the awaited operations.
    The two [InteractiveInput] components that show the question are state
    machines over their [useState] cells. *)

From Stdlib Require Import String Ascii List ZArith Lia Bool.
Import ListNotations.
Open Scope string_scope.

(** ** The JavaScript and Node library functions the source calls

    A JavaScript string that Node decoded from a file or from the
    environment is written as its UTF-8 encoding, one [ascii] for each
    byte. *)

Module Js.

(** The double quote and the backslash, as one-character strings. *)
Definition dquote : string := String "034"%char EmptyString.
Definition backslash : string := String "092"%char EmptyString.

(** [s.replace(/c/g, by)] for a one-character pattern. *)
Fixpoint replaceAll (c : ascii) (by_ : string) (s : string) : string :=
  match s with
  | EmptyString => EmptyString
  | String x rest =>
      if Ascii.eqb x c then by_ ++ replaceAll c by_ rest
      else String x (replaceAll c by_ rest)
  end.

(** The bytes of a code point in UTF-8. *)
Definition bytes (codes : list nat) : list ascii := map ascii_of_nat codes.

(** What [String.prototype.trim] strips from both ends: the WhiteSpace and
    the LineTerminator code points of ECMAScript, each as its bytes. *)
Definition whiteSpace : list (list ascii) :=
  [ bytes [9];              (* U+0009 character tabulation *)
    bytes [10];             (* U+000A line feed *)
    bytes [11];             (* U+000B line tabulation *)
    bytes [12];             (* U+000C form feed *)
    bytes [13];             (* U+000D carriage return *)
    bytes [32];             (* U+0020 space *)
    bytes [194; 160];       (* U+00A0 no-break space *)
    bytes [225; 154; 128];  (* U+1680 ogham space mark *)
    bytes [226; 128; 128];  (* U+2000 en quad *)
    bytes [226; 128; 129];  (* U+2001 em quad *)
    bytes [226; 128; 130];  (* U+2002 en space *)
    bytes [226; 128; 131];  (* U+2003 em space *)
    bytes [226; 128; 132];  (* U+2004 three-per-em space *)
    bytes [226; 128; 133];  (* U+2005 four-per-em space *)
    bytes [226; 128; 134];  (* U+2006 six-per-em space *)
    bytes [226; 128; 135];  (* U+2007 figure space *)
    bytes [226; 128; 136];  (* U+2008 punctuation space *)
    bytes [226; 128; 137];  (* U+2009 thin space *)
    bytes [226; 128; 138];  (* U+200A hair space *)
    bytes [226; 128; 168];  (* U+2028 line separator *)
    bytes [226; 128; 169];  (* U+2029 paragraph separator *)
    bytes [226; 128; 175];  (* U+202F narrow no-break space *)
    bytes [226; 129; 159];  (* U+205F medium mathematical space *)
    bytes [227; 128; 128];  (* U+3000 ideographic space *)
    bytes [239; 187; 191]   (* U+FEFF zero width no-break space *)
  ].

(** [l] without its prefix [p], when it starts with [p]. *)
Fixpoint stripPrefix (p l : list ascii) : option (list ascii) :=
  match p, l with
  | [], _ => Some l
  | a :: p', b :: l' => if Ascii.eqb a b then stripPrefix p' l' else None
  | _ :: _, [] => None
  end.

(** [l] without the code point of [ws] it starts with, when there is one. *)
Fixpoint stripAny (ws : list (list ascii)) (l : list ascii)
  : option (list ascii) :=
  match ws with
  | [] => None
  | w :: more =>
      match stripPrefix w l with
      | Some rest => Some rest
      | None => stripAny more l
      end
  end.

(** [l] without the code points of [ws] it starts with, at most [n] of
    them; there are no more than [l] has bytes. *)
Fixpoint stripLeading (ws : list (list ascii)) (n : nat) (l : list ascii)
  : list ascii :=
  match n with
  | O => l
  | S n' =>
      match stripAny ws l with
      | Some rest => stripLeading ws n' rest
      | None => l
      end
  end.

Definition trimStart (s : string) : string :=
  let l := list_ascii_of_string s in
  string_of_list_ascii (stripLeading whiteSpace (List.length l) l).

Definition trimEnd (s : string) : string :=
  let l := list_ascii_of_string s in
  string_of_list_ascii
    (List.rev (stripLeading (map (@List.rev ascii) whiteSpace) (List.length l)
                 (List.rev l))).

Definition trim (s : string) : string := trimEnd (trimStart s).

(** [if (s)] on a string: the empty string is the only falsy one. *)
Definition truthy (s : string) : bool := negb (String.eqb s "").

(** [String.prototype.toLowerCase], as far as a comparison of its result
    with an ASCII name can tell: the letters A to Z are lowered, and so is
    the Kelvin sign U+212A (bytes 226, 132, 170), the one code point outside
    ASCII whose lower case is an ASCII letter, k.  The other code points
    outside ASCII are kept as they are, where JavaScript lowers the letters
    among them to letters that are outside ASCII as well; the resolver takes
    [toLowerCase] as a parameter, and compares its result with ASCII names
    only. *)
Definition lowerChar (c : ascii) : ascii :=
  let n := nat_of_ascii c in
  if ((65 <=? n) && (n <=? 90))%nat then ascii_of_nat (n + 32) else c.

Definition isKelvin (c d e : ascii) : bool :=
  ((nat_of_ascii c =? 226) && (nat_of_ascii d =? 132)
   && (nat_of_ascii e =? 170))%nat.

Fixpoint toLowerCase (s : string) : string :=
  match s with
  | EmptyString => EmptyString
  | String c rest =>
      match rest with
      | String d (String e rest') =>
          if isKelvin c d e then String "k"%char (toLowerCase rest')
          else String (lowerChar c) (toLowerCase rest)
      | _ => String (lowerChar c) (toLowerCase rest)
      end
  end.

(** [path.posix.basename]: the scan of Node's implementation, from the end
    of the path towards its start.  [lastComponent rev acc] reads the
    reversed path: trailing slashes are skipped while [acc] is empty, then
    characters are collected up to the next slash. *)
Definition slash : ascii := "/"%char.

Fixpoint lastComponent (rev : list ascii) (matchedSlash : bool) (acc : string)
  : string :=
  match rev with
  | [] => acc
  | c :: more =>
      if Ascii.eqb c slash then
        if matchedSlash then lastComponent more true acc else acc
      else lastComponent more false (String c acc)
  end.

Definition basename (p : string) : string :=
  lastComponent (List.rev (list_ascii_of_string p)) true EmptyString.

(** [setTimeout(cb, delay)]: Node sets a delay below 1 or above
    [TIMEOUT_MAX] to 1. *)
Definition TIMEOUT_MAX : Z := 2147483647.

Definition timerDelay (delay : Z) : Z :=
  if (delay <? 1)%Z || (TIMEOUT_MAX <? delay)%Z then 1%Z else delay.

End Js.

(** ** The launch-target resolver: [getTerminalCommand] *)

Module Resolver.

(** What [getTerminalCommand] returns when it does not return [null].  The
    [shell] field is absent from most of the returned objects; the caller
    reads it as [terminalCmd.shell || false]. *)
Record LaunchSpec := {
  command : string;
  args : list string;
  shell : bool
}.

(** The [stdio] option of a child process. *)
Inductive Stdio := StdioPipe | StdioInherit | StdioIgnore.

(** [execSync] returns or throws. *)
Inductive ExecResult := ExecReturns | ExecThrows.

(** One call of [execSync]. *)
Record ExecCall := { execCommand : string; execStdio : Stdio }.

Definition title : string := "Interactive MCP Input".

Definition nodeCommandOf (uiScriptPath sessionId tempDir : string) : string :=
  "node " ++ Js.dquote ++ uiScriptPath ++ Js.dquote
    ++ " " ++ Js.dquote ++ sessionId ++ Js.dquote
    ++ " " ++ Js.dquote ++ tempDir ++ Js.dquote.

(** The two [replace] calls of the AppleScript branches: every backslash is
    doubled, then every double quote gets a backslash before it. *)
Definition escapeForAppleScript (s : string) : string :=
  Js.replaceAll "034"%char (Js.backslash ++ Js.dquote)
    (Js.replaceAll "092"%char (Js.backslash ++ Js.backslash) s).

(** The entries of the [terminals] array of the Linux branch. *)
Record Terminal := { cmd : string; targs : list string }.

Definition kittyArgs (nodeCommand : string) : list string :=
  ["--title"; title; "--"; "sh"; "-c"; nodeCommand].

Definition alacrittyArgs (nodeCommand : string) : list string :=
  ["--title"; title; "-e"; "sh"; "-c"; nodeCommand].

Definition genericArgs (nodeCommand : string) : list string :=
  ["-e"; "sh"; "-c"; nodeCommand].

Definition terminals (nodeCommand : string) : list Terminal :=
  [ {| cmd := "kitty"; targs := kittyArgs nodeCommand |};
    {| cmd := "alacritty"; targs := alacrittyArgs nodeCommand |};
    {| cmd := "gnome-terminal";
       targs := ["--title=Interactive MCP Input"; "--"; "sh"; "-c"; nodeCommand] |};
    {| cmd := "konsole";
       targs := ["--title"; title; "-e"; "sh"; "-c"; nodeCommand] |};
    {| cmd := "xterm";
       targs := ["-title"; title; "-e"; "sh"; "-c"; nodeCommand] |} ].

(** The launch specification of a candidate of the Linux branch. *)
Definition launchSpecOf (t : Terminal) : LaunchSpec :=
  {| command := cmd t; args := targs t; shell := false |}.

(** [process.env.TERMINAL] is set to a non-empty string, what
    [if (terminalEnv)] tests. *)
Definition configured (terminalEnv : option string) : bool :=
  match terminalEnv with
  | Some env => Js.truthy env
  | None => false
  end.

(** An [execSync] that finds no executable: every call throws. *)
Definition nobody : string -> Stdio -> ExecResult := fun _ _ => ExecThrows.

Section WithEnvironment.

(** [path.basename] and [toLowerCase] of the running Node, and the
    outcome of [execSync] on a command line. *)
Variable basename : string -> string.
Variable toLowerCase : string -> string.
Variable execSync : string -> Stdio -> ExecResult.

(** The [for (const terminal of terminals)] loop: the result, and the
    [execSync] calls made, oldest first. *)
Fixpoint probe (ts : list Terminal) : option LaunchSpec * list ExecCall :=
  match ts with
  | [] => (None, [])
  | terminal :: rest =>
      let call := {| execCommand := "which " ++ cmd terminal;
                     execStdio := StdioIgnore |} in
      match execSync (execCommand call) (execStdio call) with
      | ExecReturns =>
          (Some {| command := cmd terminal; args := targs terminal;
                   shell := false |}, [call])
      | ExecThrows =>
          let (r, calls) := probe rest in (r, call :: calls)
      end
  end.

(** [getTerminalCommand], with [os.platform()] and
    [process.env.TERMINAL] as arguments. *)
Definition getTerminalCommandIO (platform : string)
    (terminalEnv : option string)
    (uiScriptPath sessionId tempDir : string)
  : option LaunchSpec * list ExecCall :=
  let nodeCommand := nodeCommandOf uiScriptPath sessionId tempDir in
  let fallback :=
    if String.eqb platform "darwin" then
      let escapedNodeCommand :=
        escapeForAppleScript ("exec " ++ nodeCommand ++ "; exit 0") in
      (Some {| command :=
                 "osascript -e 'tell application " ++ Js.dquote ++ "Terminal"
                   ++ Js.dquote ++ " to activate' -e 'tell application "
                   ++ Js.dquote ++ "Terminal" ++ Js.dquote ++ " to do script "
                   ++ Js.dquote ++ escapedNodeCommand ++ Js.dquote ++ "'";
               args := []; shell := true |}, [])
    else if String.eqb platform "linux" then
      probe (terminals nodeCommand)
    else if String.eqb platform "win32" then
      (Some {| command := "cmd";
               args := ["/c"; "start"; "cmd"; "/k"; nodeCommand];
               shell := false |}, [])
    else (None, []) in
  match terminalEnv with
  | None => fallback
  | Some env =>
      if Js.truthy env then
        let terminalName := toLowerCase (basename env) in
        let generic :=
          (Some {| command := env; args := genericArgs nodeCommand;
                   shell := false |}, []) in
        if String.eqb terminalName "kitty" then
          (Some {| command := env; args := kittyArgs nodeCommand;
                   shell := false |}, [])
        else if String.eqb terminalName "alacritty" then
          (Some {| command := env; args := alacrittyArgs nodeCommand;
                   shell := false |}, [])
        else if String.eqb terminalName "wezterm" then
          (Some {| command := env;
                   args := ["start"; "--"; "sh"; "-c"; nodeCommand];
                   shell := false |}, [])
        else if String.eqb terminalName "iterm2"
                || String.eqb terminalName "iterm" then
          if String.eqb platform "darwin" then
            (Some {| command :=
                       "osascript -e 'tell application " ++ Js.dquote
                         ++ "iTerm2" ++ Js.dquote
                         ++ " to create window with default profile command "
                         ++ Js.dquote ++ escapeForAppleScript nodeCommand
                         ++ Js.dquote ++ "'";
                     args := []; shell := true |}, [])
          else generic
        else generic
      else fallback
  end.

Definition getTerminalCommand (platform : string)
    (terminalEnv : option string)
    (uiScriptPath sessionId tempDir : string) : option LaunchSpec :=
  fst (getTerminalCommandIO platform terminalEnv uiScriptPath sessionId tempDir).

(** [which] finds the candidate. *)
Definition available (t : Terminal) : bool :=
  match execSync ("which " ++ cmd t) StdioIgnore with
  | ExecReturns => true
  | ExecThrows => false
  end.

Definition execCalls (platform : string) (terminalEnv : option string)
    (uiScriptPath sessionId tempDir : string) : list ExecCall :=
  snd (getTerminalCommandIO platform terminalEnv uiScriptPath sessionId tempDir).

End WithEnvironment.

(** The candidates the probe loop reaches: those before the first available
    one, and that one. *)
Fixpoint upToFirst (found : Terminal -> bool) (ts : list Terminal)
  : list Terminal :=
  match ts with
  | [] => []
  | t :: rest => if found t then [t] else t :: upToFirst found rest
  end.

(** The [execSync] call that probes a candidate. *)
Definition whichCall (t : Terminal) : ExecCall :=
  {| execCommand := "which " ++ cmd t; execStdio := StdioIgnore |}.

(** Reading back an escaped string: a backslash stands for the character
    that follows it. *)
Fixpoint unescape (s : string) : string :=
  match s with
  | EmptyString => EmptyString
  | String c rest =>
      if Ascii.eqb c "092"%char then
        match rest with
        | EmptyString => String c EmptyString
        | String d rest' => String d (unescape rest')
        end
      else String c (unescape rest)
  end.

End Resolver.

(** ** The session coordinator: [getCmdWindowInput] *)

Module Coordinator.

Import Resolver.
Local Open Scope Z_scope.

(** The three per-session files: [tempFilePath], [heartbeatFilePath] and
    [optionsFilePath]. *)
Inductive Channel := ResponseFile | HeartbeatFile | OptionsFile.

(** What the coordinator does to the outside, in the order it does it. *)
Inductive Effect :=
| WriteFile (c : Channel)
| Spawn (spec : LaunchSpec)
| ClearInterval
| WatcherClose
| ClearTimeout
| Unlink (c : Channel)
| Resolve (response : string).

(** Where the setup part of the async function stands. *)
Inductive Phase :=
| Idle
| WritingOptions
| InitialisingResponse
| Waiting (due : Z)
| SetupDone
| SetupFailed.

(** The variables of the closure, the operations in flight and the promise.

    - [clock]: the time of the latest turn of the event loop;
    - [ui]: the child process has been spawned and its [exit] and [error]
      listeners are registered;
    - [watcher]: the variable [watcher] holds an open watcher;
    - [timeoutHandle], [heartbeatInterval]: [None] is [null], a handle is
      the time at which its timer is next due;
    - [heartbeatFileSeen], [startTime]: as in the source;
    - [reads], [stats]: the [readFile] and [stat] calls in flight, each with
      its continuation in the watcher or the interval callback;
    - [cleanups]: the calls suspended at [await cleanupResources(...)], each
      with the response it passes to [resolve] afterwards;
    - [settled]: the value of the promise once resolved;
    - [effects]: what has been done to the outside, oldest first. *)
Record State := {
  clock : Z;
  phase : Phase;
  ui : bool;
  watcher : bool;
  timeoutHandle : option Z;
  heartbeatInterval : option Z;
  heartbeatFileSeen : bool;
  startTime : Z;
  reads : nat;
  stats : nat;
  cleanups : list string;
  settled : option string;
  effects : list Effect
}.

(** Before the call. *)
Definition initial : State :=
  {| clock := 0; phase := Idle; ui := false; watcher := false;
     timeoutHandle := None; heartbeatInterval := None;
     heartbeatFileSeen := false; startTime := 0; reads := O; stats := O;
     cleanups := []; settled := None; effects := [] |}.

Definition set_clock (v : Z) (s : State) : State :=
  {| clock := v; phase := phase s; ui := ui s; watcher := watcher s;
     timeoutHandle := timeoutHandle s; heartbeatInterval := heartbeatInterval s;
     heartbeatFileSeen := heartbeatFileSeen s; startTime := startTime s;
     reads := reads s; stats := stats s; cleanups := cleanups s;
     settled := settled s; effects := effects s |}.

Definition set_phase (v : Phase) (s : State) : State :=
  {| clock := clock s; phase := v; ui := ui s; watcher := watcher s;
     timeoutHandle := timeoutHandle s; heartbeatInterval := heartbeatInterval s;
     heartbeatFileSeen := heartbeatFileSeen s; startTime := startTime s;
     reads := reads s; stats := stats s; cleanups := cleanups s;
     settled := settled s; effects := effects s |}.

Definition set_ui (v : bool) (s : State) : State :=
  {| clock := clock s; phase := phase s; ui := v; watcher := watcher s;
     timeoutHandle := timeoutHandle s; heartbeatInterval := heartbeatInterval s;
     heartbeatFileSeen := heartbeatFileSeen s; startTime := startTime s;
     reads := reads s; stats := stats s; cleanups := cleanups s;
     settled := settled s; effects := effects s |}.

Definition set_watcher (v : bool) (s : State) : State :=
  {| clock := clock s; phase := phase s; ui := ui s; watcher := v;
     timeoutHandle := timeoutHandle s; heartbeatInterval := heartbeatInterval s;
     heartbeatFileSeen := heartbeatFileSeen s; startTime := startTime s;
     reads := reads s; stats := stats s; cleanups := cleanups s;
     settled := settled s; effects := effects s |}.

Definition set_timeoutHandle (v : option Z) (s : State) : State :=
  {| clock := clock s; phase := phase s; ui := ui s; watcher := watcher s;
     timeoutHandle := v; heartbeatInterval := heartbeatInterval s;
     heartbeatFileSeen := heartbeatFileSeen s; startTime := startTime s;
     reads := reads s; stats := stats s; cleanups := cleanups s;
     settled := settled s; effects := effects s |}.

Definition set_heartbeatInterval (v : option Z) (s : State) : State :=
  {| clock := clock s; phase := phase s; ui := ui s; watcher := watcher s;
     timeoutHandle := timeoutHandle s; heartbeatInterval := v;
     heartbeatFileSeen := heartbeatFileSeen s; startTime := startTime s;
     reads := reads s; stats := stats s; cleanups := cleanups s;
     settled := settled s; effects := effects s |}.

Definition set_heartbeatFileSeen (v : bool) (s : State) : State :=
  {| clock := clock s; phase := phase s; ui := ui s; watcher := watcher s;
     timeoutHandle := timeoutHandle s; heartbeatInterval := heartbeatInterval s;
     heartbeatFileSeen := v; startTime := startTime s;
     reads := reads s; stats := stats s; cleanups := cleanups s;
     settled := settled s; effects := effects s |}.

Definition set_startTime (v : Z) (s : State) : State :=
  {| clock := clock s; phase := phase s; ui := ui s; watcher := watcher s;
     timeoutHandle := timeoutHandle s; heartbeatInterval := heartbeatInterval s;
     heartbeatFileSeen := heartbeatFileSeen s; startTime := v;
     reads := reads s; stats := stats s; cleanups := cleanups s;
     settled := settled s; effects := effects s |}.

Definition set_reads (v : nat) (s : State) : State :=
  {| clock := clock s; phase := phase s; ui := ui s; watcher := watcher s;
     timeoutHandle := timeoutHandle s; heartbeatInterval := heartbeatInterval s;
     heartbeatFileSeen := heartbeatFileSeen s; startTime := startTime s;
     reads := v; stats := stats s; cleanups := cleanups s;
     settled := settled s; effects := effects s |}.

Definition set_stats (v : nat) (s : State) : State :=
  {| clock := clock s; phase := phase s; ui := ui s; watcher := watcher s;
     timeoutHandle := timeoutHandle s; heartbeatInterval := heartbeatInterval s;
     heartbeatFileSeen := heartbeatFileSeen s; startTime := startTime s;
     reads := reads s; stats := v; cleanups := cleanups s;
     settled := settled s; effects := effects s |}.

Definition set_cleanups (v : list string) (s : State) : State :=
  {| clock := clock s; phase := phase s; ui := ui s; watcher := watcher s;
     timeoutHandle := timeoutHandle s; heartbeatInterval := heartbeatInterval s;
     heartbeatFileSeen := heartbeatFileSeen s; startTime := startTime s;
     reads := reads s; stats := stats s; cleanups := v;
     settled := settled s; effects := effects s |}.

Definition set_settled (v : option string) (s : State) : State :=
  {| clock := clock s; phase := phase s; ui := ui s; watcher := watcher s;
     timeoutHandle := timeoutHandle s; heartbeatInterval := heartbeatInterval s;
     heartbeatFileSeen := heartbeatFileSeen s; startTime := startTime s;
     reads := reads s; stats := stats s; cleanups := cleanups s;
     settled := v; effects := effects s |}.

Definition emit (es : list Effect) (s : State) : State :=
  {| clock := clock s; phase := phase s; ui := ui s; watcher := watcher s;
     timeoutHandle := timeoutHandle s; heartbeatInterval := heartbeatInterval s;
     heartbeatFileSeen := heartbeatFileSeen s; startTime := startTime s;
     reads := reads s; stats := stats s; cleanups := cleanups s;
     settled := settled s; effects := effects s ++ es |}.

(** What the caller supplies, and what the resolver answered:
    [timeoutSeconds] in whole seconds, [terminalCmd] as returned by
    [getTerminalCommand]. *)
Record Config := {
  terminalCmd : option LaunchSpec;
  timeoutSeconds : Z
}.

(** The configuration of a session on a given machine: [terminalCmd] is what
    [getTerminalCommand] returns there. *)
Definition configFor (basename toLowerCase : string -> string)
    (execSync : string -> Stdio -> ExecResult)
    (platform : string) (terminalEnv : option string)
    (uiScriptPath sessionId tempDir : string) (seconds : Z) : Config :=
  {| terminalCmd :=
       getTerminalCommand basename toLowerCase execSync platform terminalEnv
         uiScriptPath sessionId tempDir;
     timeoutSeconds := seconds |}.

(** The result of [fsPromises.readFile] on the response file. *)
Inductive ReadResult := ReadOk (data : string) | ReadFails.

(** The result of [fsPromises.stat] on the heartbeat file: the [mtime] in
    milliseconds, or what was thrown: an object whose [code] is [ENOENT],
    an object with another [code], or something without a [code]. *)
Inductive StatResult :=
| StatOk (mtime : Z)
| StatENOENT
| StatOtherCode
| StatNoCode.

(** What the event loop runs next.

    - [Call]: [getCmdWindowInput] is called: it starts writing the options;
    - [OptionsWritten ok spawnOk]: the options write is over; when it
      succeeded the terminal is resolved and spawned ([spawnOk]: [spawn]
      does not throw), [startTime] is read and the response file is written;
    - [ResponseInitialised ok]: that write is over; the wait of 500 ms starts;
    - [DelayElapsed watchOk]: the wait is over; [watch] is called ([watchOk]:
      it does not throw), then [setInterval] and [setTimeout];
    - [UiExit code], [UiError]: the [exit] and [error] events of the child;
    - [WatchEvent eventType]: the listener of the watcher is called;
    - [ReadDone r]: a [readFile] of the response file is over;
    - [IntervalFires]: the interval callback runs and calls [stat];
    - [StatDone r]: a [stat] of the heartbeat file is over;
    - [TimeoutFires]: the timeout callback runs;
    - [CleanupDone k]: the [k]-th pending [cleanupResources] is over. *)
Inductive Event :=
| Call
| OptionsWritten (ok : bool) (spawnOk : bool)
| ResponseInitialised (ok : bool)
| DelayElapsed (watchOk : bool)
| UiExit (code : option Z)
| UiError
| WatchEvent (eventType : string)
| ReadDone (r : ReadResult)
| IntervalFires
| StatDone (r : StatResult)
| TimeoutFires
| CleanupDone (k : nat).

(** [cleanupResources]: the three [unlink] calls are issued at once, in the
    order of the array; a rejection of any of them is swallowed. *)
Definition cleanupResources (s : State) : State :=
  emit [Unlink ResponseFile; Unlink HeartbeatFile; Unlink OptionsFile] s.

(** [await cleanupResources(...); resolve(response)]: the caller is
    suspended until [CleanupDone] picks its entry. *)
Definition awaitCleanup (response : string) (s : State) : State :=
  set_cleanups (cleanups s ++ [response]) (cleanupResources s).

(** [cleanupAndResolve] up to its [await]. *)
Definition cleanupAndResolve (response : string) (s : State) : State :=
  let s1 :=
    match heartbeatInterval s with
    | Some _ => set_heartbeatInterval None (emit [ClearInterval] s)
    | None => s
    end in
  let s2 :=
    if watcher s1 then set_watcher false (emit [WatcherClose] s1) else s1 in
  let s3 :=
    match timeoutHandle s2 with
    | Some _ => set_timeoutHandle None (emit [ClearTimeout] s2)
    | None => s2
    end in
  awaitCleanup response s3.

(** [resolve(response)] of the promise: only the first call settles it. *)
Definition resolve (response : string) (s : State) : State :=
  let s1 := emit [Resolve response] s in
  match settled s1 with
  | None => set_settled (Some response) s1
  | Some _ => s1
  end.

(** The [catch (setupError)] block up to its [await]. *)
Definition catchSetupError (s : State) : State :=
  awaitCleanup "" (set_phase SetupFailed s).

(** [watcher || timeoutHandle] *)
Definition watcherOrTimeout (s : State) : bool :=
  watcher s || match timeoutHandle s with Some _ => true | None => false end.

(** [handleExit]: [code] is a number, or [null] when a signal ended the
    process. *)
Definition handleExit (code : option Z) (s : State) : State :=
  let nonZero := match code with Some 0 => false | _ => true end in
  if nonZero && watcherOrTimeout s then cleanupAndResolve "" s else s.

Definition handleError (s : State) : State :=
  if watcherOrTimeout s then cleanupAndResolve "" s else s.

(** The continuation of [readFile] in the watcher callback. *)
Definition onRead (r : ReadResult) (s : State) : State :=
  match r with
  | ReadOk data =>
      if Js.truthy data then cleanupAndResolve (Js.trim data) s else s
  | ReadFails => cleanupAndResolve "" s
  end.

(** The continuation of [stat] in the interval callback; [now] is
    [Date.now()]. *)
Definition onStat (r : StatResult) (now : Z) (s : State) : State :=
  match r with
  | StatOk mtime =>
      if now - mtime >? 3000 then cleanupAndResolve "" s
      else set_heartbeatFileSeen true s
  | StatENOENT =>
      if heartbeatFileSeen s then cleanupAndResolve "" s
      else if now - startTime s >? 7000 then cleanupAndResolve "" s
      else s
  | StatOtherCode => cleanupAndResolve "" s
  | StatNoCode => cleanupAndResolve "" s
  end.

(** [xs] without its [k]-th element. *)
Fixpoint removeNth {A : Type} (k : nat) (xs : list A) : list A :=
  match xs, k with
  | [], _ => []
  | _ :: rest, O => rest
  | x :: rest, S k' => x :: removeNth k' rest
  end.

(** The delay of the timeout timer: [timeoutSeconds * 1000 + 5000], as
    [setTimeout] takes it. *)
Definition timeoutDelay (cfg : Config) : Z :=
  Js.timerDelay (timeoutSeconds cfg * 1000 + 5000).

(** [getCmdWindowInput], one turn of the event loop at a time: the part of
    the async function, or the callback it registered, that the event [e]
    runs at time [now].  [None] when the event cannot happen in [s]: a setup
    step completes only where the setup stands, a timer does not fire
    before it is due nor after it was cleared, a closed watcher is silent,
    the process is observed once spawned, and only operations in flight
    complete. *)
Definition getCmdWindowInput (cfg : Config) (now : Z) (e : Event) (s : State)
  : option State :=
  match e with
  | Call =>
      match phase s with
      | Idle => Some (set_phase WritingOptions (emit [WriteFile OptionsFile] s))
      | _ => None
      end
  | OptionsWritten ok spawnOk =>
      match phase s with
      | WritingOptions =>
          if ok then
            match terminalCmd cfg with
            | None => Some (catchSetupError s)
            | Some spec =>
                if spawnOk then
                  Some (set_phase InitialisingResponse
                          (emit [WriteFile ResponseFile]
                             (set_startTime now
                                (set_ui true (emit [Spawn spec] s)))))
                else Some (catchSetupError s)
            end
          else Some (catchSetupError s)
      | _ => None
      end
  | ResponseInitialised ok =>
      match phase s with
      | InitialisingResponse =>
          if ok then Some (set_phase (Waiting (now + 500)) s)
          else Some (catchSetupError s)
      | _ => None
      end
  | DelayElapsed watchOk =>
      match phase s with
      | Waiting due =>
          if due <=? now then
            if watchOk then
              Some (set_phase SetupDone
                      (set_timeoutHandle (Some (now + timeoutDelay cfg))
                         (set_heartbeatInterval (Some (now + 1500))
                            (set_watcher true s))))
            else Some (catchSetupError s)
          else None
      | _ => None
      end
  | UiExit code => if ui s then Some (handleExit code s) else None
  | UiError => if ui s then Some (handleError s) else None
  | WatchEvent eventType =>
      if watcher s then
        if String.eqb eventType "change"
        then Some (set_reads (S (reads s)) s)
        else Some s
      else None
  | ReadDone r =>
      match reads s with
      | S n => Some (onRead r (set_reads n s))
      | O => None
      end
  | IntervalFires =>
      match heartbeatInterval s with
      | Some due =>
          if due <=? now then
            Some (set_stats (S (stats s))
                    (set_heartbeatInterval (Some (now + 1500)) s))
          else None
      | None => None
      end
  | StatDone r =>
      match stats s with
      | S n => Some (onStat r now (set_stats n s))
      | O => None
      end
  | TimeoutFires =>
      match timeoutHandle s with
      | Some due =>
          if due <=? now then Some (cleanupAndResolve "" s) else None
      | None => None
      end
  | CleanupDone k =>
      match nth_error (cleanups s) k with
      | Some response =>
          Some (resolve response (set_cleanups (removeNth k (cleanups s)) s))
      | None => None
      end
  end.

(** A turn at time [now]: time does not go back. *)
Definition step (cfg : Config) (now : Z) (e : Event) (s : State)
  : option State :=
  if clock s <=? now then getCmdWindowInput cfg now e (set_clock now s)
  else None.

(** A run of the event loop: the events with the time of each. *)
Fixpoint run (cfg : Config) (tr : list (Z * Event)) (s : State)
  : option State :=
  match tr with
  | [] => Some s
  | (now, e) :: rest =>
      match step cfg now e s with
      | Some s' => run cfg rest s'
      | None => None
      end
  end.

(** *** The nominal schedule

    File operations complete at once, every timer fires exactly when it is
    due, the setup succeeds, the UI process raises no [exit] or [error]
    event and the response file does not change; [hb now] is what [stat]
    finds on the heartbeat file at time [now].  When the interval and the
    timeout are due together the interval, armed first, runs first. *)
Definition nominalNext (cfg : Config) (hb : Z -> StatResult) (s : State)
  : option State :=
  match cleanups s with
  | _ :: _ => step cfg (clock s) (CleanupDone 0) s
  | [] =>
      match stats s with
      | S _ => step cfg (clock s) (StatDone (hb (clock s))) s
      | O =>
          match phase s with
          | Idle => step cfg (clock s) Call s
          | WritingOptions => step cfg (clock s) (OptionsWritten true true) s
          | InitialisingResponse =>
              step cfg (clock s) (ResponseInitialised true) s
          | Waiting due => step cfg due (DelayElapsed true) s
          | SetupDone =>
              match heartbeatInterval s, timeoutHandle s with
              | Some i, Some t =>
                  if i <=? t then step cfg i IntervalFires s
                  else step cfg t TimeoutFires s
              | Some i, None => step cfg i IntervalFires s
              | None, Some t => step cfg t TimeoutFires s
              | None, None => None
              end
          | SetupFailed => None
          end
      end
  end.

(** The state in which the promise is settled, if [fuel] turns suffice. *)
Fixpoint nominalRun (cfg : Config) (hb : Z -> StatResult) (fuel : nat)
    (s : State) : option State :=
  match settled s with
  | Some _ => Some s
  | None =>
      match fuel with
      | O => None
      | S n =>
          match nominalNext cfg hb s with
          | Some s' => nominalRun cfg hb n s'
          | None => None
          end
      end
  end.

(** A session called at time [t0]: the time from the call to the
    resolution, and the answer. *)
Definition nominalSession (cfg : Config) (hb : Z -> StatResult) (t0 : Z)
    (fuel : nat) : option (Z * string) :=
  match nominalRun cfg hb fuel (set_clock t0 initial) with
  | Some s =>
      match settled s with
      | Some answer => Some (clock s - t0, answer)
      | None => None
      end
  | None => None
  end.

(** *** A session left to itself

    From whatever state the session is in: a pending cleanup completes, a
    [stat] in flight completes with what [hb] finds, a read in flight
    completes with the response file still empty, as the setup wrote it,
    the setup goes on without a failure, and a timer fires when it is due,
    or at once when that time has passed already.  No failure is injected,
    the child raises no event and nothing is written to the response file;
    when the interval and the timeout are due together the interval, armed
    first, runs first. *)
Definition unattendedNext (cfg : Config) (hb : Z -> StatResult) (s : State)
  : option State :=
  match cleanups s with
  | _ :: _ => step cfg (clock s) (CleanupDone 0) s
  | [] =>
      match stats s with
      | S _ => step cfg (clock s) (StatDone (hb (clock s))) s
      | O =>
          match reads s with
          | S _ => step cfg (clock s) (ReadDone (ReadOk "")) s
          | O =>
              match phase s with
              | Idle => step cfg (clock s) Call s
              | WritingOptions =>
                  step cfg (clock s) (OptionsWritten true true) s
              | InitialisingResponse =>
                  step cfg (clock s) (ResponseInitialised true) s
              | Waiting due =>
                  step cfg (Z.max (clock s) due) (DelayElapsed true) s
              | SetupDone =>
                  match heartbeatInterval s, timeoutHandle s with
                  | Some i, Some t =>
                      if i <=? t
                      then step cfg (Z.max (clock s) i) IntervalFires s
                      else step cfg (Z.max (clock s) t) TimeoutFires s
                  | Some i, None =>
                      step cfg (Z.max (clock s) i) IntervalFires s
                  | None, Some t =>
                      step cfg (Z.max (clock s) t) TimeoutFires s
                  | None, None => None
                  end
              | SetupFailed => None
              end
          end
      end
  end.

(** The state in which the promise is settled, if [fuel] turns suffice. *)
Fixpoint unattendedRun (cfg : Config) (hb : Z -> StatResult) (fuel : nat)
    (s : State) : option State :=
  match settled s with
  | Some _ => Some s
  | None =>
      match fuel with
      | O => None
      | S n =>
          match unattendedNext cfg hb s with
          | Some s' => unattendedRun cfg hb n s'
          | None => None
          end
      end
  end.

(** The heartbeat file never exists; the heartbeat file is always fresh. *)
Definition neverCreated : Z -> StatResult := fun _ => StatENOENT.
Definition alwaysFresh : Z -> StatResult := fun now => StatOk now.

(** *** Vocabulary of the properties *)

Local Open Scope list_scope.

(** What [cleanupAndResolve] clears in [s], in the order of its three tests. *)
Definition disarmEffects (s : State) : list Effect :=
  (match heartbeatInterval s with Some _ => [ClearInterval] | None => [] end)
  ++ (if watcher s then [WatcherClose] else [])
  ++ (match timeoutHandle s with Some _ => [ClearTimeout] | None => [] end).

(** The three deletions of [cleanupResources]. *)
Definition unlinks : list Effect :=
  [Unlink ResponseFile; Unlink HeartbeatFile; Unlink OptionsFile].

(** Calls of [resolve] among the effects. *)
Definition isResolve (e : Effect) : bool :=
  match e with Resolve _ => true | _ => false end.

Definition noResolve (es : list Effect) : Prop :=
  forallb (fun e => negb (isResolve e)) es = true.

(** What one turn of the event loop does to the promise, to the pending
    cleanups and to the effects: nothing of note, the start of a cleanup that
    will resolve with [r], or the end of one. *)
Inductive Shape (e : Event) (s s' : State) : Prop :=
| Quiet (es : list Effect) :
    settled s' = settled s -> cleanups s' = cleanups s ->
    effects s' = effects s ++ es -> noResolve es ->
    Shape e s s'
| Begins (r : string) (es : list Effect) :
    settled s' = settled s -> cleanups s' = cleanups s ++ [r] ->
    effects s' = effects s ++ es ++ unlinks -> noResolve es ->
    r = "" \/ (exists data, e = ReadDone (ReadOk data)
                 /\ Js.truthy data = true /\ r = Js.trim data) ->
    Shape e s s'
| Ends (k : nat) (r : string) :
    e = CleanupDone k -> nth_error (cleanups s) k = Some r ->
    cleanups s' = removeNth k (cleanups s) ->
    effects s' = effects s ++ [Resolve r] ->
    settled s' = match settled s with None => Some r | Some x => Some x end ->
    Shape e s s'.

(** Each of the three files has been the object of an [unlink]. *)
Definition unlinked (es : list Effect) : Prop := incl unlinks es.

(** Every call of [resolve] comes after the three deletions. *)
Definition cleanedBeforeResolve (es : list Effect) : Prop :=
  forall pre r post, es = pre ++ Resolve r :: post -> unlinked pre.

Definition Clean (s : State) : Prop :=
  (cleanups s <> [] -> unlinked (effects s))
  /\ (settled s <> None -> unlinked (effects s))
  /\ cleanedBeforeResolve (effects s).

(** An unsettled session still has a way to settle. *)
Definition Live (s : State) : Prop :=
  settled s = None ->
  match phase s with
  | SetupDone => timeoutHandle s <> None \/ cleanups s <> []
  | SetupFailed => cleanups s <> []
  | _ => True
  end.

(** The answer [r] is empty or is the trimmed content of a successful,
    non-empty read of the run [tr]. *)
Definition answered (tr : list (Z * Event)) (r : string) : Prop :=
  r = ""
  \/ exists t data, In (t, ReadDone (ReadOk data)) tr
                    /\ Js.truthy data = true /\ r = Js.trim data.


(** *** The failures of the specification, as events

    Each failure is the event that reports it to the coordinator;
    [failureApplies] says when the event is that failure: the setup step it
    ends, or the trigger that must be armed, or what the callback finds. *)
Inductive Failure :=
| NoTerminalAvailable
| OptionsWriteFailure
| SpawnFailure
| ResponseInitFailure
| WatchFailure
| AbnormalExit (code : option Z)
| ProcessError
| AnswerReadFailure
| HeartbeatStale (mtime : Z)
| HeartbeatLost
| HeartbeatNeverAppeared
| HeartbeatCheckError (hasCode : bool)
| InputTimeout.

Definition failureEvent (f : Failure) : Event :=
  match f with
  | NoTerminalAvailable => OptionsWritten true true
  | OptionsWriteFailure => OptionsWritten false true
  | SpawnFailure => OptionsWritten true false
  | ResponseInitFailure => ResponseInitialised false
  | WatchFailure => DelayElapsed false
  | AbnormalExit code => UiExit code
  | ProcessError => UiError
  | AnswerReadFailure => ReadDone ReadFails
  | HeartbeatStale mtime => StatDone (StatOk mtime)
  | HeartbeatLost => StatDone StatENOENT
  | HeartbeatNeverAppeared => StatDone StatENOENT
  | HeartbeatCheckError hasCode =>
      StatDone (if hasCode then StatOtherCode else StatNoCode)
  | InputTimeout => TimeoutFires
  end.

Definition failureApplies (cfg : Config) (now : Z) (f : Failure) (s : State)
  : Prop :=
  match f with
  | NoTerminalAvailable => phase s = WritingOptions /\ terminalCmd cfg = None
  | OptionsWriteFailure => phase s = WritingOptions
  | SpawnFailure => phase s = WritingOptions
  | ResponseInitFailure => phase s = InitialisingResponse
  | WatchFailure => exists due, phase s = Waiting due /\ due <= now
  | AbnormalExit code =>
      ui s = true /\ code <> Some 0 /\ watcherOrTimeout s = true
  | ProcessError => ui s = true /\ watcherOrTimeout s = true
  | AnswerReadFailure => reads s <> O
  | HeartbeatStale mtime => stats s <> O /\ 3000 < now - mtime
  | HeartbeatLost => stats s <> O /\ heartbeatFileSeen s = true
  | HeartbeatNeverAppeared =>
      stats s <> O /\ heartbeatFileSeen s = false /\ 7000 < now - startTime s
  | HeartbeatCheckError _ => stats s <> O
  | InputTimeout => exists due, timeoutHandle s = Some due /\ due <= now
  end.

(** When the event is that failure, whether or not a trigger is armed: an
    exit or an error of the child may come at any time after the spawn. *)
Definition failureOccurs (cfg : Config) (now : Z) (f : Failure) (s : State)
  : Prop :=
  match f with
  | AbnormalExit code => ui s = true /\ code <> Some 0
  | ProcessError => ui s = true
  | _ => failureApplies cfg now f s
  end.

(** *** Counting the effects of a run *)

Definition isUnlinkOf (c : Channel) (e : Effect) : bool :=
  match e, c with
  | Unlink ResponseFile, ResponseFile => true
  | Unlink HeartbeatFile, HeartbeatFile => true
  | Unlink OptionsFile, OptionsFile => true
  | _, _ => false
  end.

(** How many times [cleanupResources] ran: it deletes each file once. *)
Definition cleanupRuns (s : State) : nat :=
  length (filter (isUnlinkOf OptionsFile) (effects s)).

(** How many times [resolve] was called. *)
Definition resolveCalls (s : State) : nat :=
  length (filter isResolve (effects s)).

(** *** Sample sessions *)

Definition kitty : LaunchSpec :=
  {| command := "kitty"; args := kittyArgs "node ui.js"; shell := false |}.

Definition sampleConfig (seconds : Z) : Config :=
  {| terminalCmd := Some kitty; timeoutSeconds := seconds |}.

(** The setup of a session called at time 0 whose file operations complete
    at once: the triggers are armed at 500. *)
Definition setupTrace : list (Z * Event) :=
  [(0, Call); (0, OptionsWritten true true); (0, ResponseInitialised true);
   (500, DelayElapsed true)].

(** A poll at time [t] that finds the heartbeat file just written. *)
Definition freshPoll (t : Z) : list (Z * Event) :=
  [(t, IntervalFires); (t, StatDone (StatOk t))].

(** With [timeoutSeconds = 5]: the heartbeat stays fresh; at 10500 the
    response file changes and the read starts, the timeout fires before the
    read completes, the read then returns the answer, and both cleanups
    complete. *)
Definition raceTrace : list (Z * Event) :=
  setupTrace
    ++ freshPoll 2000 ++ freshPoll 3500 ++ freshPoll 5000 ++ freshPoll 6500
    ++ freshPoll 8000 ++ freshPoll 9500
    ++ [(10500, WatchEvent "change"); (10500, TimeoutFires);
        (10500, ReadDone (ReadOk "yes"));
        (10500, CleanupDone 0); (10500, CleanupDone 0)].

(** The UI writes a single space as the answer at time 600. *)
Definition blankAnswerTrace : list (Z * Event) :=
  setupTrace
    ++ [(600, WatchEvent "change"); (600, ReadDone (ReadOk " "));
        (600, CleanupDone 0)].

(** Linux, no [TERMINAL] in the environment and none of the candidates
    installed: the resolver finds no terminal. *)
Definition noTerminalConfig : Config :=
  configFor Js.basename Js.toLowerCase nobody "linux" None
    "ui.js" "a1b2" "/tmp" 60.

Definition noTerminalTrace : list (Z * Event) :=
  [(0, Call); (0, OptionsWritten true true); (0, CleanupDone 0)].

(** The terminal cannot be started: the [error] event of the child comes
    while the response file is being initialised; the heartbeat file is
    never created and the polls find it missing. *)
Definition earlyErrorTrace : list (Z * Event) :=
  [(0, Call); (0, OptionsWritten true true); (1, UiError);
   (1, ResponseInitialised true); (501, DelayElapsed true);
   (2001, IntervalFires); (2001, StatDone StatENOENT);
   (3501, IntervalFires); (3501, StatDone StatENOENT);
   (5001, IntervalFires); (5001, StatDone StatENOENT);
   (6501, IntervalFires); (6501, StatDone StatENOENT);
   (8001, IntervalFires); (8001, StatDone StatENOENT);
   (8001, CleanupDone 0)].


(** The session of [sampleConfig] right after its triggers are armed. *)
Definition armedSample : State :=
  Eval vm_compute in
    match run (sampleConfig 5) setupTrace initial with
    | Some s => s
    | None => initial
    end.

(** *** Armed sessions

    A session whose setup is over, with nothing in flight: the watcher is
    on, the interval is next due at [i] and the timeout at [tm]. *)
Definition armedState (start clk i tm : Z) (seen : bool) (es : list Effect)
  : State :=
  {| clock := clk; phase := SetupDone; ui := true; watcher := true;
     timeoutHandle := Some tm; heartbeatInterval := Some i;
     heartbeatFileSeen := seen; startTime := start; reads := O; stats := O;
     cleanups := []; settled := None; effects := es |}.

(** An armed session with whatever is in flight: [rd] reads and [n] stats. *)
Definition armedWith (start clk i tm : Z) (seen u : bool) (rd n : nat)
    (es : list Effect) : State :=
  {| clock := clk; phase := SetupDone; ui := u; watcher := true;
     timeoutHandle := Some tm; heartbeatInterval := Some i;
     heartbeatFileSeen := seen; startTime := start; reads := rd; stats := n;
     cleanups := []; settled := None; effects := es |}.

(** What the setup guarantees about the timers: the wait of 500 ms starts
    after [startTime], and the timeout is due its delay after the wait. *)
Definition TimerInv (cfg : Config) (s : State) : Prop :=
  startTime s <= clock s
  /\ match phase s with
     | Idle | WritingOptions => timeoutHandle s = None
     | Waiting due => startTime s + 500 <= due /\ timeoutHandle s = None
     | InitialisingResponse => timeoutHandle s = None
     | _ => True
     end
  /\ match timeoutHandle s with
     | Some due => startTime s + 500 + timeoutDelay cfg <= due
     | None => True
     end.

(** The effects of a setup that succeeds. *)
Definition setupEffects (spec : LaunchSpec) : list Effect :=
  [WriteFile OptionsFile; Spawn spec; WriteFile ResponseFile].

(** *** Vocabulary of further properties *)

(** The setup is still under way. *)
Definition inSetup (p : Phase) : bool :=
  match p with
  | Idle | WritingOptions | InitialisingResponse | Waiting _ => true
  | SetupDone | SetupFailed => false
  end.

(** The watcher, the timeout and the interval are all set. *)
Definition Armed (s : State) : Prop :=
  watcher s = true /\ timeoutHandle s <> None /\ heartbeatInterval s <> None.

(** The watcher, the timeout and the interval are all [null]. *)
Definition Disarmed (s : State) : Prop :=
  watcher s = false /\ timeoutHandle s = None /\ heartbeatInterval s = None.

(** The triggers are armed together, once the setup is done and as long as
    no resolution has started; during the setup, and after a failed one,
    nothing is in flight. *)
Definition TriggersInv (s : State) : Prop :=
  (Armed s /\ phase s = SetupDone /\ cleanups s = [] /\ settled s = None)
  \/ (Disarmed s
      /\ (inSetup (phase s) = true ->
          reads s = O /\ stats s = O /\ cleanups s = [] /\ settled s = None)
      /\ (phase s = SetupFailed -> reads s = O /\ stats s = O)).

(** How many times a file was deleted. *)
Definition unlinkCount (c : Channel) (s : State) : nat :=
  length (filter (isUnlinkOf c) (effects s)).

(** Every cleanup deletes the three files; each one that is over has called
    [resolve]; the promise is settled once [resolve] has been called. *)
Definition Accounting (s : State) : Prop :=
  (cleanupRuns s = resolveCalls s + length (cleanups s))%nat
  /\ unlinkCount ResponseFile s = cleanupRuns s
  /\ unlinkCount HeartbeatFile s = cleanupRuns s
  /\ (settled s = None <-> resolveCalls s = O).

(** The effects that undo the session: disarming, deleting, resolving. *)
Definition isTeardown (e : Effect) : bool :=
  match e with
  | WriteFile _ | Spawn _ => false
  | _ => true
  end.

(** The effects of a run: what the setup did, then only teardown. *)
Definition SetupThenTeardown (cfg : Config) (es : list Effect) : Prop :=
  exists pre rest,
    es = pre ++ rest
    /\ (pre = [] \/ pre = [WriteFile OptionsFile]
        \/ exists spec, terminalCmd cfg = Some spec /\ pre = setupEffects spec)
    /\ forallb isTeardown rest = true.

(** The heartbeat file exists and was last written at time [last]. *)
Definition lastUpdate (last : Z) : Z -> StatResult :=
  fun now => StatOk (Z.min now last).

(** The effects at each stage of the setup, and after it. *)
Definition EffectsInv (cfg : Config) (s : State) : Prop :=
  match phase s with
  | Idle => effects s = []
  | WritingOptions => effects s = [WriteFile OptionsFile]
  | InitialisingResponse | Waiting _ =>
      exists spec, terminalCmd cfg = Some spec /\ effects s = setupEffects spec
  | SetupDone | SetupFailed => SetupThenTeardown cfg (effects s)
  end.

(** States along the sample runs: in [raceTrace], right after the timeout
    callback, with the read still in flight, and right after the first
    [resolve]; in [earlyErrorTrace], right after the spawn. *)
Definition raceStarted : State :=
  Eval vm_compute in
    match run (sampleConfig 5) (firstn 18 raceTrace) initial with
    | Some s => s
    | None => initial
    end.

Definition raceResolved : State :=
  Eval vm_compute in
    match run (sampleConfig 5) (firstn 20 raceTrace) initial with
    | Some s => s
    | None => initial
    end.

Definition earlySpawned : State :=
  Eval vm_compute in
    match run (sampleConfig 60) (firstn 2 earlyErrorTrace) initial with
    | Some s => s
    | None => initial
    end.

End Coordinator.

(** ** The prompt shown in the command window: [InteractiveInput]

    The two Ink components that ask the question.  A component is a state
    record, the hooks' initial values, and a key handler.  The handler is a
    closure over the state of the render that created it ([view]); it
    returns the state setters it calls, a setter taking either a value or an
    updater on the latest state, as [useState] has them.  Ink subscribes
    the handler of a render in an effect of that render, so a key event is
    taken by the handler of the last render that was subscribed: key events
    that arrive before the component has rendered again are all taken by
    the same handler ([deliver]).  [press] and [presses] are the schedule in
    which the component renders after every key event.  The strings of
    these modules come from the keyboard and are indexed: a character of a
    string stands here for one UTF-16 code unit, as [length] and [slice]
    count them. *)

Module JsString.

Local Open Scope Z_scope.

Definition length (s : string) : Z := Z.of_nat (String.length s).

Fixpoint take (n : nat) (s : string) : string :=
  match n, s with
  | S n', String c rest => String c (take n' rest)
  | _, _ => EmptyString
  end.

Fixpoint drop (n : nat) (s : string) : string :=
  match n, s with
  | S n', String _ rest => drop n' rest
  | _, _ => s
  end.

(** An index argument of [slice]: a negative one counts from the end, and
    the result is clamped to the string. *)
Definition relativeIndex (len i : Z) : Z :=
  if i <? 0 then Z.max (len + i) 0 else Z.min i len.

(** [s.slice(from, to)] *)
Definition slice (s : string) (from to : Z) : string :=
  let a := relativeIndex (length s) from in
  let b := relativeIndex (length s) to in
  take (Z.to_nat (Z.max (b - a) 0)) (drop (Z.to_nat a) s).

(** [s.slice(from)] *)
Definition sliceFrom (s : string) (from : Z) : string :=
  slice s from (length s).

(** [s[i]]: the one-character string at an index of the string, and
    [undefined] at any other number. *)
Definition charAt (s : string) (i : Z) : option string :=
  if (0 <=? i) && (i <? length s) then Some (take 1 (drop (Z.to_nat i) s))
  else None.

(** [xs[i]] on an array. *)
Definition index {A : Type} (xs : list A) (i : Z) : option A :=
  if 0 <=? i then nth_error xs (Z.to_nat i) else None.

(** [a % b] on integers: the remainder has the sign of [a]. *)
Definition rem (a b : Z) : Z := Z.rem a b.

End JsString.

(** *** [src/dist/ui/interactive-input.js] *)

Module InteractiveInput.

Import JsString.
Local Open Scope Z_scope.

Inductive Mode : Type := OptionMode | CustomMode.

Definition Mode_eqb (a b : Mode) : bool :=
  match a, b with
  | OptionMode, OptionMode | CustomMode, CustomMode => true
  | _, _ => false
  end.

(** The props; [predefinedOptions] and [questionId] may be [undefined]. *)
Record Props : Type := {
  question : string;
  questionId : option string;
  predefinedOptions : option (list string)
}.

(** The four [useState] cells. *)
Record State : Type := {
  mode : Mode;
  selectedIndex : Z;
  customValue : string;
  cursorPosition : Z
}.

Definition initial : State :=
  {| mode := OptionMode; selectedIndex := 0;
     customValue := ""; cursorPosition := 0 |}.

(** The fields of Ink's [key] that the handler reads. *)
Record Key : Type := {
  upArrow : bool;
  downArrow : bool;
  leftArrow : bool;
  rightArrow : bool;
  return_ : bool;
  backspace : bool;
  delete : bool;
  ctrl : bool;
  meta : bool
}.

(** What one run of an effect or of the handler asks for: a setter is
    [None] when it is not called and an updater otherwise, and [onSubmit]
    holds the arguments of the call to the [onSubmit] prop. *)
Record Update : Type := {
  setMode : option Mode;
  setSelectedIndex : option (Z -> Z);
  setCustomValue : option (string -> string);
  setCursorPosition : option (Z -> Z);
  onSubmit : option (string * option string)
}.

Definition nothing : Update :=
  {| setMode := None; setSelectedIndex := None; setCustomValue := None;
     setCursorPosition := None; onSubmit := None |}.

Definition apply {A : Type} (f : option (A -> A)) (a : A) : A :=
  match f with
  | Some g => g a
  | None => a
  end.

(** The state of the next render. *)
Definition commit (u : Update) (s : State) : State :=
  {| mode := match setMode u with Some m => m | None => mode s end;
     selectedIndex := apply (setSelectedIndex u) (selectedIndex s);
     customValue := apply (setCustomValue u) (customValue s);
     cursorPosition := apply (setCursorPosition u) (cursorPosition s) |}.

(** [predefinedOptions.length], where there are options. *)
Definition optionsLength (p : Props) : Z :=
  match predefinedOptions p with
  | Some opts => Z.of_nat (List.length opts)
  | None => 0
  end.

(** [predefinedOptions?.length] as a condition. *)
Definition hasOptions (p : Props) : bool :=
  match predefinedOptions p with
  | Some (_ :: _) => true
  | _ => false
  end.

(** [(predefinedOptions && predefinedOptions[i]) || ''] *)
Definition optionOrEmpty (p : Props) (i : Z) : string :=
  match predefinedOptions p with
  | Some opts =>
      match index opts i with
      | Some opt => if Js.truthy opt then opt else ""
      | None => ""
      end
  | None => ""
  end.

(** The effect on [predefinedOptions]. *)
Definition useEffect (p : Props) : Update :=
  match predefinedOptions p with
  | None | Some [] =>
      {| setMode := Some CustomMode; setSelectedIndex := None;
         setCustomValue := None; setCursorPosition := None;
         onSubmit := None |}
  | Some _ =>
      {| setMode := Some OptionMode; setSelectedIndex := Some (fun _ => 0);
         setCustomValue := None; setCursorPosition := None;
         onSubmit := None |}
  end.

(** The handler given to [useInput]. *)
Definition useInput (p : Props) (view : State) (input : string) (key : Key)
  : Update :=
  if (upArrow key || downArrow key) && hasOptions p then
    {| setSelectedIndex := Some (fun prev =>
         if upArrow key then
           if 0 <? prev then prev - 1 else optionsLength p - 1
         else
           if prev <? optionsLength p - 1 then prev + 1 else 0);
       setMode := Some OptionMode;
       setCustomValue := None; setCursorPosition := None;
       onSubmit := None |}
  else if leftArrow key then
    if Mode_eqb (mode view) CustomMode then
      {| setCursorPosition := Some (fun prev => Z.max 0 (prev - 1));
         setMode := None; setSelectedIndex := None; setCustomValue := None;
         onSubmit := None |}
    else
      {| setMode := Some CustomMode;
         setCursorPosition := Some (fun _ => 0);
         setSelectedIndex := None; setCustomValue := None;
         onSubmit := None |}
  else if rightArrow key then
    if Mode_eqb (mode view) CustomMode then
      {| setCursorPosition := Some (fun prev =>
           Z.min (length (customValue view)) (prev + 1));
         setMode := None; setSelectedIndex := None; setCustomValue := None;
         onSubmit := None |}
    else
      {| setMode := Some CustomMode;
         setCursorPosition := Some (fun _ => length (customValue view));
         setSelectedIndex := None; setCustomValue := None;
         onSubmit := None |}
  else if return_ key then
    let value :=
      if Mode_eqb (mode view) CustomMode then customValue view
      else optionOrEmpty p (selectedIndex view) in
    {| onSubmit := Some (value, questionId p);
       setMode := None; setSelectedIndex := None; setCustomValue := None;
       setCursorPosition := None |}
  else if backspace key || delete key then
    if Mode_eqb (mode view) CustomMode then
      if delete key && (cursorPosition view <? length (customValue view)) then
        {| setCustomValue := Some (fun prev =>
             slice prev 0 (cursorPosition view)
             ++ sliceFrom prev (cursorPosition view + 1));
           setMode := None; setSelectedIndex := None;
           setCursorPosition := None; onSubmit := None |}
      else if backspace key && (0 <? cursorPosition view) then
        {| setCustomValue := Some (fun prev =>
             slice prev 0 (cursorPosition view - 1)
             ++ sliceFrom prev (cursorPosition view));
           setCursorPosition := Some (fun prev => prev - 1);
           setMode := None; setSelectedIndex := None; onSubmit := None |}
      else nothing
    else nothing
  else if Js.truthy input && (length input =? 1)
          && negb (ctrl key) && negb (meta key) then
    {| setMode := Some CustomMode;
       setCustomValue := Some (fun prev =>
         slice prev 0 (cursorPosition view) ++ input
         ++ sliceFrom prev (cursorPosition view));
       setCursorPosition := Some (fun prev => prev + 1);
       setSelectedIndex := None; onSubmit := None |}
  else nothing.

(** The component once mounted: the initial render, then the effect. *)
Definition mounted (p : Props) : State := commit (useEffect p) initial.

(** One key event taken by the handler of the state [s] itself, that is
    when the component has rendered since the last event; the result is
    the state of the next render. *)
Definition press (p : Props) (s : State) (input : string) (key : Key)
  : State :=
  commit (useInput p s input key) s.

(** A sequence of key events with a render after each of them, and the
    calls to [onSubmit] in order. *)
Fixpoint presses (p : Props) (keys : list (string * Key)) (s : State)
  : State * list (string * option string) :=
  match keys with
  | [] => (s, [])
  | (input, key) :: more =>
      let (s', calls) := presses p more (press p s input key) in
      (s', match onSubmit (useInput p s input key) with
           | Some call => call :: calls
           | None => calls
           end)
  end.

(** The component between two renders: [view] is the state of the last
    render, whose handler is the one subscribed; [latest] is that state
    with the setters called since, which the next render shows. *)
Record Component : Type := {
  view : State;
  latest : State
}.

(** What happens to the component: a key event, or a render together with
    the subscription of its handler. *)
Inductive Event : Type :=
  | KeyEvent (input : string) (key : Key)
  | Render.

(** One event.  The handler of [view] takes a key event: what it reads of
    the state is the [view], and its updaters apply to [latest]. *)
Definition deliver1 (p : Props) (c : Component) (e : Event)
  : Component * option (string * option string) :=
  match e with
  | KeyEvent input key =>
      ({| view := view c;
          latest := commit (useInput p (view c) input key) (latest c) |},
       onSubmit (useInput p (view c) input key))
  | Render => ({| view := latest c; latest := latest c |}, None)
  end.

(** A sequence of events, with the calls to [onSubmit] in order. *)
Fixpoint deliver (p : Props) (es : list Event) (c : Component)
  : Component * list (string * option string) :=
  match es with
  | [] => (c, [])
  | e :: more =>
      let (c', calls) := deliver p more (fst (deliver1 p c e)) in
      (c', match snd (deliver1 p c e) with
           | Some call => call :: calls
           | None => calls
           end)
  end.

(** The component right after a render of the state [s]. *)
Definition rendered (s : State) : Component := {| view := s; latest := s |}.

(** The keys, with a render after each of them. *)
Definition oneByOne (keys : list (string * Key)) : list Event :=
  flat_map (fun k => [KeyEvent (fst k) (snd k); Render]) keys.

(** The keys, with no render between them: one handler takes them all. *)
Definition together (keys : list (string * Key)) : list Event :=
  map (fun k => KeyEvent (fst k) (snd k)) keys.

(** The characters of a text, last first. *)
Definition reversed (text : string) : string :=
  string_of_list_ascii (List.rev (list_ascii_of_string text)).

(** The text the input line shows: the part before the cursor, the
    highlighted character under it, and the part after it. *)
Definition charUnderCursor (s : State) : option string :=
  match charAt (customValue s) (cursorPosition s) with
  | Some c => if Js.truthy c then Some c else None
  | None => None
  end.

Definition beforeCursor (s : State) : string :=
  slice (customValue s) 0 (cursorPosition s).

Definition afterCursor (s : State) : string :=
  sliceFrom (customValue s) (cursorPosition s + 1).

(** The keys of a keyboard, as Ink reports them. *)
Definition plain : Key :=
  {| upArrow := false; downArrow := false; leftArrow := false;
     rightArrow := false; return_ := false; backspace := false;
     delete := false; ctrl := false; meta := false |}.

Definition Up : string * Key :=
  ("", {| upArrow := true; downArrow := false; leftArrow := false;
          rightArrow := false; return_ := false; backspace := false;
          delete := false; ctrl := false; meta := false |}).

Definition Down : string * Key :=
  ("", {| upArrow := false; downArrow := true; leftArrow := false;
          rightArrow := false; return_ := false; backspace := false;
          delete := false; ctrl := false; meta := false |}).

Definition Left : string * Key :=
  ("", {| upArrow := false; downArrow := false; leftArrow := true;
          rightArrow := false; return_ := false; backspace := false;
          delete := false; ctrl := false; meta := false |}).

Definition Right : string * Key :=
  ("", {| upArrow := false; downArrow := false; leftArrow := false;
          rightArrow := true; return_ := false; backspace := false;
          delete := false; ctrl := false; meta := false |}).

Definition Enter : string * Key :=
  (String "013"%char "",
   {| upArrow := false; downArrow := false; leftArrow := false;
      rightArrow := false; return_ := true; backspace := false;
      delete := false; ctrl := false; meta := false |}).

Definition Backspace : string * Key :=
  ("", {| upArrow := false; downArrow := false; leftArrow := false;
          rightArrow := false; return_ := false; backspace := true;
          delete := false; ctrl := false; meta := false |}).

Definition Delete : string * Key :=
  ("", {| upArrow := false; downArrow := false; leftArrow := false;
          rightArrow := false; return_ := false; backspace := false;
          delete := true; ctrl := false; meta := false |}).

Definition Char (c : ascii) : string * Key := (String c "", plain).

(** Typing a text, one key for each of its characters. *)
Fixpoint typed (text : string) : list (string * Key) :=
  match text with
  | EmptyString => []
  | String c rest => Char c :: typed rest
  end.

(** The cursor is at a position of the text, or right after it. *)
Definition CursorInside (s : State) : Prop :=
  0 <= cursorPosition s <= length (customValue s).

(** The selection is one of the options when there are any, and without
    options the component is in custom mode. *)
Definition SelectionInside (p : Props) (s : State) : Prop :=
  if hasOptions p then 0 <= selectedIndex s < optionsLength p
  else mode s = CustomMode.

End InteractiveInput.

(** *** [src/dist/components/InteractiveInput.js] *)

Module TextInputPrompt.

Import JsString.
Local Open Scope Z_scope.

Inductive Mode : Type := OptionMode | InputMode.

Definition Mode_eqb (a b : Mode) : bool :=
  match a, b with
  | OptionMode, OptionMode | InputMode, InputMode => true
  | _, _ => false
  end.

(** The props; [predefinedOptions] is [[]] when the caller gives none. *)
Record Props : Type := {
  question : string;
  questionId : option string;
  predefinedOptions : list string
}.

Record State : Type := {
  mode : Mode;
  selectedIndex : Z;
  inputValue : string
}.

Definition optionsLength (p : Props) : Z :=
  Z.of_nat (List.length (predefinedOptions p)).

Definition initial (p : Props) : State :=
  {| mode := if 0 <? optionsLength p then OptionMode else InputMode;
     selectedIndex := 0;
     inputValue := "" |}.

Record Key : Type := {
  upArrow : bool;
  downArrow : bool;
  leftArrow : bool;
  rightArrow : bool;
  return_ : bool;
  ctrl : bool;
  meta : bool;
  escape : bool;
  tab : bool;
  shift : bool
}.

(** The setters called and the arguments of the call to [onSubmit]; the
    value is [None] where the source passes [undefined]. *)
Record Update : Type := {
  setMode : option Mode;
  setSelectedIndex : option (Z -> Z);
  setInputValue : option (string -> string);
  onSubmit : option (option string * option string)
}.

Definition nothing : Update :=
  {| setMode := None; setSelectedIndex := None; setInputValue := None;
     onSubmit := None |}.

Definition apply {A : Type} (f : option (A -> A)) (a : A) : A :=
  match f with
  | Some g => g a
  | None => a
  end.

Definition commit (u : Update) (s : State) : State :=
  {| mode := match setMode u with Some m => m | None => mode s end;
     selectedIndex := apply (setSelectedIndex u) (selectedIndex s);
     inputValue := apply (setInputValue u) (inputValue s) |}.

(** The handler given to [useInput]. *)
Definition useInput (p : Props) (view : State) (input : string) (key : Key)
  : Update :=
  if (0 <? optionsLength p) && upArrow key then
    {| setMode := Some OptionMode;
       setSelectedIndex := Some (fun prev =>
         rem (prev - 1 + optionsLength p) (optionsLength p));
       setInputValue := None; onSubmit := None |}
  else if (0 <? optionsLength p) && downArrow key then
    {| setMode := Some OptionMode;
       setSelectedIndex := Some (fun prev =>
         rem (prev + 1) (optionsLength p));
       setInputValue := None; onSubmit := None |}
  else if return_ key then
    if Mode_eqb (mode view) OptionMode && (0 <? optionsLength p) then
      {| onSubmit :=
           Some (questionId p,
                 index (predefinedOptions p) (selectedIndex view));
         setMode := None; setSelectedIndex := None; setInputValue := None |}
    else
      {| onSubmit := Some (questionId p, Some (inputValue view));
         setMode := None; setSelectedIndex := None; setInputValue := None |}
  else if negb (ctrl key) && negb (meta key) && negb (escape key)
          && negb (tab key) && negb (shift key) && negb (leftArrow key)
          && negb (rightArrow key) && Js.truthy input then
    {| setMode := Some InputMode;
       setInputValue :=
         if Mode_eqb (mode view) OptionMode then Some (fun _ => input)
         else None;
       setSelectedIndex := None; onSubmit := None |}
  else nothing.

(** The [onChange] callback given to the text field. *)
Definition handleInputChange (p : Props) (view : State) (value : string)
  : Update :=
  if negb (String.eqb value (inputValue view)) then
    {| setInputValue := Some (fun _ => value);
       setMode :=
         if (0 <? length value) && Mode_eqb (mode view) OptionMode
         then Some InputMode else None;
       setSelectedIndex := None; onSubmit := None |}
  else nothing.

(** The [onSubmit] callback given to the text field. *)
Definition handleSubmit (p : Props) (view : State) (value : string)
  : Update :=
  if Mode_eqb (mode view) OptionMode && (0 <? optionsLength p) then
    {| onSubmit :=
         Some (questionId p,
               index (predefinedOptions p) (selectedIndex view));
       setMode := None; setSelectedIndex := None; setInputValue := None |}
  else
    {| onSubmit := Some (questionId p, Some value);
       setMode := None; setSelectedIndex := None; setInputValue := None |}.

(** What reaches the component: a key, or a callback of the text field. *)
Inductive Event : Type :=
  | KeyPress (input : string) (key : Key)
  | Change (value : string)
  | Submit (value : string).

Definition handle (p : Props) (view : State) (e : Event) : Update :=
  match e with
  | KeyPress input key => useInput p view input key
  | Change value => handleInputChange p view value
  | Submit value => handleSubmit p view value
  end.

Fixpoint events (p : Props) (es : list Event) (s : State)
  : State * list (option string * option string) :=
  match es with
  | [] => (s, [])
  | e :: more =>
      let (s', calls) := events p more (commit (handle p s e) s) in
      (s', match onSubmit (handle p s e) with
           | Some call => call :: calls
           | None => calls
           end)
  end.

(** In option mode there are options, and the selection is one of them. *)
Definition SelectionListed (p : Props) (s : State) : Prop :=
  (mode s = OptionMode -> 0 < optionsLength p)
  /\ (0 < optionsLength p -> 0 <= selectedIndex s < optionsLength p).

End TextInputPrompt.

(** * Properties *)

Import Resolver Coordinator.

(** Node's [basename] of a path that ends in a slash-free, non-empty name is
    that name, whatever the directory before it. *)
Lemma lastComponent_name (name : list ascii) :
  forall rest matched acc,
    name <> [] ->
    Forall (fun c => Ascii.eqb c Js.slash = false) name ->
    Js.lastComponent (List.rev name ++ rest)%list matched acc
    = Js.lastComponent rest false (string_of_list_ascii name ++ acc).
Proof.
  induction name as [|c name IH]; intros rest matched acc Hne Hall;
    [congruence|].
  inversion Hall as [|? ? Hc Hrest]; subst.
  cbn [List.rev]. rewrite <- app_assoc. cbn [app].
  destruct name as [|d name'].
  - cbn. rewrite Hc. reflexivity.
  - rewrite IH by (auto; discriminate).
    cbn [Js.lastComponent]. rewrite Hc. reflexivity.
Qed.

Lemma list_ascii_of_string_app (a b : string) :
  list_ascii_of_string (a ++ b)
  = (list_ascii_of_string a ++ list_ascii_of_string b)%list.
Proof.
  induction a as [|c a IH]; cbn; [reflexivity | now rewrite IH].
Qed.

Lemma basename_of_path (dir name : string) :
  name <> "" ->
  Forall (fun c => Ascii.eqb c Js.slash = false) (list_ascii_of_string name) ->
  Js.basename (dir ++ "/" ++ name) = name.
Proof.
  intros Hne Hall. unfold Js.basename.
  rewrite !list_ascii_of_string_app, !rev_app_distr, <- app_assoc.
  rewrite lastComponent_name; auto.
  - cbn. rewrite string_of_list_ascii_of_string.
    clear. induction name as [|c name IH]; cbn; congruence.
  - destruct name; [congruence | discriminate].
Qed.


(** ** The resolver *)

Section ResolverFacts.

Variable basename : string -> string.
Variable toLowerCase : string -> string.
Variable execSync : string -> Stdio -> ExecResult.

Lemma probe_find (ts : list Terminal) :
  fst (probe execSync ts) = option_map launchSpecOf (find (available execSync) ts).
Proof.
  induction ts as [|t ts IH]; [reflexivity|].
  cbn [probe find execCommand execStdio]. unfold available at 1.
  destruct (execSync ("which " ++ cmd t) StdioIgnore); [reflexivity|].
  destruct (probe execSync ts) as [r calls]; exact IH.
Qed.

Lemma probe_calls_ignore (ts : list Terminal) :
  Forall (fun c => execStdio c = StdioIgnore) (snd (probe execSync ts)).
Proof.
  induction ts as [|t ts IH]; [constructor|].
  cbn [probe execCommand execStdio].
  destruct (execSync ("which " ++ cmd t) StdioIgnore).
  - repeat constructor.
  - destruct (probe execSync ts) as [r calls].
    constructor; [reflexivity | exact IH].
Qed.

Lemma unconfigured_fallback platform terminalEnv u sid tmp :
  configured terminalEnv = false ->
  getTerminalCommandIO basename toLowerCase execSync platform terminalEnv u sid tmp
  = getTerminalCommandIO basename toLowerCase execSync platform None u sid tmp.
Proof.
  intros H. destruct terminalEnv as [env|]; [|reflexivity].
  simpl in H. unfold getTerminalCommandIO. rewrite H. reflexivity.
Qed.

(** The branch taken by a configured terminal of the iTerm2 family. *)
Lemma iterm_branch platform env u sid tmp :
  Js.truthy env = true ->
  toLowerCase (basename env) = "iterm2" \/ toLowerCase (basename env) = "iterm" ->
  getTerminalCommand basename toLowerCase execSync platform (Some env) u sid tmp
  = if String.eqb platform "darwin" then
      Some {| command :=
                "osascript -e 'tell application " ++ Js.dquote
                  ++ "iTerm2" ++ Js.dquote
                  ++ " to create window with default profile command "
                  ++ Js.dquote
                  ++ escapeForAppleScript (nodeCommandOf u sid tmp)
                  ++ Js.dquote ++ "'";
              args := []; shell := true |}
    else
      Some {| command := env; args := genericArgs (nodeCommandOf u sid tmp);
              shell := false |}.
Proof.
  intros Henv Hname.
  unfold getTerminalCommand, getTerminalCommandIO. rewrite Henv.
  destruct Hname as [-> | ->]; cbn [String.eqb Ascii.eqb Bool.eqb orb];
    destruct (String.eqb platform "darwin"); reflexivity.
Qed.

End ResolverFacts.

(** C7 (as amended): on every platform other than macOS, a configured
    executable whose lower-cased base name is iterm2 or iterm gets the generic
    launch specification: the configured executable itself with the arguments
    -e, sh, -c and the command, and no shell.  The resolver does not answer
    that no terminal is available. *)
Theorem C7_iterm_off_macos_is_generic
    (basename toLowerCase : string -> string)
    (execSync : string -> Stdio -> ExecResult)
    (platform env u sid tmp : string) :
  platform <> "darwin" ->
  configured (Some env) = true ->
  toLowerCase (basename env) = "iterm2" \/ toLowerCase (basename env) = "iterm" ->
  getTerminalCommand basename toLowerCase execSync platform (Some env) u sid tmp
  = Some {| command := env;
            args := ["-e"; "sh"; "-c"; nodeCommandOf u sid tmp];
            shell := false |}.
Proof.
  intros Hp Henv Hname.
  rewrite iterm_branch by assumption.
  destruct (String.eqb_spec platform "darwin"); [contradiction | reflexivity].
Qed.

Lemma C7_iterm_off_macos_is_generic_witness :
  getTerminalCommand Js.basename Js.toLowerCase nobody "linux"
    (Some "/opt/iTerm2") "ui.js" "a1b2" "/tmp"
  = Some {| command := "/opt/iTerm2";
            args := ["-e"; "sh"; "-c"; nodeCommandOf "ui.js" "a1b2" "/tmp"];
            shell := false |}.
Proof.
  apply (C7_iterm_off_macos_is_generic Js.basename Js.toLowerCase nobody
           "linux" "/opt/iTerm2" "ui.js" "a1b2" "/tmp").
  - discriminate.
  - reflexivity.
  - left. reflexivity.
Defined.

(** C7 as the specification states it fails: on Linux, with the preferred
    executable /usr/bin/iterm2, the resolver returns a launch specification. *)
Lemma C7_counterexample :
  "linux" <> "darwin"
  /\ configured (Some "/usr/bin/iterm2") = true
  /\ Js.toLowerCase (Js.basename "/usr/bin/iterm2") = "iterm2"
  /\ getTerminalCommand Js.basename Js.toLowerCase nobody "linux"
       (Some "/usr/bin/iterm2") "ui.js" "a1b2" "/tmp" <> None.
Proof.
  repeat split; try reflexivity; discriminate.
Qed.

(** Lower-casing leaves a slash a slash, so a name that lower-cases to
    kitty holds none. *)
Lemma lowerChar_not_slash (c x : ascii) :
  Js.lowerChar c = x -> Ascii.eqb x Js.slash = false ->
  Ascii.eqb c Js.slash = false.
Proof.
  intros Hl Hx. destruct (Ascii.eqb_spec c Js.slash) as [->|]; [|reflexivity].
  cbv in Hl. subst x. discriminate.
Qed.

Lemma toLowerCase_cons (c : ascii) (rest : string) :
  Js.toLowerCase (String c rest)
  = match rest with
    | String d (String e rest') =>
        if Js.isKelvin c d e then String "k"%char (Js.toLowerCase rest')
        else String (Js.lowerChar c) (Js.toLowerCase rest)
    | _ => String (Js.lowerChar c) (Js.toLowerCase rest)
    end.
Proof. destruct rest as [|d [|e rest']]; reflexivity. Qed.

Lemma isKelvin_not_slash (c d e : ascii) :
  Js.isKelvin c d e = true ->
  Ascii.eqb c Js.slash = false /\ Ascii.eqb d Js.slash = false
  /\ Ascii.eqb e Js.slash = false.
Proof.
  unfold Js.isKelvin. intros H.
  apply andb_prop in H. destruct H as [H He].
  apply andb_prop in H. destruct H as [Hc Hd].
  apply Nat.eqb_eq in Hc, Hd, He.
  repeat split;
    match goal with
    | |- Ascii.eqb ?x _ = false =>
        destruct (Ascii.eqb_spec x Js.slash) as [->|]; [|reflexivity];
        discriminate
    end.
Qed.

(** A name whose lower case holds no slash holds none. *)
Lemma toLowerCase_no_slash (n : nat) :
  forall name,
    (String.length name <= n)%nat ->
    Forall (fun c => Ascii.eqb c Js.slash = false)
      (list_ascii_of_string (Js.toLowerCase name)) ->
    Forall (fun c => Ascii.eqb c Js.slash = false) (list_ascii_of_string name).
Proof.
  induction n as [|n IH]; intros name Hn H.
  - destruct name; [constructor | cbn in Hn; inversion Hn].
  - destruct name as [|c rest]; [constructor|].
    cbn [String.length] in Hn. apply le_S_n in Hn.
    rewrite toLowerCase_cons in H.
    assert (Hplain :
              Forall (fun c => Ascii.eqb c Js.slash = false)
                (list_ascii_of_string
                   (String (Js.lowerChar c) (Js.toLowerCase rest))) ->
              Forall (fun c => Ascii.eqb c Js.slash = false)
                (list_ascii_of_string (String c rest))).
    { intros H0. cbn [list_ascii_of_string] in *.
      inversion H0 as [|? ? Hc Hrest]; subst. constructor.
      - apply (lowerChar_not_slash c _ eq_refl Hc).
      - apply IH; assumption. }
    destruct rest as [|d [|e rest']]; try (apply Hplain; exact H).
    destruct (Js.isKelvin c d e) eqn:Hk; [|apply Hplain; exact H].
    destruct (isKelvin_not_slash c d e Hk) as (Hc & Hd & He).
    cbn [list_ascii_of_string] in *.
    inversion H as [|? ? _ Hrest]; subst.
    repeat (constructor; [assumption|]).
    apply IH; [|exact Hrest].
    cbn [String.length] in Hn.
    apply Nat.le_trans with (m := S (S (String.length rest'))); [|exact Hn].
    apply Nat.le_trans with (m := S (String.length rest'));
      apply Nat.le_succ_diag_r.
Qed.

Lemma kitty_name_is_plain (name : string) :
  Js.toLowerCase name = "kitty" ->
  name <> ""
  /\ Forall (fun c => Ascii.eqb c Js.slash = false) (list_ascii_of_string name).
Proof.
  intros H. split.
  - intros ->. discriminate.
  - apply (toLowerCase_no_slash (String.length name) name (Nat.le_refl _)).
    rewrite H. cbn [list_ascii_of_string]. repeat constructor.
Qed.

(** The Kelvin sign is lowered to k, as JavaScript does. *)
Lemma toLowerCase_kelvin :
  Js.toLowerCase (string_of_list_ascii (Js.bytes [226; 132; 170]) ++ "ITTY")
  = "kitty".
Proof. reflexivity. Qed.

(** C8: a configured preferred executable whose base name is kitty, compared
    without regard to case, gets the kitty template: the configured path as
    the command and the arguments --title, the title, a bare --, sh, -c and
    the command; this is not the generic template with -e.  With Node's
    POSIX [basename] and the lower-casing of [Js.toLowerCase] this covers
    every path dir/name whose last component lower-cases to kitty. *)
Theorem C8_kitty_template
    (basename toLowerCase : string -> string)
    (execSync : string -> Stdio -> ExecResult)
    (platform env u sid tmp : string) :
  configured (Some env) = true ->
  toLowerCase (basename env) = "kitty" ->
  getTerminalCommand basename toLowerCase execSync platform (Some env) u sid tmp
  = Some {| command := env;
            args := ["--title"; "Interactive MCP Input"; "--"; "sh"; "-c";
                     nodeCommandOf u sid tmp];
            shell := false |}
  /\ getTerminalCommand basename toLowerCase execSync platform (Some env) u sid tmp
     <> Some {| command := env; args := genericArgs (nodeCommandOf u sid tmp);
                shell := false |}
  /\ forall dir name,
       Js.toLowerCase name = "kitty" ->
       getTerminalCommand Js.basename Js.toLowerCase execSync platform
         (Some (dir ++ "/" ++ name)) u sid tmp
       = Some {| command := dir ++ "/" ++ name;
                 args := kittyArgs (nodeCommandOf u sid tmp);
                 shell := false |}.
Proof.
  intros Henv Hname.
  assert (Hk : forall b l e, Js.truthy e = true -> l (b e) = "kitty" ->
            getTerminalCommand b l execSync platform (Some e) u sid tmp
            = Some {| command := e; args := kittyArgs (nodeCommandOf u sid tmp);
                      shell := false |}).
  { intros b l e He Hl. unfold getTerminalCommand, getTerminalCommandIO.
    rewrite He, Hl. reflexivity. }
  split; [|split].
  - apply Hk; assumption.
  - rewrite Hk by assumption. unfold kittyArgs, genericArgs. discriminate.
  - intros dir name Hl. destruct (kitty_name_is_plain name Hl) as [Hne Hall].
    apply Hk.
    + destruct dir; reflexivity.
    + rewrite basename_of_path by assumption. exact Hl.
Qed.

Lemma C8_kitty_template_witness :
  getTerminalCommand Js.basename Js.toLowerCase nobody "linux"
    (Some "/usr/local/bin/Kitty") "ui.js" "a1b2" "/tmp"
  = Some {| command := "/usr/local/bin/Kitty";
            args := ["--title"; "Interactive MCP Input"; "--"; "sh"; "-c";
                     nodeCommandOf "ui.js" "a1b2" "/tmp"];
            shell := false |}.
Proof.
  apply (C8_kitty_template Js.basename Js.toLowerCase nobody "linux"
           "/usr/local/bin/Kitty" "ui.js" "a1b2" "/tmp");
    reflexivity.
Defined.

(** C9: on Linux, with no preferred executable configured, the candidates are
    kitty, alacritty, gnome-terminal, konsole and xterm in this order; the
    resolver returns the launch specification of the first one that [which]
    finds; every [execSync] call it makes ignores the standard streams and a
    call that throws is passed over; when [which] finds none of the five the
    result is [None]. *)
Theorem C9_linux_probes_in_order
    (basename toLowerCase : string -> string)
    (execSync : string -> Stdio -> ExecResult)
    (terminalEnv : option string) (u sid tmp : string) :
  configured terminalEnv = false ->
  map cmd (terminals (nodeCommandOf u sid tmp))
  = ["kitty"; "alacritty"; "gnome-terminal"; "konsole"; "xterm"]
  /\ getTerminalCommand basename toLowerCase execSync "linux" terminalEnv u sid tmp
     = option_map launchSpecOf
         (find (available execSync) (terminals (nodeCommandOf u sid tmp)))
  /\ Forall (fun c => execStdio c = StdioIgnore)
       (execCalls basename toLowerCase execSync "linux" terminalEnv u sid tmp)
  /\ ((forall t, In t (terminals (nodeCommandOf u sid tmp)) ->
                 available execSync t = false) ->
      getTerminalCommand basename toLowerCase execSync "linux" terminalEnv u sid tmp
      = None).
Proof.
  intros Hcfg.
  assert (Hio : getTerminalCommandIO basename toLowerCase execSync "linux"
                  terminalEnv u sid tmp
                = probe execSync (terminals (nodeCommandOf u sid tmp))).
  { rewrite unconfigured_fallback by assumption. reflexivity. }
  assert (Hget : getTerminalCommand basename toLowerCase execSync "linux"
                   terminalEnv u sid tmp
                 = option_map launchSpecOf
                     (find (available execSync)
                        (terminals (nodeCommandOf u sid tmp)))).
  { unfold getTerminalCommand. rewrite Hio. apply probe_find. }
  split; [reflexivity|]. split; [exact Hget|]. split.
  - unfold execCalls. rewrite Hio. apply probe_calls_ignore.
  - intros Hnone. rewrite Hget.
    destruct (find _ _) as [t|] eqn:Hf; [|reflexivity].
    apply find_some in Hf. destruct Hf as [Hin Hav].
    rewrite (Hnone t Hin) in Hav. discriminate.
Qed.

Lemma C9_linux_probes_in_order_witness :
  getTerminalCommand Js.basename Js.toLowerCase nobody "linux" None
    "ui.js" "a1b2" "/tmp" = None.
Proof.
  apply (C9_linux_probes_in_order Js.basename Js.toLowerCase nobody None
           "ui.js" "a1b2" "/tmp"); reflexivity.
Defined.

(** ** The coordinator: shape of a turn and invariants *)

Open Scope Z_scope.
Open Scope list_scope.

(** Setters and projections applied to a record written out. *)
Ltac unfold_setters :=
  cbv [set_clock set_phase set_ui set_watcher set_timeoutHandle
       set_heartbeatInterval set_heartbeatFileSeen set_startTime set_reads
       set_stats set_cleanups set_settled emit
       clock phase ui watcher timeoutHandle heartbeatInterval
       heartbeatFileSeen startTime reads stats cleanups settled effects] in *.

Lemma cleanupAndResolve_eq (r : string) (s : State) :
  cleanupAndResolve r s
  = {| clock := clock s; phase := phase s; ui := ui s; watcher := false;
       timeoutHandle := None; heartbeatInterval := None;
       heartbeatFileSeen := heartbeatFileSeen s; startTime := startTime s;
       reads := reads s; stats := stats s; cleanups := cleanups s ++ [r];
       settled := settled s;
       effects := effects s ++ disarmEffects s ++ unlinks |}.
Proof.
  destruct s as [c p u w t h f st rd sts cl se ef].
  cbv [cleanupAndResolve awaitCleanup cleanupResources disarmEffects unlinks].
  destruct h, w, t; unfold_setters; rewrite <- ?app_assoc; reflexivity.
Qed.

Lemma noResolve_disarm (s : State) : noResolve (disarmEffects s).
Proof.
  unfold noResolve, disarmEffects.
  destruct (heartbeatInterval s), (watcher s), (timeoutHandle s); reflexivity.
Qed.

(** The model functions down to [cleanupAndResolve], on a record written
    out. *)
Ltac unfold_turn :=
  cbv [step getCmdWindowInput handleExit handleError onRead onStat watcherOrTimeout
       catchSetupError awaitCleanup cleanupResources resolve
       set_clock set_phase set_ui set_watcher set_timeoutHandle
       set_heartbeatInterval set_heartbeatFileSeen set_startTime set_reads
       set_stats set_cleanups set_settled emit
       clock phase ui watcher timeoutHandle heartbeatInterval
       heartbeatFileSeen startTime reads stats cleanups settled effects] in *.

Ltac split_matches H :=
  repeat match type of H with
         | context [match ?x with _ => _ end] => destruct x eqn:?
         end.

Ltac shape_quiet :=
  rewrite <- ?app_assoc;
  first
    [ eapply Quiet with (es := []);
      [reflexivity | reflexivity | symmetry; apply app_nil_r | reflexivity]
    | eapply Quiet; [reflexivity | reflexivity | reflexivity | reflexivity] ].

Ltac shape_begins :=
  rewrite cleanupAndResolve_eq; unfold_setters;
  eapply Begins;
  [ reflexivity | reflexivity | reflexivity | apply noResolve_disarm
  | first [ left; reflexivity
          | right; eexists; split;
            [reflexivity | split; [eassumption | reflexivity]] ] ].

Ltac shape_catch :=
  eapply Begins with (es := []);
  [ reflexivity | reflexivity | reflexivity | reflexivity | left; reflexivity ].

Ltac shape_ends :=
  eapply Ends;
  [ reflexivity | eassumption | reflexivity | reflexivity | reflexivity ].

Lemma step_shape (cfg : Config) (now : Z) (e : Event) (s s' : State) :
  step cfg now e s = Some s' -> Shape e s s'.
Proof.
  destruct s as [c p u w t h f st rd sts cl se ef].
  intros H. destruct e; unfold_turn; split_matches H;
    try discriminate; injection H as <-;
    first [ shape_quiet | shape_begins | shape_catch | shape_ends ].
Qed.

Lemma app_cons_not_nil_sym {A} (l : list A) (x : A) : l ++ [x] <> [].
Proof. destruct l; discriminate. Qed.

Lemma run_invariant (cfg : Config) (P : State -> Prop) :
  (forall now e s s', P s -> step cfg now e s = Some s' -> P s') ->
  forall tr s s', P s -> run cfg tr s = Some s' -> P s'.
Proof.
  intros Hstep tr. induction tr as [|[now e] tr IH]; intros s s' HP Hrun.
  - cbn in Hrun. congruence.
  - cbn [run] in Hrun. destruct (step cfg now e s) as [s1|] eqn:Hs; [|discriminate].
    eapply IH; [|exact Hrun]. eapply Hstep; eassumption.
Qed.

Lemma noResolve_app (xs ys : list Effect) :
  noResolve xs -> noResolve ys -> noResolve (xs ++ ys).
Proof.
  unfold noResolve. intros Hx Hy. rewrite forallb_app, Hx, Hy. reflexivity.
Qed.

Lemma noResolve_not_in (es : list Effect) (r : string) :
  noResolve es -> ~ In (Resolve r) es.
Proof.
  unfold noResolve. intros H Hin.
  rewrite forallb_forall in H. specialize (H _ Hin). discriminate.
Qed.

Lemma split_before_tail (l es pre post : list Effect) (r : string) :
  noResolve es -> l ++ es = pre ++ Resolve r :: post ->
  exists post', l = pre ++ Resolve r :: post'.
Proof.
  intros Hes. revert l. induction pre as [|a pre IH]; intros l Heq.
  - destruct l as [|x l].
    + exfalso. apply (noResolve_not_in es r Hes). cbn in Heq. rewrite Heq.
      left. reflexivity.
    + cbn in Heq. injection Heq as -> _. eexists. reflexivity.
  - destruct l as [|x l].
    + exfalso. apply (noResolve_not_in es r Hes). cbn in Heq. rewrite Heq.
      right. apply in_or_app. right. left. reflexivity.
    + cbn in Heq. injection Heq as -> Heq. destruct (IH l Heq) as [post' ->].
      eexists. reflexivity.
Qed.

Lemma unlinked_app_l (es more : list Effect) :
  unlinked es -> unlinked (es ++ more).
Proof. intros H x Hx. apply in_or_app. left. apply H. exact Hx. Qed.

Lemma unlinked_tail (es more : list Effect) : unlinked (es ++ more ++ unlinks).
Proof. intros x Hx. apply in_or_app. right. apply in_or_app. right. exact Hx. Qed.

Lemma cleaned_app (l es : list Effect) :
  noResolve es -> cleanedBeforeResolve l -> cleanedBeforeResolve (l ++ es).
Proof.
  intros Hes Hl pre r post Heq.
  destruct (split_before_tail _ _ _ _ _ Hes Heq) as [post' ->].
  eapply Hl. reflexivity.
Qed.

Lemma cleaned_resolve (l : list Effect) (r : string) :
  unlinked l -> cleanedBeforeResolve l -> cleanedBeforeResolve (l ++ [Resolve r]).
Proof.
  intros Hu Hl pre r' post Heq.
  destruct post as [|x post] using rev_ind.
  - apply app_inj_tail in Heq. destruct Heq as [<- _]. exact Hu.
  - clear IHpost.
    change (pre ++ Resolve r' :: post ++ [x])
      with (pre ++ (Resolve r' :: post) ++ [x]) in Heq.
    rewrite app_assoc in Heq. apply app_inj_tail in Heq. destruct Heq as [-> _].
    eapply Hl. reflexivity.
Qed.

Lemma nth_error_nonempty {A} (l : list A) k x : nth_error l k = Some x -> l <> [].
Proof. destruct l; [destruct k; discriminate | discriminate]. Qed.

Lemma removeNth_incl {A} (k : nat) (l : list A) : incl (removeNth k l) l.
Proof.
  revert k. induction l as [|x l IH]; intros k; [destruct k; apply incl_refl|].
  destruct k; cbn.
  - apply incl_tl, incl_refl.
  - apply incl_cons; [left; reflexivity | apply incl_tl, IH].
Qed.

Lemma step_clean (cfg : Config) now e s s' :
  Clean s -> step cfg now e s = Some s' -> Clean s'.
Proof.
  intros (Hc & Hs & Hb) Hstep.
  destruct (step_shape _ _ _ _ _ Hstep)
    as [es Hse Hcl Hef Hno | r es Hse Hcl Hef Hno _ | k r _ Hnth Hcl Hef Hse];
    unfold Clean; rewrite Hef.
  - rewrite Hse, Hcl. repeat split.
    + intros H. apply unlinked_app_l. auto.
    + intros H. apply unlinked_app_l. auto.
    + apply cleaned_app; assumption.
  - repeat split.
    + intros _. apply unlinked_tail.
    + intros _. apply unlinked_tail.
    + apply cleaned_app; [|assumption].
      apply noResolve_app; [assumption | reflexivity].
  - assert (Hu : unlinked (effects s))
      by (apply Hc; eapply nth_error_nonempty; eassumption).
    repeat split.
    + intros _. apply unlinked_app_l. exact Hu.
    + intros _. apply unlinked_app_l. exact Hu.
    + apply cleaned_resolve; assumption.
Qed.

Lemma initial_clean : Clean initial.
Proof.
  repeat split; cbn; try congruence.
  intros pre r post H. destruct pre; discriminate.
Qed.

Lemma step_live (cfg : Config) now e s s' :
  Live s -> step cfg now e s = Some s' -> Live s'.
Proof.
  destruct s as [c p u w t h f st rd sts cl se ef].
  intros HL H. unfold Live in *.
  destruct e; unfold_turn; split_matches H;
    try discriminate; injection H as <-;
    rewrite ?cleanupAndResolve_eq; unfold_setters;
    intros Hset; try discriminate;
    try (specialize (HL Hset)); try exact HL; try exact I;
    try (destruct p; try exact I);
    try solve [ right; apply app_cons_not_nil_sym
              | apply app_cons_not_nil_sym
              | left; discriminate
              | exact HL ].
Qed.

Lemma removeNth_Forall {A} (Q : A -> Prop) k (l : list A) :
  Forall Q l -> Forall Q (removeNth k l).
Proof.
  intros H. rewrite Forall_forall in *. intros x Hx.
  apply H. eapply removeNth_incl. exact Hx.
Qed.

Lemma run_answers (cfg : Config) (Q : string -> Prop) :
  forall tr s s',
    Q "" ->
    (forall t data, In (t, ReadDone (ReadOk data)) tr ->
                    Js.truthy data = true -> Q (Js.trim data)) ->
    Forall Q (cleanups s) -> (forall r, settled s = Some r -> Q r) ->
    run cfg tr s = Some s' ->
    Forall Q (cleanups s') /\ (forall r, settled s' = Some r -> Q r).
Proof.
  induction tr as [|[now e] tr IH]; intros s s' Q0 Qtr Hcl Hse Hrun.
  - cbn in Hrun. injection Hrun as <-. split; assumption.
  - cbn [run] in Hrun.
    destruct (step cfg now e s) as [s1|] eqn:Hs; [|discriminate].
    apply (IH s1 s'); auto.
    + intros t data Hin Ht. apply (Qtr t data); [right; exact Hin | exact Ht].
    + destruct (step_shape _ _ _ _ _ Hs)
        as [es _ Hc _ _ | r es _ Hc _ _ Hr | k r _ Hnth Hc _ _]; rewrite Hc.
      * exact Hcl.
      * apply Forall_app. split; [exact Hcl|]. constructor; [|constructor].
        destruct Hr as [-> | (data & -> & Ht & ->)]; [exact Q0|].
        apply (Qtr now data); [left; reflexivity | exact Ht].
      * apply removeNth_Forall. exact Hcl.
    + intros r0 Hr0.
      destruct (step_shape _ _ _ _ _ Hs)
        as [es Hse' _ _ _ | r es Hse' _ _ _ _ | k r _ Hnth _ _ Hse'];
        rewrite Hse' in Hr0; auto.
      destruct (settled s) as [x|] eqn:Hx.
      * apply Hse. congruence.
      * injection Hr0 as <-. rewrite Forall_forall in Hcl. apply Hcl.
        eapply nth_error_In. exact Hnth.
Qed.

Lemma nth_error_last {A} (l : list A) (x : A) :
  nth_error (l ++ [x]) (length l) = Some x.
Proof. induction l as [|y l IH]; [reflexivity | exact IH]. Qed.

(** Unrolls a run over a written-out list of events; the time tests are
    rewritten with the facts at hand. *)
Ltac run_turns :=
  cbv [run]; unfold_turn; cbn [nth_error app String.eqb Ascii.eqb Bool.eqb];
  repeat (first [ rewrite Z.leb_refl
                | match goal with
                  | H : (_ <=? _) = true |- _ => rewrite H
                  | H : Js.truthy _ = true |- _ => rewrite H
                  end ];
          unfold_turn; cbn [nth_error app String.eqb Ascii.eqb Bool.eqb]).

(** From every unsettled state some continuation of the run settles the
    promise: a pending cleanup completes, or the timeout fires, or a setup
    step fails. *)
Lemma live_progress (cfg : Config) (s : State) :
  Live s -> settled s = None ->
  exists tr s', run cfg tr s = Some s' /\ settled s' <> None.
Proof.
  destruct s as [c p u w t h f st rd sts cl se ef]. unfold Live.
  cbn [settled phase timeoutHandle cleanups]. intros HL ->.
  specialize (HL eq_refl).
  destruct cl as [|r rest].
  2: { exists [(c, CleanupDone 0)]. eexists. run_turns.
       split; [reflexivity | discriminate]. }
  destruct p.
  - exists [(c, Call); (c, OptionsWritten false false); (c, CleanupDone 0)].
    eexists. run_turns. split; [reflexivity | discriminate].
  - exists [(c, OptionsWritten false false); (c, CleanupDone 0)].
    eexists. run_turns. split; [reflexivity | discriminate].
  - exists [(c, ResponseInitialised false); (c, CleanupDone 0)].
    eexists. run_turns. split; [reflexivity | discriminate].
  - assert (H1 : (c <=? Z.max c due) = true) by (apply Z.leb_le; lia).
    assert (H2 : (due <=? Z.max c due) = true) by (apply Z.leb_le; lia).
    exists [(Z.max c due, DelayElapsed false); (Z.max c due, CleanupDone 0)].
    eexists. run_turns. split; [reflexivity | discriminate].
  - destruct HL as [HL | HL]; [|congruence].
    destruct t as [due|]; [|congruence].
    assert (H1 : (c <=? Z.max c due) = true) by (apply Z.leb_le; lia).
    assert (H2 : (due <=? Z.max c due) = true) by (apply Z.leb_le; lia).
    exists [(Z.max c due, TimeoutFires);
            (Z.max c due, CleanupDone (length (@nil string)))].
    eexists. run_turns. rewrite cleanupAndResolve_eq. run_turns.
    split; [reflexivity | discriminate].
  - congruence.
Qed.

Lemma initial_live : Live initial.
Proof. intros _. exact I. Qed.
Lemma reachable_clean (cfg : Config) tr s :
  run cfg tr initial = Some s -> Clean s.
Proof.
  apply (run_invariant cfg Clean (step_clean cfg)). exact initial_clean.
Qed.

Lemma reachable_live (cfg : Config) tr s :
  run cfg tr initial = Some s -> Live s.
Proof.
  apply (run_invariant cfg Live (step_live cfg)). exact initial_live.
Qed.

(** Once settled, the promise keeps its value: later calls of [resolve] do
    not change what the caller receives. *)
Lemma settled_once (cfg : Config) now e s s' r :
  step cfg now e s = Some s' -> settled s = Some r -> settled s' = Some r.
Proof.
  intros Hstep Hs.
  destruct (step_shape _ _ _ _ _ Hstep)
    as [es Hse _ _ _ | r' es Hse _ _ _ _ | k r' _ _ _ _ Hse];
    rewrite Hse, Hs; reflexivity.
Qed.

(** C2: in every run of a session, whatever events resolve it (answer,
    timeout, heartbeat loss, exit or error of the process, failure of a
    setup step), every call of [resolve] comes after an [unlink] of the
    response, heartbeat and options files, so the three deletions have been
    attempted once the promise is settled.  When the resolver found no
    terminal the session is the options write, the three deletions and
    [resolve] with the empty string: no process is spawned. *)
Theorem C2_channels_unlinked_before_return (cfg : Config)
    (tr : list (Z * Event)) (s : State) :
  run cfg tr initial = Some s ->
  cleanedBeforeResolve (effects s)
  /\ (forall r, settled s = Some r -> unlinked (effects s))
  /\ (terminalCmd cfg = None ->
      forall t spawnOk, 0 <= t ->
        exists s',
          run cfg [(t, Call); (t, OptionsWritten true spawnOk); (t, CleanupDone 0)]
            initial = Some s'
          /\ effects s'
             = [WriteFile OptionsFile; Unlink ResponseFile; Unlink HeartbeatFile;
                Unlink OptionsFile; Resolve ""]
          /\ settled s' = Some "").
Proof.
  intros Hrun. destruct (reachable_clean cfg tr s Hrun) as (_ & Hs & Hb).
  split; [exact Hb|]. split.
  - intros r Hr. apply Hs. congruence.
  - intros Hnone t spawnOk Ht. apply Z.leb_le in Ht.
    eexists. unfold initial. run_turns. rewrite Hnone. run_turns.
    split; [reflexivity|]. split; reflexivity.
Qed.

Lemma C2_channels_unlinked_before_return_witness :
  exists s, run (sampleConfig 5) raceTrace initial = Some s
            /\ cleanedBeforeResolve (effects s).
Proof.
  eexists. split; [vm_compute; reflexivity|].
  eapply (C2_channels_unlinked_before_return (sampleConfig 5) raceTrace).
  vm_compute. reflexivity.
Defined.

Lemma app_assoc4 {A} (a b c d : list A) :
  (a ++ b ++ c) ++ d = a ++ b ++ c ++ d.
Proof.
  rewrite <- (app_assoc a (b ++ c) d). f_equal. symmetry. apply app_assoc.
Qed.

(** A failure of the setup: the [catch] block runs, then its cleanup
    completes. *)
Ltac fail_catch :=
  do 2 eexists; exists [];
  split; [run_turns; repeat match goal with H : _ = _ |- _ => rewrite H end;
          run_turns; reflexivity|];
  unfold catchSetupError, awaitCleanup, cleanupResources;
  split; [run_turns; rewrite nth_error_last; reflexivity|];
  unfold resolve; unfold_setters;
  repeat split; exact (app_assoc4 _ [] unlinks _).

(** A failure met by a trigger: [cleanupAndResolve] runs, then its cleanup
    completes. *)
Ltac fail_disarm :=
  do 3 eexists;
  split; [run_turns; unfold watcherOrTimeout in *; unfold_setters;
          repeat match goal with H : _ = true |- _ => rewrite H end;
          cbn [andb orb]; reflexivity|];
  rewrite cleanupAndResolve_eq;
  split; [run_turns; rewrite nth_error_last; reflexivity|];
  unfold resolve; unfold_setters;
  split; [reflexivity|];
  split; [apply app_assoc4 | apply noResolve_disarm].

(** An [error] event that comes before the triggers are armed is ignored
    by the guard of [handleError]; the session is resolved later, here by
    the heartbeat monitor once the grace period is over. *)
Lemma early_error_resolves_through_the_monitor :
  option_map (fun s => (settled s, clock s, cleanupRuns s))
    (run (sampleConfig 60) earlyErrorTrace initial)
  = Some (Some ""%string, 8001, 1%nat)
  /\ option_map settled
       (run (sampleConfig 60) (firstn 15 earlyErrorTrace) initial)
     = Some None.
Proof. split; vm_compute; reflexivity. Qed.

(** C1, at the input that breaks it: with [timeoutSeconds = 5], the watcher
    callback has started its read when the timeout fires, and the read then
    returns the answer.  [cleanupAndResolve] runs twice: [cleanupResources]
    runs twice and [resolve] is called twice; the caller receives the empty
    string of the timeout, the first call. *)
Theorem C1_cleanup_runs_twice_in_a_race :
  option_map (fun s => (cleanupRuns s, resolveCalls s, settled s))
    (run (sampleConfig 5) raceTrace initial)
  = Some (2%nat, 2%nat, Some "")
  /\ option_map effects (run (sampleConfig 5) raceTrace initial)
     = Some [WriteFile OptionsFile; Spawn kitty; WriteFile ResponseFile;
             ClearInterval; WatcherClose; ClearTimeout;
             Unlink ResponseFile; Unlink HeartbeatFile; Unlink OptionsFile;
             Unlink ResponseFile; Unlink HeartbeatFile; Unlink OptionsFile;
             Resolve ""; Resolve "yes"].
Proof.
  split; vm_compute; reflexivity.
Qed.

(** Every call of [cleanupAndResolve] disarms first: the interval, the
    watcher and the timeout are cleared before the deletions, and all three
    are [null] afterwards. *)
Lemma disarm_before_cleanup (r : string) (s : State) :
  let s' := cleanupAndResolve r s in
  effects s' = effects s ++ disarmEffects s ++ unlinks
  /\ watcher s' = false /\ timeoutHandle s' = None
  /\ heartbeatInterval s' = None /\ settled s' = settled s.
Proof.
  cbv zeta. rewrite cleanupAndResolve_eq. repeat split.
Qed.

(** C4 (as amended): with the watcher armed, the promise unsettled and no
    cleanup pending, a change of the response file followed by a read
    resolves the session with the trimmed content exactly when the content is
    non-empty before trimming; an empty content changes nothing but the
    clock; a failed read resolves with the empty string; and the content
    of two spaces, yes, a space and a line feed is trimmed to yes, as is
    yes between a no-break space and a line separator followed by a byte
    order mark, the white space that [trim] strips outside ASCII. *)
Theorem C4_watcher_resolves_on_nonempty_content (cfg : Config) (s : State)
    (t1 t2 t3 : Z) (data : string) :
  watcher s = true -> settled s = None -> cleanups s = [] ->
  clock s <= t1 -> t1 <= t2 -> t2 <= t3 ->
  (data <> "" ->
   exists s', run cfg [(t1, WatchEvent "change"); (t2, ReadDone (ReadOk data));
                       (t3, CleanupDone 0)] s = Some s'
              /\ settled s' = Some (Js.trim data))
  /\ (data = "" ->
      run cfg [(t1, WatchEvent "change"); (t2, ReadDone (ReadOk data))] s
      = Some (set_clock t2 s))
  /\ (exists s', run cfg [(t1, WatchEvent "change"); (t2, ReadDone ReadFails);
                          (t3, CleanupDone 0)] s = Some s'
                 /\ settled s' = Some "")
  /\ Js.trim ("  yes " ++ String "010"%char EmptyString)%string = "yes"%string
  /\ Js.trim (string_of_list_ascii (Js.bytes [194; 160]%nat) ++ "yes"
              ++ string_of_list_ascii
                   (Js.bytes [226; 128; 168; 239; 187; 191]%nat))
     = "yes"%string.
Proof.
  destruct s as [c p u w t h f st rd sts cl se ef].
  cbn [watcher settled cleanups clock].
  intros -> -> -> H1 H2 H3.
  apply Z.leb_le in H1, H2, H3.
  repeat split.
  - intros Hne.
    assert (Ht : Js.truthy data = true) by (destruct data; [congruence | reflexivity]).
    eexists. run_turns. rewrite cleanupAndResolve_eq. run_turns.
    unfold_setters. split; reflexivity.
  - intros ->. run_turns. reflexivity.
  - eexists. run_turns. rewrite cleanupAndResolve_eq. run_turns.
    unfold_setters. split; reflexivity.
Qed.

Lemma C4_watcher_resolves_on_nonempty_content_witness :
  exists s', run (sampleConfig 5)
               [(600, WatchEvent "change"); (600, ReadDone (ReadOk "yes "));
                (601, CleanupDone 0)]
               armedSample = Some s'
             /\ settled s' = Some (Js.trim "yes ").
Proof.
  apply (C4_watcher_resolves_on_nonempty_content (sampleConfig 5)
           armedSample 600 600 601 "yes ");
    try reflexivity; try discriminate; cbn; lia.
Defined.

(** C4 as the specification states it fails: the content of one space is
    empty after trimming, and the session is resolved all the same, with the
    empty string. *)
Lemma C4_counterexample :
  Js.trim " " = ""%string
  /\ option_map (fun s => (settled s, resolveCalls s))
       (run (sampleConfig 5) blankAnswerTrace initial)
     = Some (Some ""%string, 1%nat).
Proof.
  split; vm_compute; reflexivity.
Qed.

(** C10: a change event on the response file whose read returns the empty
    string leaves the session as it was.  The two turns change nothing but
    the clock: the promise, the pending cleanups and the effects are
    untouched, and the watcher, the interval and the timeout keep their
    state and due times.  The same holds for the read alone, whenever it
    completes: it only leaves the reads in flight. *)
Theorem C10_empty_read_changes_nothing (cfg : Config) (s : State) (t1 t2 : Z) :
  watcher s = true -> clock s <= t1 -> t1 <= t2 ->
  (exists s',
     run cfg [(t1, WatchEvent "change"); (t2, ReadDone (ReadOk ""))] s = Some s'
     /\ s' = set_clock t2 s
     /\ settled s' = settled s /\ cleanups s' = cleanups s
     /\ effects s' = effects s
     /\ watcher s' = true
     /\ heartbeatInterval s' = heartbeatInterval s
     /\ timeoutHandle s' = timeoutHandle s
     /\ heartbeatFileSeen s' = heartbeatFileSeen s
     /\ reads s' = reads s /\ stats s' = stats s)
  /\ (forall s0 n t, reads s0 = S n -> clock s0 <= t ->
        step cfg t (ReadDone (ReadOk "")) s0 = Some (set_clock t (set_reads n s0))).
Proof.
  intros Hw H1 H2. split.
  - destruct s as [c p u w t h f st rd sts cl se ef].
    cbn [watcher clock] in *. subst w. apply Z.leb_le in H1, H2.
    eexists. split; [run_turns; reflexivity|].
    unfold_setters. repeat split.
  - intros s0 n t Hr Ht. destruct s0 as [c p u w t' h f st rd sts cl se ef].
    cbn [reads clock] in *. subst rd. apply Z.leb_le in Ht.
    run_turns. reflexivity.
Qed.

Lemma C10_empty_read_changes_nothing_witness :
  run (sampleConfig 5)
    [(600, WatchEvent "change"); (601, ReadDone (ReadOk ""))]
    armedSample
  = Some (set_clock 601 armedSample).
Proof.
  destruct (C10_empty_read_changes_nothing (sampleConfig 5)
              armedSample 600 601)
    as [(s' & Hrun & Hs' & _) _]; [reflexivity | cbn; lia | lia |].
  rewrite Hrun, Hs'. reflexivity.
Defined.

(** ** The nominal schedule *)

Lemma nominalRun_turn (cfg : Config) hb (n : nat) (s : State) :
  settled s = None ->
  nominalRun cfg hb (S n) s
  = match nominalNext cfg hb s with
    | Some s' => nominalRun cfg hb n s'
    | None => None
    end.
Proof. intros H. cbn [nominalRun]. rewrite H. reflexivity. Qed.

Lemma nominalRun_settled (cfg : Config) hb (n : nat) (s : State) (r : string) :
  settled s = Some r -> nominalRun cfg hb n s = Some s.
Proof. intros H. destruct n; cbn [nominalRun]; rewrite H; reflexivity. Qed.

(** One turn of the nominal schedule on a written-out state. *)
Ltac nominal_turn :=
  rewrite nominalRun_turn by reflexivity;
  cbv [nominalNext armedState neverCreated alwaysFresh];
  unfold_turn; cbn [nth_error app];
  repeat (first [ rewrite Z.leb_refl
                | rewrite Z.sub_diag
                | match goal with
                  | H : (_ <=? _) = _ |- _ => rewrite H
                  | H : (_ >? _) = _ |- _ => rewrite H
                  end ];
          unfold_turn; cbn [nth_error app]);
  rewrite ?cleanupAndResolve_eq; unfold_setters.

(** A poll that finds no heartbeat file, never seen, within the grace
    period: two turns later only the clock and the next poll have moved. *)
Lemma nominal_poll_waits (cfg : Config) (start clk i tm : Z) es (n : nat) :
  clk <= i -> i <= tm -> i - start <= 7000 ->
  nominalRun cfg neverCreated (S (S n)) (armedState start clk i tm false es)
  = nominalRun cfg neverCreated n (armedState start i (i + 1500) tm false es).
Proof.
  intros H1 H2 H3.
  apply Z.leb_le in H1, H2.
  assert (H4 : (i - start >? 7000) = false)
    by (rewrite Z.gtb_ltb; apply Z.ltb_ge; lia).
  do 2 nominal_turn. reflexivity.
Qed.

(** A poll that finds no heartbeat file, never seen, after the grace period:
    three turns later the session is resolved, at the time of the poll. *)
Lemma nominal_poll_resolves (cfg : Config) (start clk i tm : Z) es (n : nat) :
  clk <= i -> i <= tm -> 7000 < i - start ->
  exists s',
    nominalRun cfg neverCreated (S (S (S n))) (armedState start clk i tm false es)
    = Some s'
    /\ settled s' = Some "" /\ clock s' = i /\ startTime s' = start.
Proof.
  intros H1 H2 H3.
  apply Z.leb_le in H1, H2.
  assert (H4 : (i - start >? 7000) = true) by (apply Z.gtb_lt; lia).
  eexists. do 3 nominal_turn.
  split; [eapply nominalRun_settled; reflexivity|]. repeat split.
Qed.

(** A poll that finds the heartbeat file just written. *)
Lemma nominal_poll_fresh (cfg : Config) (start clk i tm : Z) seen es (n : nat) :
  clk <= i -> i <= tm ->
  nominalRun cfg alwaysFresh (S (S n)) (armedState start clk i tm seen es)
  = nominalRun cfg alwaysFresh n (armedState start i (i + 1500) tm true es).
Proof.
  intros H1 H2.
  apply Z.leb_le in H1, H2.
  do 2 nominal_turn. reflexivity.
Qed.

(** The timeout is due before the next poll. *)
Lemma nominal_timeout (cfg : Config) hb (start clk i tm : Z) seen es (n : nat) :
  clk <= tm -> tm < i ->
  exists s',
    nominalRun cfg hb (S (S n)) (armedState start clk i tm seen es) = Some s'
    /\ settled s' = Some "" /\ clock s' = tm.
Proof.
  intros H1 H2.
  apply Z.leb_le in H1. apply Z.leb_gt in H2.
  eexists. do 2 nominal_turn.
  split; [eapply nominalRun_settled; reflexivity|]. repeat split.
Qed.

(** With the heartbeat file never created and the timeout far enough, the
    nominal schedule resolves within one interval after the grace period. *)
Lemma nominal_never_created (cfg : Config) (start tm : Z) es :
  forall (k : nat) (clk i : Z),
    clk <= i -> i - start <= 8500 -> start + 8500 <= tm ->
    start + 8500 - i < 1500 * Z.of_nat k ->
    exists fuel s',
      nominalRun cfg neverCreated fuel (armedState start clk i tm false es)
      = Some s'
      /\ settled s' = Some ""
      /\ 7000 < clock s' - start <= 8500 /\ startTime s' = start.
Proof.
  induction k as [|k IH]; intros clk i H1 H2 H3 H4.
  - lia.
  - destruct (Z_le_gt_dec (i - start) 7000) as [Hw | Hr].
    + destruct (IH i (i + 1500)) as (fuel & s' & Hrun & Hres); try lia.
      exists (S (S fuel)), s'. rewrite nominal_poll_waits by lia.
      split; assumption.
    + destruct (nominal_poll_resolves cfg start clk i tm es O)
        as (s' & Hrun & Hs & Hc & Hst); try lia.
      exists 3%nat, s'. repeat split; try assumption; lia.
Qed.


(** With a fresh heartbeat at every poll, the nominal schedule resolves
    when the timeout is due. *)
Lemma nominal_always_fresh (cfg : Config) (start tm : Z) es :
  forall (k : nat) (clk i : Z) seen,
    clk <= i -> clk <= tm -> tm - i < 1500 * Z.of_nat k ->
    exists fuel s',
      nominalRun cfg alwaysFresh fuel (armedState start clk i tm seen es)
      = Some s'
      /\ settled s' = Some "" /\ clock s' = tm.
Proof.
  induction k as [|k IH]; intros clk i seen H1 H2 H3.
  - destruct (nominal_timeout cfg alwaysFresh start clk i tm seen es O)
      as (s' & Hrun & Hres); try lia.
    exists 2%nat, s'. split; assumption.
  - destruct (Z_le_gt_dec i tm) as [Hp | Ht].
    + destruct (IH i (i + 1500) true) as (fuel & s' & Hrun & Hres); try lia.
      exists (S (S fuel)), s'. rewrite nominal_poll_fresh by lia.
      split; assumption.
    + destruct (nominal_timeout cfg alwaysFresh start clk i tm seen es O)
        as (s' & Hrun & Hres); try lia.
      exists 2%nat, s'. split; assumption.
Qed.

(** The nominal setup: four turns arm the triggers 500 ms after the call. *)
Lemma nominal_setup (cfg : Config) hb (spec : LaunchSpec) (t0 : Z) (n : nat) :
  terminalCmd cfg = Some spec ->
  nominalRun cfg hb (S (S (S (S n)))) (set_clock t0 initial)
  = nominalRun cfg hb n
      (armedState t0 (t0 + 500) (t0 + 500 + 1500)
         (t0 + 500 + timeoutDelay cfg) false (setupEffects spec)).
Proof.
  intros Hcmd. unfold initial.
  assert (H5 : (t0 <=? t0 + 500) = true) by (apply Z.leb_le; lia).
  nominal_turn. nominal_turn. rewrite Hcmd. unfold_turn.
  nominal_turn. nominal_turn. reflexivity.
Qed.

(** A setup that succeeds, with the time of each completion: the state in
    which it leaves the session. *)
Lemma setup_run (cfg : Config) (t0 t1 t2 t3 : Z) (s0 : State) :
  run cfg [(t0, Call); (t1, OptionsWritten true true);
           (t2, ResponseInitialised true); (t3, DelayElapsed true)] initial
  = Some s0 ->
  exists spec,
    terminalCmd cfg = Some spec
    /\ t1 <= t2 /\ t2 + 500 <= t3
    /\ s0 = armedState t1 t3 (t3 + 1500) (t3 + timeoutDelay cfg) false
              (setupEffects spec).
Proof.
  intros H. cbv [run] in H. unfold initial in H. unfold_turn.
  destruct (0 <=? t0); [|discriminate]. unfold_turn.
  destruct (t0 <=? t1); [|discriminate]. unfold_turn.
  destruct (terminalCmd cfg) as [spec|]; unfold_turn.
  2: { destruct (t1 <=? t2); discriminate. }
  destruct (t1 <=? t2) eqn:H12; [|discriminate]. unfold_turn.
  destruct (t2 <=? t3); [|discriminate]. unfold_turn.
  destruct (t2 + 500 <=? t3) eqn:H23; [|discriminate].
  injection H as <-. apply Z.leb_le in H12, H23.
  exists spec. repeat split; assumption.
Qed.

Lemma timerDelay_in_range (d : Z) :
  1 <= d <= Js.TIMEOUT_MAX -> Js.timerDelay d = d.
Proof.
  intros [H1 H2]. unfold Js.timerDelay.
  replace (d <? 1) with false by (symmetry; apply Z.ltb_ge; lia).
  replace (Js.TIMEOUT_MAX <? d) with false by (symmetry; apply Z.ltb_ge; lia).
  reflexivity.
Qed.

Lemma initial_timers (cfg : Config) : TimerInv cfg initial.
Proof. repeat split; cbn; lia. Qed.

Lemma step_timers (cfg : Config) now e s s' :
  TimerInv cfg s -> step cfg now e s = Some s' -> TimerInv cfg s'.
Proof.
  destruct s as [c p u w t h f st rd sts cl se ef].
  unfold TimerInv. cbn [startTime clock phase timeoutHandle].
  intros (H1 & H2 & H3) H.
  destruct e; unfold_turn; split_matches H;
    try discriminate; injection H as <-;
    rewrite ?cleanupAndResolve_eq; unfold_setters;
    repeat match goal with
           | H : (_ <=? _) = true |- _ => apply Z.leb_le in H
           | H : _ /\ _ |- _ => destruct H
           end;
    subst; try discriminate;
    repeat match goal with
           | H : _ /\ _ |- _ => destruct H
           end; subst;
    repeat split; try assumption; try reflexivity; try exact I; try lia;
    try (destruct p; repeat split; try tauto; try reflexivity; try lia).
Qed.

Lemma reachable_timers (cfg : Config) tr s :
  run cfg tr initial = Some s -> TimerInv cfg s.
Proof.
  apply (run_invariant cfg (TimerInv cfg) (step_timers cfg)).
  apply initial_timers.
Qed.




(** C6 (as amended): the timeout is a single timer armed when the watcher
    and the interval are, after the wait of 500 ms that follows the
    initialisation of the response file, for [timeoutSeconds * 1000 + 5000]
    ms (a delay within the range of Node's timers).  With a heartbeat that
    stays fresh and file operations that complete at once, the session
    resolves with the empty string 500 ms plus that delay after the call;
    in every run the timer is due no earlier than 500 ms plus the delay
    after [startTime]; it fires only once due, and firing clears it and
    starts the cleanup that resolves with the empty string. *)
Theorem C6_timeout_counts_from_arming (cfg : Config) (spec : LaunchSpec)
    (t0 : Z) :
  terminalCmd cfg = Some spec ->
  1 <= timeoutSeconds cfg * 1000 + 5000 <= Js.TIMEOUT_MAX ->
  (exists fuel,
     nominalSession cfg alwaysFresh t0 fuel
     = Some (500 + (timeoutSeconds cfg * 1000 + 5000), ""))
  /\ (forall tr s due,
        run cfg tr initial = Some s -> timeoutHandle s = Some due ->
        startTime s + 500 + (timeoutSeconds cfg * 1000 + 5000) <= due)
  /\ (forall s now s',
        step cfg now TimeoutFires s = Some s' ->
        exists due,
          timeoutHandle s = Some due /\ due <= now
          /\ timeoutHandle s' = None /\ cleanups s' = cleanups s ++ [""]).
Proof.
  intros Hcmd Hrange.
  assert (Hd : timeoutDelay cfg = timeoutSeconds cfg * 1000 + 5000)
    by (apply timerDelay_in_range; exact Hrange).
  split; [|split].
  - destruct (nominal_always_fresh cfg t0 (t0 + 500 + timeoutDelay cfg)
                (setupEffects spec)
                (Z.to_nat (timeoutDelay cfg + 1))
                (t0 + 500) (t0 + 500 + 1500) false)
      as (fuel & s' & Hn & Hs & Hc); try lia.
    exists (S (S (S (S fuel)))). unfold nominalSession.
    rewrite (nominal_setup cfg alwaysFresh spec t0 fuel Hcmd).
    rewrite Hn, Hs, Hc. f_equal. f_equal. lia.
  - intros tr s due Hrun Hdue.
    destruct (reachable_timers cfg tr s Hrun) as (_ & _ & H3).
    rewrite Hdue in H3. lia.
  - intros s now s' H.
    destruct s as [c p u w t h f st rd sts cl se ef].
    unfold_turn. destruct (c <=? now); [|discriminate].
    destruct t as [due|]; [|discriminate].
    destruct (due <=? now) eqn:Hdue; [|discriminate].
    injection H as <-. rewrite cleanupAndResolve_eq. unfold_setters.
    exists due. apply Z.leb_le in Hdue. repeat split. exact Hdue.
Qed.

Lemma C6_timeout_counts_from_arming_witness :
  exists fuel,
    nominalSession (sampleConfig 5) alwaysFresh 0 fuel
    = Some (500 + (timeoutSeconds (sampleConfig 5) * 1000 + 5000), "").
Proof.
  eapply (C6_timeout_counts_from_arming (sampleConfig 5) kitty 0).
  - reflexivity.
  - cbn. unfold Js.TIMEOUT_MAX. lia.
Defined.

(** C6 as the specification states it fails: with [timeoutSeconds = 5], a
    fresh heartbeat and file operations that complete at once, the session
    resolves 10500 ms after the call, not 10000. *)
Lemma C6_counterexample :
  nominalSession (sampleConfig 5) alwaysFresh 0 40 = Some (10500, "")
  /\ nominalSession (sampleConfig 5) alwaysFresh 0 40
     <> Some (5 * 1000 + 5000, "").
Proof.
  split; [vm_compute; reflexivity | vm_compute; discriminate].
Qed.

(** Beyond the range of Node's timers the delay is 1 ms: with
    [timeoutSeconds = 3000000] the timeout resolves the session 501 ms after
    the call. *)
Lemma timeout_beyond_timer_range :
  nominalSession (sampleConfig 3000000) alwaysFresh 0 40 = Some (501, "").
Proof. vm_compute. reflexivity. Qed.

(** ** More on the resolver *)

Section ResolverMore.

Variable basename : string -> string.
Variable toLowerCase : string -> string.
Variable execSync : string -> Stdio -> ExecResult.

Lemma configured_is_some platform terminalEnv u sid tmp :
  configured terminalEnv = true ->
  exists env spec,
    terminalEnv = Some env
    /\ getTerminalCommandIO basename toLowerCase execSync platform terminalEnv
         u sid tmp = (Some spec, [])
    /\ ((shell spec = false /\ command spec = env
         /\ last (args spec) "" = nodeCommandOf u sid tmp)
        \/ (shell spec = true /\ args spec = [] /\ platform = "darwin")).
Proof.
  destruct terminalEnv as [env|]; [|discriminate]. cbn [configured]. intros He.
  exists env. unfold getTerminalCommandIO. rewrite He.
  destruct (String.eqb (toLowerCase (basename env)) "kitty");
    [eexists; split; [reflexivity|]; split; [reflexivity|]; left; repeat split|].
  destruct (String.eqb (toLowerCase (basename env)) "alacritty");
    [eexists; split; [reflexivity|]; split; [reflexivity|]; left; repeat split|].
  destruct (String.eqb (toLowerCase (basename env)) "wezterm");
    [eexists; split; [reflexivity|]; split; [reflexivity|]; left; repeat split|].
  destruct (String.eqb (toLowerCase (basename env)) "iterm2"
            || String.eqb (toLowerCase (basename env)) "iterm")%bool.
  - destruct (String.eqb_spec platform "darwin").
    + eexists. split; [reflexivity|]. split; [reflexivity|]. right.
      repeat split. assumption.
    + eexists. split; [reflexivity|]. split; [reflexivity|]. left.
      repeat split.
  - eexists. split; [reflexivity|]. split; [reflexivity|]. left. repeat split.
Qed.

Lemma probe_calls (ts : list Terminal) :
  snd (probe execSync ts) = map whichCall (upToFirst (available execSync) ts).
Proof.
  induction ts as [|t ts IH]; [reflexivity|].
  cbn [probe upToFirst execCommand execStdio]. unfold available at 1.
  destruct (execSync ("which " ++ cmd t) StdioIgnore); [reflexivity|].
  destruct (probe execSync ts) as [r calls]. cbn [snd map] in *.
  rewrite IH. reflexivity.
Qed.

Lemma upToFirst_length (found : Terminal -> bool) (ts : list Terminal) :
  (length (upToFirst found ts) <= length ts)%nat.
Proof.
  induction ts as [|t ts IH]; cbn; [lia|].
  destruct (found t); cbn; lia.
Qed.

Lemma find_none_iff {A} (f : A -> bool) (l : list A) :
  find f l = None <-> forall x, In x l -> f x = false.
Proof.
  split; [apply find_none|].
  intros H. destruct (find f l) as [x|] eqn:Hf; [|reflexivity].
  apply find_some in Hf. destruct Hf as [Hin Hx].
  rewrite (H x Hin) in Hx. discriminate.
Qed.

End ResolverMore.

(** The resolver answers [null] in two cases only: nothing is configured
    and the platform is neither macOS, Linux nor Windows; or nothing is
    configured, the platform is Linux and [which] finds none of the
    candidates.  A configured terminal always gets a launch specification. *)
Theorem resolver_null_iff
    (basename toLowerCase : string -> string)
    (execSync : string -> Stdio -> ExecResult)
    (platform : string) (terminalEnv : option string) (u sid tmp : string) :
  getTerminalCommand basename toLowerCase execSync platform terminalEnv u sid tmp
  = None
  <-> configured terminalEnv = false
      /\ platform <> "darwin" /\ platform <> "win32"
      /\ (platform = "linux" ->
          forall t, In t (terminals (nodeCommandOf u sid tmp)) ->
                    available execSync t = false).
Proof.
  unfold getTerminalCommand.
  destruct (configured terminalEnv) eqn:Hcfg.
  - destruct (configured_is_some basename toLowerCase execSync platform
                terminalEnv u sid tmp Hcfg) as (env & spec & _ & -> & _).
    cbn [fst]. split; [discriminate | intros [H _]; discriminate].
  - rewrite unconfigured_fallback by assumption.
    unfold getTerminalCommandIO.
    destruct (String.eqb_spec platform "darwin") as [->|Hd].
    { cbn [fst]. split; [discriminate | intros (_ & H & _); congruence]. }
    destruct (String.eqb_spec platform "linux") as [->|Hl].
    { rewrite probe_find.
      destruct (find (available execSync) (terminals (nodeCommandOf u sid tmp)))
        as [t|] eqn:Hf; cbn [option_map].
      - split; [discriminate|]. intros (_ & _ & _ & H).
        apply find_some in Hf. destruct Hf as [Hin Hav].
        rewrite (H eq_refl t Hin) in Hav. discriminate.
      - split; [|reflexivity]. intros _.
        repeat split; try discriminate.
        intros _. apply find_none_iff. exact Hf. }
    destruct (String.eqb_spec platform "win32") as [->|Hw].
    { cbn [fst]. split; [discriminate | intros (_ & _ & H & _); congruence]. }
    cbn [fst]. split; [|reflexivity]. intros _.
    repeat split; try assumption. intros ->. congruence.
Qed.

Lemma In_terminals_last (n : string) (t : Terminal) :
  In t (terminals n) -> last (targs t) "" = n.
Proof.
  unfold terminals. cbn [In].
  intros [<- | [<- | [<- | [<- | [<- | []]]]]]; reflexivity.
Qed.

(** What a launch specification looks like, whichever branch produced it:
    either it is spawned without a shell and its last argument is the node
    command, unchanged, and a configured terminal is the command; or it is
    an AppleScript command line for the shell, without arguments, and the
    platform is macOS. *)
Theorem resolver_result_shape
    (basename toLowerCase : string -> string)
    (execSync : string -> Stdio -> ExecResult)
    (platform : string) (terminalEnv : option string) (u sid tmp : string)
    (spec : LaunchSpec) :
  getTerminalCommand basename toLowerCase execSync platform terminalEnv u sid tmp
  = Some spec ->
  (shell spec = false
   /\ last (args spec) "" = nodeCommandOf u sid tmp
   /\ (configured terminalEnv = true -> terminalEnv = Some (command spec)))
  \/ (shell spec = true /\ args spec = [] /\ platform = "darwin").
Proof.
  unfold getTerminalCommand. intros H.
  destruct (configured terminalEnv) eqn:Hcfg.
  - destruct (configured_is_some basename toLowerCase execSync platform
                terminalEnv u sid tmp Hcfg)
      as (env & spec' & -> & Hio & Hshape).
    rewrite Hio in H. cbn [fst] in H. injection H as ->.
    destruct Hshape as [(Hs & Hc & Hl) | Hs]; [left | right; exact Hs].
    repeat split; try assumption. intros _. congruence.
  - rewrite unconfigured_fallback in H by assumption.
    unfold getTerminalCommandIO in H.
    destruct (String.eqb_spec platform "darwin") as [->|Hd].
    { cbn [fst] in H. injection H as <-. right. repeat split. }
    destruct (String.eqb platform "linux").
    { rewrite probe_find in H.
      destruct (find (available execSync) (terminals (nodeCommandOf u sid tmp)))
        as [t|] eqn:Hf; [|discriminate].
      cbn [option_map] in H. injection H as <-.
      apply find_some in Hf. destruct Hf as [Hin _].
      left. repeat split; [|discriminate].
      apply In_terminals_last. exact Hin. }
    destruct (String.eqb platform "win32"); [|discriminate].
    cbn [fst] in H. injection H as <-. left.
    repeat split. discriminate.
Qed.

Lemma resolver_result_shape_witness :
  last (args {| command := "cmd";
                args := ["/c"; "start"; "cmd"; "/k";
                         nodeCommandOf "ui.js" "a1b2" "C:/Temp"];
                shell := false |}) ""
  = nodeCommandOf "ui.js" "a1b2" "C:/Temp".
Proof.
  destruct (resolver_result_shape Js.basename Js.toLowerCase nobody "win32"
              None "ui.js" "a1b2" "C:/Temp"
              {| command := "cmd";
                 args := ["/c"; "start"; "cmd"; "/k";
                          nodeCommandOf "ui.js" "a1b2" "C:/Temp"];
                 shell := false |} eq_refl)
    as [(_ & H & _) | (H & _)]; [exact H | discriminate H].
Defined.

(** The resolver probes only on Linux and only when nothing is configured;
    it then runs [which] on the candidates in order and stops at the first
    one found, so at most five calls are made. *)
Theorem resolver_probes_only_on_bare_linux
    (basename toLowerCase : string -> string)
    (execSync : string -> Stdio -> ExecResult)
    (platform : string) (terminalEnv : option string) (u sid tmp : string) :
  execCalls basename toLowerCase execSync platform terminalEnv u sid tmp
  = (if configured terminalEnv then []
     else if String.eqb platform "linux" then
       map whichCall
         (upToFirst (available execSync) (terminals (nodeCommandOf u sid tmp)))
     else [])
  /\ (length (execCalls basename toLowerCase execSync platform terminalEnv
                u sid tmp) <= 5)%nat.
Proof.
  assert (H : execCalls basename toLowerCase execSync platform terminalEnv
                u sid tmp
              = (if configured terminalEnv then []
                 else if String.eqb platform "linux" then
                   map whichCall
                     (upToFirst (available execSync)
                        (terminals (nodeCommandOf u sid tmp)))
                 else [])).
  { unfold execCalls. destruct (configured terminalEnv) eqn:Hcfg.
    - destruct (configured_is_some basename toLowerCase execSync platform
                  terminalEnv u sid tmp Hcfg) as (env & spec & _ & -> & _).
      reflexivity.
    - rewrite unconfigured_fallback by assumption.
      unfold getTerminalCommandIO.
      destruct (String.eqb_spec platform "darwin") as [->|Hd]; [reflexivity|].
      destruct (String.eqb platform "linux"); [apply probe_calls|].
      destruct (String.eqb platform "win32"); reflexivity. }
  split; [exact H|]. rewrite H.
  destruct (configured terminalEnv); [cbn; lia|].
  destruct (String.eqb platform "linux"); [|cbn; lia].
  rewrite length_map.
  apply (Nat.le_trans _ _ _ (upToFirst_length _ _)). cbn. lia.
Qed.

(** The escaping of the AppleScript branches loses nothing: reading each
    backslash as quoting the next character gives back the command, so two
    different commands are never escaped to the same text. *)
Theorem escapeForAppleScript_round_trip (s : string) :
  unescape (escapeForAppleScript s) = s
  /\ forall s', escapeForAppleScript s = escapeForAppleScript s' -> s = s'.
Proof.
  assert (H : forall x, unescape (escapeForAppleScript x) = x).
  { induction x as [|c x IH]; [reflexivity|].
    unfold escapeForAppleScript, Js.backslash, Js.dquote in *.
    cbn [String.append] in *. cbn [Js.replaceAll].
    destruct (Ascii.eqb_spec c "092"%char) as [->|Hb].
    - cbn. rewrite IH. reflexivity.
    - cbn [Js.replaceAll].
      destruct (Ascii.eqb_spec c "034"%char) as [->|Hq].
      + cbn. rewrite IH. reflexivity.
      + cbn [unescape]. apply Ascii.eqb_neq in Hb. rewrite Hb, IH.
        reflexivity. }
  split; [apply H|]. intros s' He.
  rewrite <- (H s), <- (H s'), He. reflexivity.
Qed.

(** ** More on the coordinator *)

Lemma initial_triggers : TriggersInv initial.
Proof.
  right. unfold Disarmed. cbn. repeat split; try reflexivity; discriminate.
Qed.

(** A leaf of the case analysis of [step_triggers]. *)
Ltac triggers_leaf :=
  cbn [inSetup];
  solve [ left; repeat split; first [reflexivity | discriminate | congruence]
        | right; repeat split; intros;
          first [reflexivity | discriminate | congruence | assumption] ].

Lemma step_triggers (cfg : Config) now e s s' :
  TriggersInv s -> step cfg now e s = Some s' -> TriggersInv s'.
Proof.
  destruct s as [c p u w t h f st rd sts cl se ef].
  unfold TriggersInv, Armed, Disarmed.
  cbn [watcher timeoutHandle heartbeatInterval phase cleanups settled reads
       stats].
  intros [((Hw & Ht & Hh) & Hp & Hcl & Hse)
         | ((Hw & Ht & Hh) & Hsetup & Hfail)] H.
  - subst. destruct t as [tm|]; [|congruence].
    destruct h as [i|]; [|congruence]. clear Ht Hh.
    destruct e; unfold_turn; split_matches H;
      try discriminate; injection H as <-;
      rewrite ?cleanupAndResolve_eq; unfold_setters;
      try match goal with
          | H : nth_error [] ?k = Some _ |- _ => destruct k; discriminate H
          end;
      triggers_leaf.
  - subst. destruct p; cbn [inSetup] in Hsetup;
      try (destruct (Hsetup eq_refl) as (-> & -> & -> & ->));
      try (destruct (Hfail eq_refl) as (-> & ->));
      clear Hsetup Hfail;
      destruct e; unfold_turn; split_matches H;
        try discriminate; injection H as <-;
        rewrite ?cleanupAndResolve_eq; unfold_setters;
        try match goal with
            | H : nth_error [] ?k = Some _ |- _ => destruct k; discriminate H
            | H : _ && (false || false) = true |- _ =>
                cbn [orb] in H; rewrite Bool.andb_false_r in H; discriminate H
            end;
        triggers_leaf.
Qed.

Lemma reachable_triggers (cfg : Config) tr s :
  run cfg tr initial = Some s -> TriggersInv s.
Proof.
  apply (run_invariant cfg TriggersInv (step_triggers cfg)).
  exact initial_triggers.
Qed.

Lemma count_app {A} (f : A -> bool) (l m : list A) :
  length (filter f (l ++ m)) = (length (filter f l) + length (filter f m))%nat.
Proof. rewrite filter_app, length_app. reflexivity. Qed.

Lemma disarm_no_unlink (c : Channel) (s : State) :
  length (filter (isUnlinkOf c) (disarmEffects s)) = O.
Proof.
  unfold disarmEffects.
  destruct (heartbeatInterval s), (watcher s), (timeoutHandle s), c;
    reflexivity.
Qed.

Lemma disarm_no_resolve (s : State) :
  length (filter isResolve (disarmEffects s)) = O.
Proof.
  unfold disarmEffects.
  destruct (heartbeatInterval s), (watcher s), (timeoutHandle s); reflexivity.
Qed.

Lemma removeNth_length {A} (l : list A) (k : nat) (x : A) :
  nth_error l k = Some x -> length l = S (length (removeNth k l)).
Proof.
  revert k. induction l as [|y l IH]; intros k H; [destruct k; discriminate|].
  destruct k as [|k]; cbn in *; [reflexivity|]. f_equal. apply (IH k H).
Qed.

(** Counts the effects of a written-out state. *)
Ltac count_effects :=
  unfold cleanupRuns, unlinkCount, resolveCalls in *;
  cbn [effects cleanups settled] in *;
  repeat rewrite count_app;
  rewrite ?disarm_no_unlink, ?disarm_no_resolve;
  cbn [filter isUnlinkOf isResolve unlinks length app] in *;
  rewrite ?length_app; cbn [length].

Lemma initial_accounting : Accounting initial.
Proof. unfold Accounting. cbn. repeat split. Qed.

Lemma step_accounting (cfg : Config) now e s s' :
  Accounting s -> step cfg now e s = Some s' -> Accounting s'.
Proof.
  destruct s as [c p u w t h f st rd sts cl se ef].
  unfold Accounting. intros (H1 & H2 & H3 & H4) H.
  destruct e; unfold_turn; split_matches H;
    try discriminate; injection H as <-;
    rewrite ?cleanupAndResolve_eq; unfold_setters; count_effects;
    try match goal with
        | H : nth_error _ _ = Some _ |- _ => apply removeNth_length in H
        end;
    destruct H4 as [Ha Hb];
    repeat split; intros; try discriminate; try lia;
    first [ apply Hb; lia
          | match goal with
            | H : se = None |- _ => specialize (Ha H); lia
            end ].
Qed.

Lemma step_after_disarm (cfg : Config) now e s s' :
  Disarmed s -> inSetup (phase s) = false -> step cfg now e s = Some s' ->
  Disarmed s' /\ phase s' = phase s
  /\ (cleanupRuns s' + reads s' + stats s'
      <= cleanupRuns s + reads s + stats s)%nat
  /\ (cleanupRuns s <= cleanupRuns s')%nat.
Proof.
  destruct s as [c p u w t h f st rd sts cl se ef].
  unfold Disarmed. cbn [watcher timeoutHandle heartbeatInterval phase].
  intros (-> & -> & ->) Hp H.
  destruct p; try discriminate Hp; clear Hp;
    destruct e; unfold_turn; split_matches H;
      try discriminate; injection H as <-;
      rewrite ?cleanupAndResolve_eq; unfold_setters; count_effects;
      repeat split; lia.
Qed.

Lemma run_after_disarm (cfg : Config) :
  forall tr s s',
    Disarmed s -> inSetup (phase s) = false -> run cfg tr s = Some s' ->
    Disarmed s' /\ phase s' = phase s
    /\ (cleanupRuns s' + reads s' + stats s'
        <= cleanupRuns s + reads s + stats s)%nat
    /\ (cleanupRuns s <= cleanupRuns s')%nat.
Proof.
  induction tr as [|[now e] tr IH]; intros s s' Hd Hp Hrun.
  - cbn in Hrun. injection Hrun as <-. repeat split; try apply Hd; lia.
  - cbn [run] in Hrun.
    destruct (step cfg now e s) as [s1|] eqn:Hs; [|discriminate].
    destruct (step_after_disarm cfg now e s s1 Hd Hp Hs) as (Hd1 & Hp1 & Hb1 & Hm1).
    destruct (IH s1 s' Hd1 ltac:(rewrite Hp1; exact Hp) Hrun)
      as (Hd' & Hp' & Hb' & Hm').
    repeat split; try apply Hd'; try congruence; lia.
Qed.

Lemma reachable_accounting (cfg : Config) tr s :
  run cfg tr initial = Some s -> Accounting s.
Proof.
  apply (run_invariant cfg Accounting (step_accounting cfg)).
  exact initial_accounting.
Qed.

(** The caller receives one outcome: once the promise is settled, nothing
    that happens afterwards (a second completion of a cleanup, a late read
    or stat, an exit of the process) changes its value. *)
Theorem outcome_is_final (cfg : Config) (tr : list (Z * Event))
    (s s' : State) (r : string) :
  run cfg tr s = Some s' -> settled s = Some r -> settled s' = Some r.
Proof.
  revert s. induction tr as [|[now e] tr IH]; intros s Hrun Hs.
  - cbn in Hrun. injection Hrun as <-. exact Hs.
  - cbn [run] in Hrun.
    destruct (step cfg now e s) as [s1|] eqn:Hstep; [|discriminate].
    apply (IH s1 Hrun). eapply settled_once; eassumption.
Qed.

Lemma outcome_is_final_witness :
  exists s',
    run (sampleConfig 5) (skipn 20 raceTrace) raceResolved = Some s'
    /\ resolveCalls s' = 2%nat
    /\ settled s' = Some "".
Proof.
  eexists.
  split; [vm_compute; reflexivity|].
  split; [vm_compute; reflexivity|].
  eapply (outcome_is_final (sampleConfig 5) (skipn 20 raceTrace) raceResolved).
  - vm_compute. reflexivity.
  - reflexivity.
Defined.

Lemma disarmed_callbacks_off (cfg : Config) (s : State) now ty :
  Disarmed s ->
  step cfg now (WatchEvent ty) s = None
  /\ step cfg now IntervalFires s = None
  /\ step cfg now TimeoutFires s = None.
Proof.
  destruct s as [c p u w t h f st rd sts cl se ef].
  unfold Disarmed. cbn [watcher timeoutHandle heartbeatInterval].
  intros (-> & -> & ->). unfold_turn.
  destruct (c <=? now); repeat split.
Qed.

Lemma started_is_disarmed (s : State) :
  TriggersInv s -> settled s <> None \/ cleanups s <> [] ->
  Disarmed s /\ inSetup (phase s) = false.
Proof.
  intros [(_ & _ & Hc & Hs) | (Hd & Hsetup & _)] Hstarted.
  - destruct Hstarted; congruence.
  - split; [exact Hd|].
    destruct (inSetup (phase s)); [|reflexivity].
    destruct (Hsetup eq_refl) as (_ & _ & Hc & Hs).
    destruct Hstarted; congruence.
Qed.

Lemma armed_is_untouched (cfg : Config) (tr : list (Z * Event)) (s : State) :
  run cfg tr initial = Some s ->
  (watcher s = true \/ timeoutHandle s <> None \/ heartbeatInterval s <> None) ->
  Armed s /\ phase s = SetupDone /\ settled s = None /\ cleanups s = []
  /\ cleanupRuns s = O.
Proof.
  intros Hrun Hany.
  pose proof (reachable_triggers cfg tr s Hrun) as HT.
  pose proof (reachable_accounting cfg tr s Hrun) as (HA & _ & _ & HS).
  destruct HT as [(Ha & Hp & Hc & Hs) | ((Hw & Ht & Hh) & _)].
  - repeat split; try apply Ha; try assumption.
    rewrite HA, Hc. apply HS in Hs. rewrite Hs. reflexivity.
  - destruct Hany as [H | [H | H]]; congruence.
Qed.

(** The watcher, the interval and the timeout are armed together and
    disarmed together.  While one of them is armed the setup is done, the
    promise is unsettled and no cleanup has started; once a resolution has
    started all three are [null], and no watcher, interval or timeout
    callback runs any more. *)
Theorem triggers_armed_together (cfg : Config) (tr : list (Z * Event))
    (s : State) :
  run cfg tr initial = Some s ->
  ((watcher s = true \/ timeoutHandle s <> None \/ heartbeatInterval s <> None) ->
   Armed s /\ phase s = SetupDone /\ settled s = None /\ cleanups s = []
   /\ cleanupRuns s = O)
  /\ ((settled s <> None \/ cleanups s <> []) ->
      Disarmed s
      /\ forall now ty,
           step cfg now (WatchEvent ty) s = None
           /\ step cfg now IntervalFires s = None
           /\ step cfg now TimeoutFires s = None).
Proof.
  intros Hrun.
  pose proof (reachable_triggers cfg tr s Hrun) as HT.
  split.
  - apply (armed_is_untouched cfg tr s Hrun).
  - intros Hstarted.
    destruct (started_is_disarmed s HT Hstarted) as [Hd _].
    split; [exact Hd|]. intros now ty.
    apply disarmed_callbacks_off. exact Hd.
Qed.

Lemma triggers_armed_together_witness :
  settled armedSample = None /\ cleanups armedSample = []
  /\ cleanupRuns armedSample = O.
Proof.
  destruct (triggers_armed_together (sampleConfig 5) setupTrace armedSample)
    as [H _]; [vm_compute; reflexivity|].
  destruct H as (_ & _ & Hs & Hc & Hr); [left; reflexivity|].
  repeat split; assumption.
Defined.

(** Once a resolution has started, a further cleanup can only come from a
    read or a stat that was in flight: the number of cleanups plus the
    operations in flight never grows again. *)
Theorem cleanup_runs_bounded_by_in_flight (cfg : Config)
    (tr tr' : list (Z * Event)) (s s' : State) :
  run cfg tr initial = Some s ->
  settled s <> None \/ cleanups s <> [] ->
  run cfg tr' s = Some s' ->
  (cleanupRuns s' + reads s' + stats s' <= cleanupRuns s + reads s + stats s)%nat.
Proof.
  intros Hrun Hstarted Hrun'.
  destruct (started_is_disarmed s (reachable_triggers cfg tr s Hrun) Hstarted)
    as [Hd Hp].
  apply (run_after_disarm cfg tr' s s' Hd Hp Hrun').
Qed.

Lemma cleanup_runs_bounded_by_in_flight_witness :
  exists s',
    run (sampleConfig 5) (skipn 18 raceTrace) raceStarted = Some s'
    /\ (cleanupRuns s' + reads s' + stats s'
        <= cleanupRuns raceStarted + reads raceStarted + stats raceStarted)%nat.
Proof.
  eexists.
  split; [vm_compute; reflexivity|].
  eapply (cleanup_runs_bounded_by_in_flight (sampleConfig 5)
            (firstn 18 raceTrace) (skipn 18 raceTrace) raceStarted).
  - vm_compute. reflexivity.
  - right. discriminate.
  - vm_compute. reflexivity.
Defined.

Lemma step_begin_in_flight (cfg : Config) now e s s1 :
  step cfg now e s = Some s1 ->
  (length (cleanups s) < length (cleanups s1))%nat ->
  (reads s1 + stats s1 <= reads s + stats s)%nat.
Proof.
  destruct s as [c p u w t h f st rd sts cl se ef].
  intros H.
  destruct e; unfold_turn; split_matches H;
    try discriminate; injection H as <-;
    rewrite ?cleanupAndResolve_eq; unfold_setters;
    try match goal with
        | H : nth_error _ _ = Some _ |- _ => apply removeNth_length in H
        end;
    rewrite ?length_app; cbn [length]; lia.
Qed.

(** When the first trigger to fire finds no read and no stat in flight,
    [cleanupResources] runs once in all: nothing that follows runs it
    again. *)
Theorem cleanup_once_when_nothing_in_flight (cfg : Config)
    (tr tr' : list (Z * Event)) (s s1 s' : State) (now : Z) (e : Event) :
  run cfg tr initial = Some s ->
  watcher s = true -> reads s = O -> stats s = O ->
  step cfg now e s = Some s1 -> cleanups s1 <> [] ->
  run cfg tr' s1 = Some s' ->
  cleanupRuns s' = 1%nat.
Proof.
  intros Hrun Hw Hr Hst Hstep Hc1 Hrun'.
  assert (Hrun1 : run cfg (tr ++ [(now, e)]) initial = Some s1).
  { clear - Hrun Hstep. revert Hrun. generalize initial.
    induction tr as [|[t0 e0] tr IH]; intros s0 Hrun.
    - cbn in Hrun. injection Hrun as ->. cbn. rewrite Hstep. reflexivity.
    - cbn [run app] in *. destruct (step cfg t0 e0 s0); [|discriminate].
      apply IH. exact Hrun. }
  destruct (armed_is_untouched cfg tr s Hrun (or_introl Hw))
    as (_ & _ & Hs & Hc & Hruns).
  pose proof (reachable_accounting cfg _ s1 Hrun1) as (HA1 & _ & _ & HS1).
  assert (Hlen : (length (cleanups s) < length (cleanups s1))%nat).
  { rewrite Hc. destruct (cleanups s1); [congruence | cbn; lia]. }
  pose proof (step_begin_in_flight cfg now e s s1 Hstep Hlen) as Hfl.
  assert (H1 : cleanupRuns s1 = 1%nat).
  { destruct (step_shape _ _ _ _ _ Hstep)
      as [es _ Hcl _ _ | r es Hse Hcl _ _ _ | k r _ Hnth _ _ _].
    - congruence.
    - rewrite HA1, Hcl, Hc. rewrite Hs in Hse. apply HS1 in Hse.
      rewrite Hse. reflexivity.
    - rewrite Hc in Hnth. destruct k; discriminate. }
  destruct (started_is_disarmed s1 (reachable_triggers cfg _ s1 Hrun1)
              (or_intror Hc1)) as [Hd Hp].
  destruct (run_after_disarm cfg tr' s1 s' Hd Hp Hrun') as (_ & _ & Hb & Hm).
  lia.
Qed.

Lemma cleanup_once_when_nothing_in_flight_witness :
  exists s',
    run (sampleConfig 5)
      [(10500, UiExit (Some 1)); (10500, CleanupDone 0); (10600, UiError)]
      (cleanupAndResolve "" (set_clock 10500 armedSample)) = Some s'
    /\ cleanupRuns s' = 1%nat.
Proof.
  eexists.
  split; [vm_compute; reflexivity|].
  eapply (cleanup_once_when_nothing_in_flight (sampleConfig 5) setupTrace
            [(10500, UiExit (Some 1)); (10500, CleanupDone 0); (10600, UiError)]
            armedSample (cleanupAndResolve "" (set_clock 10500 armedSample))
            _ 10500 TimeoutFires).
  - vm_compute. reflexivity.
  - reflexivity.
  - reflexivity.
  - reflexivity.
  - vm_compute. reflexivity.
  - vm_compute. discriminate.
  - vm_compute. reflexivity.
Defined.

(** Every run of [cleanupResources] deletes each of the three files, and
    each one that has completed has called [resolve] once; the promise is
    unsettled exactly as long as [resolve] has not been called. *)
Theorem cleanups_and_resolves_balance (cfg : Config) (tr : list (Z * Event))
    (s : State) :
  run cfg tr initial = Some s ->
  cleanupRuns s = (resolveCalls s + length (cleanups s))%nat
  /\ unlinkCount ResponseFile s = cleanupRuns s
  /\ unlinkCount HeartbeatFile s = cleanupRuns s
  /\ unlinkCount OptionsFile s = cleanupRuns s
  /\ (settled s = None <-> resolveCalls s = O).
Proof.
  intros Hrun.
  destruct (reachable_accounting cfg tr s Hrun) as (H1 & H2 & H3 & H4).
  repeat split; try assumption; apply H4.
Qed.

Lemma cleanups_and_resolves_balance_witness :
  cleanupRuns raceResolved
  = (resolveCalls raceResolved + length (cleanups raceResolved))%nat.
Proof.
  eapply (cleanups_and_resolves_balance (sampleConfig 5) (firstn 20 raceTrace)).
  vm_compute. reflexivity.
Defined.

(** The exit of the process with status 0 never resolves a session; and an
    exit or an error observed while the watcher is not set (during the
    setup, after a failed setup, after a resolution has started) is
    ignored, whatever the status. *)
Theorem exit_ignored_unless_armed (cfg : Config) (tr : list (Z * Event))
    (s : State) (now : Z) :
  run cfg tr initial = Some s -> ui s = true -> clock s <= now ->
  step cfg now (UiExit (Some 0)) s = Some (set_clock now s)
  /\ (watcher s = false ->
      (forall code, step cfg now (UiExit code) s = Some (set_clock now s))
      /\ step cfg now UiError s = Some (set_clock now s)).
Proof.
  intros Hrun Hui Hnow.
  pose proof (reachable_triggers cfg tr s Hrun) as HT.
  destruct s as [c p u w t h f st rd sts cl se ef].
  cbn [ui clock watcher] in *. subst u. apply Z.leb_le in Hnow.
  split.
  - unfold_turn. rewrite Hnow. reflexivity.
  - intros ->.
    destruct HT as [((Hw & _) & _) | ((_ & Ht & _) & _)];
      cbn [watcher timeoutHandle] in *; [discriminate|]. subst t.
    split; [intros code|]; unfold_turn; rewrite Hnow;
      rewrite ?Bool.andb_false_r; reflexivity.
Qed.

Lemma exit_ignored_unless_armed_witness :
  step (sampleConfig 60) 1 UiError earlySpawned
  = Some (set_clock 1 earlySpawned).
Proof.
  eapply (exit_ignored_unless_armed (sampleConfig 60)
            (firstn 2 earlyErrorTrace) earlySpawned 1).
  - vm_compute. reflexivity.
  - reflexivity.
  - cbn. lia.
  - reflexivity.
Defined.

Lemma teardown_disarm (s : State) : forallb isTeardown (disarmEffects s) = true.
Proof.
  unfold disarmEffects.
  destruct (heartbeatInterval s), (watcher s), (timeoutHandle s); reflexivity.
Qed.

Lemma stt_app (cfg : Config) (l es : list Effect) :
  SetupThenTeardown cfg l -> forallb isTeardown es = true ->
  SetupThenTeardown cfg (l ++ es).
Proof.
  intros (pre & rest & -> & Hpre & Hrest) Hes.
  exists pre, (rest ++ es). repeat split.
  - rewrite app_assoc. reflexivity.
  - exact Hpre.
  - rewrite forallb_app, Hrest, Hes. reflexivity.
Qed.

Lemma stt_setup (cfg : Config) (spec : LaunchSpec) (es : list Effect) :
  terminalCmd cfg = Some spec -> forallb isTeardown es = true ->
  SetupThenTeardown cfg (setupEffects spec ++ es).
Proof.
  intros Hcmd Hes. exists (setupEffects spec), es.
  repeat split; [|exact Hes]. right. right. exists spec. split; auto.
Qed.

Lemma stt_options (cfg : Config) (es : list Effect) :
  forallb isTeardown es = true ->
  SetupThenTeardown cfg ([WriteFile OptionsFile] ++ es).
Proof.
  intros Hes. exists [WriteFile OptionsFile], es.
  repeat split; [|exact Hes]. right. left. reflexivity.
Qed.

Lemma initial_effects (cfg : Config) : EffectsInv cfg initial.
Proof. reflexivity. Qed.

(** A leaf of the case analysis of [step_effects]. *)
Ltac effects_leaf :=
  first
    [ assumption
    | reflexivity
    | eexists; split; [eassumption | reflexivity]
    | eexists; split; [reflexivity | reflexivity]
    | apply stt_options; reflexivity
    | apply stt_setup; [assumption | reflexivity]
    | rewrite <- (app_nil_r (setupEffects _));
      apply stt_setup; [assumption | reflexivity]
    | apply stt_app;
      [ assumption
      | first [ reflexivity
              | rewrite forallb_app, teardown_disarm; reflexivity ] ] ].

Lemma step_effects (cfg : Config) now e s s' :
  TriggersInv s -> EffectsInv cfg s -> step cfg now e s = Some s' ->
  EffectsInv cfg s'.
Proof.
  destruct s as [c p u w t h f st rd sts cl se ef].
  unfold TriggersInv, Armed, Disarmed, EffectsInv.
  cbn [watcher timeoutHandle heartbeatInterval phase cleanups settled reads
       stats effects].
  intros [((Hw & Ht & Hh) & Hp & Hcl & Hse)
         | ((Hw & Ht & Hh) & Hsetup & Hfail)] HE H.
  - subst.
    destruct e; unfold_turn; split_matches H;
      try discriminate; injection H as <-;
      rewrite ?cleanupAndResolve_eq; unfold_setters; effects_leaf.
  - subst. destruct p; cbn [inSetup] in Hsetup;
      try (destruct (Hsetup eq_refl) as (-> & -> & -> & ->));
      clear Hsetup Hfail;
      try (destruct HE as (spec & Hcmd & ->));
      try (subst ef);
      destruct e; unfold_turn; split_matches H;
        try discriminate; injection H as <-;
        rewrite ?cleanupAndResolve_eq; unfold_setters;
        try match goal with
            | H : nth_error [] ?k = Some _ |- _ => destruct k; discriminate H
            | H : _ && (false || false) = true |- _ =>
                cbn [orb] in H; rewrite Bool.andb_false_r in H; discriminate H
            | H1 : terminalCmd ?c = Some ?a, H2 : terminalCmd ?c = Some ?b |- _ =>
                rewrite H1 in H2; injection H2 as ->
            end;
        effects_leaf.
Qed.

Lemma reachable_effects (cfg : Config) tr s :
  run cfg tr initial = Some s -> TriggersInv s /\ EffectsInv cfg s.
Proof.
  apply (run_invariant cfg (fun s => TriggersInv s /\ EffectsInv cfg s)).
  - intros now e s0 s1 [HT HE] Hstep. split.
    + eapply step_triggers; eassumption.
    + eapply step_effects; eassumption.
  - split; [exact initial_triggers | apply initial_effects].
Qed.

(** What a session does to the outside comes in this order: the options
    file is written first; then, if at all, the process is spawned, once,
    with the launch specification of the resolver, and the response file is
    initialised; from the first disarming or deletion on there is no write
    and no spawn any more. *)
Theorem effects_are_setup_then_teardown (cfg : Config)
    (tr : list (Z * Event)) (s : State) :
  run cfg tr initial = Some s ->
  exists pre rest,
    effects s = pre ++ rest
    /\ (pre = [] \/ pre = [WriteFile OptionsFile]
        \/ exists spec,
             terminalCmd cfg = Some spec
             /\ pre = [WriteFile OptionsFile; Spawn spec; WriteFile ResponseFile])
    /\ forallb isTeardown rest = true.
Proof.
  intros Hrun. destruct (reachable_effects cfg tr s Hrun) as [_ HE].
  unfold EffectsInv in HE. destruct (phase s).
  - exists [], []. rewrite HE. repeat split. left. reflexivity.
  - exists [WriteFile OptionsFile], []. rewrite HE. repeat split.
    right. left. reflexivity.
  - destruct HE as (spec & Hcmd & ->). exists (setupEffects spec), [].
    split; [symmetry; apply app_nil_r|]. split; [|reflexivity].
    right. right. exists spec. split; auto.
  - destruct HE as (spec & Hcmd & ->). exists (setupEffects spec), [].
    split; [symmetry; apply app_nil_r|]. split; [|reflexivity].
    right. right. exists spec. split; auto.
  - exact HE.
  - exact HE.
Qed.

Lemma effects_are_setup_then_teardown_witness :
  exists pre rest,
    effects raceResolved = pre ++ rest
    /\ (pre = [] \/ pre = [WriteFile OptionsFile]
        \/ exists spec,
             terminalCmd (sampleConfig 5) = Some spec
             /\ pre = [WriteFile OptionsFile; Spawn spec; WriteFile ResponseFile])
    /\ forallb isTeardown rest = true.
Proof.
  eapply (effects_are_setup_then_teardown (sampleConfig 5)
            (firstn 20 raceTrace) raceResolved).
  vm_compute. reflexivity.
Defined.

Lemma timerDelay_pos (d : Z) : 1 <= Js.timerDelay d.
Proof.
  unfold Js.timerDelay.
  destruct (d <? 1) eqn:H1; cbn [orb]; [lia|].
  destruct (Js.TIMEOUT_MAX <? d); [lia|].
  apply Z.ltb_ge in H1. exact H1.
Qed.

(** One poll under the nominal schedule, whatever [stat] finds: either the
    session goes on with the next poll 1500 ms later, or it is resolved
    with the empty string at the time of the poll. *)
Lemma nominal_poll_any (cfg : Config) hb (start clk i tm : Z) seen es :
  clk <= i -> i <= tm ->
  (exists seen',
      forall n,
        nominalRun cfg hb (S (S n)) (armedState start clk i tm seen es)
        = nominalRun cfg hb n (armedState start i (i + 1500) tm seen' es))
  \/ (exists s',
        (forall n,
           nominalRun cfg hb (S (S (S n))) (armedState start clk i tm seen es)
           = Some s')
        /\ settled s' = Some "" /\ clock s' = i).
Proof.
  intros H1 H2. apply Z.leb_le in H1, H2.
  assert (Hturn1 : forall n,
            nominalRun cfg hb (S n) (armedState start clk i tm seen es)
            = nominalRun cfg hb n
                (set_stats 1 (set_clock i
                   (armedState start clk (i + 1500) tm seen es)))).
  { intros n. nominal_turn. reflexivity. }
  assert (Hres : exists s',
            (forall n,
               nominalRun cfg hb (S n)
                 (cleanupAndResolve ""
                    (set_clock i (armedState start clk (i + 1500) tm seen es)))
               = Some s')
            /\ settled s' = Some "" /\ clock s' = i).
  { eexists. split.
    - intros n. rewrite cleanupAndResolve_eq. nominal_turn.
      eapply nominalRun_settled. reflexivity.
    - split; reflexivity. }
  assert (Hturn2 : forall n r,
            hb i = r ->
            nominalRun cfg hb (S n)
              (set_stats 1 (set_clock i
                 (armedState start clk (i + 1500) tm seen es)))
            = nominalRun cfg hb n
                (onStat r i
                   (set_clock i (armedState start clk (i + 1500) tm seen es)))).
  { intros n r Hr. rewrite nominalRun_turn by reflexivity.
    cbv [nominalNext armedState]. unfold_turn. rewrite Z.leb_refl, Hr.
    reflexivity. }
  destruct Hres as (s' & Hs' & Hset & Hclk).
  assert (Hstop : forall r, hb i = r ->
            onStat r i (set_clock i (armedState start clk (i + 1500) tm seen es))
            = cleanupAndResolve ""
                (set_clock i (armedState start clk (i + 1500) tm seen es)) ->
            exists s'0,
              (forall n,
                 nominalRun cfg hb (S (S (S n)))
                   (armedState start clk i tm seen es) = Some s'0)
              /\ settled s'0 = Some "" /\ clock s'0 = i).
  { intros r Hr Heq. exists s'. split; [|split; assumption].
    intros n. rewrite Hturn1, (Hturn2 _ r Hr), Heq. apply Hs'. }
  assert (Hgo : forall r seen', hb i = r ->
            onStat r i (set_clock i (armedState start clk (i + 1500) tm seen es))
            = armedState start i (i + 1500) tm seen' es ->
            exists seen'0,
              forall n,
                nominalRun cfg hb (S (S n)) (armedState start clk i tm seen es)
                = nominalRun cfg hb n
                    (armedState start i (i + 1500) tm seen'0 es)).
  { intros r seen' Hr Heq. exists seen'. intros n.
    rewrite Hturn1, (Hturn2 _ r Hr), Heq. reflexivity. }
  destruct (hb i) as [mtime| | |] eqn:Hhb.
  - destruct (i - mtime >? 3000) eqn:Hold.
    + right. apply (Hstop _ eq_refl). cbn [onStat]. rewrite Hold. reflexivity.
    + left. apply (Hgo _ true eq_refl). cbn [onStat]. rewrite Hold. reflexivity.
  - destruct seen.
    + right. apply (Hstop _ eq_refl). reflexivity.
    + destruct (i - start >? 7000) eqn:Hgrace.
      * right. apply (Hstop _ eq_refl). cbn [onStat]. unfold_setters.
        cbv [armedState]. unfold_setters. rewrite Hgrace. reflexivity.
      * left. apply (Hgo _ false eq_refl). cbn [onStat]. unfold_setters.
        cbv [armedState]. unfold_setters. rewrite Hgrace. reflexivity.
  - right. apply (Hstop _ eq_refl). reflexivity.
  - right. apply (Hstop _ eq_refl). reflexivity.
Qed.

Lemma nominal_any (cfg : Config) hb (start tm : Z) es :
  forall (k : nat) (clk i : Z) seen,
    clk <= i -> clk <= tm -> tm - i < 1500 * Z.of_nat k ->
    exists fuel s',
      nominalRun cfg hb fuel (armedState start clk i tm seen es) = Some s'
      /\ settled s' = Some "" /\ clk <= clock s' <= tm.
Proof.
  induction k as [|k IH]; intros clk i seen H1 H2 H3.
  - destruct (nominal_timeout cfg hb start clk i tm seen es O)
      as (s' & Hrun & Hs & Hc); try lia.
    exists 2%nat, s'. repeat split; try assumption; lia.
  - destruct (Z_le_gt_dec i tm) as [Hp | Ht].
    + destruct (nominal_poll_any cfg hb start clk i tm seen es H1 Hp)
        as [(seen' & Hgo) | (s' & Hstop & Hs & Hc)].
      * destruct (IH i (i + 1500) seen') as (fuel & s' & Hrun & Hs & Hc);
          try lia.
        exists (S (S fuel)), s'. rewrite Hgo.
        repeat split; try assumption; lia.
      * exists 3%nat, s'. rewrite Hstop. repeat split; try assumption; lia.
    + destruct (nominal_timeout cfg hb start clk i tm seen es O)
        as (s' & Hrun & Hs & Hc); try lia.
      exists 2%nat, s'. repeat split; try assumption; lia.
Qed.

(** Without an answer, a session whose setup succeeds is resolved with the
    empty string no later than the timeout, whatever happens to the
    heartbeat file: under the nominal schedule the resolution comes between
    500 ms after the call (the arming) and 500 ms plus the timer delay. *)
Theorem session_resolves_by_the_timeout (cfg : Config)
    (hb : Z -> StatResult) (spec : LaunchSpec) (t0 : Z) :
  terminalCmd cfg = Some spec ->
  exists fuel t,
    nominalSession cfg hb t0 fuel = Some (t, "")
    /\ 500 <= t <= 500 + timeoutDelay cfg.
Proof.
  intros Hcmd.
  pose proof (timerDelay_pos (timeoutSeconds cfg * 1000 + 5000)) as Hpos.
  fold (timeoutDelay cfg) in Hpos.
  destruct (nominal_any cfg hb t0 (t0 + 500 + timeoutDelay cfg)
              (setupEffects spec)
              (Z.to_nat (timeoutDelay cfg + 1))
              (t0 + 500) (t0 + 500 + 1500) false)
    as (fuel & s' & Hn & Hs & Hc); try lia.
  exists (S (S (S (S fuel)))), (clock s' - t0). unfold nominalSession.
  rewrite (nominal_setup cfg hb spec t0 fuel Hcmd), Hn, Hs.
  split; [reflexivity | lia].
Qed.

Lemma session_resolves_by_the_timeout_witness :
  exists fuel t,
    nominalSession (sampleConfig 5) (lastUpdate 4000) 0 fuel = Some (t, "")
    /\ 500 <= t <= 500 + timeoutDelay (sampleConfig 5).
Proof.
  eapply (session_resolves_by_the_timeout (sampleConfig 5) (lastUpdate 4000)
            kitty 0).
  reflexivity.
Defined.

(** A poll that finds a heartbeat file last written at most 3000 ms ago. *)
Lemma nominal_poll_recent (cfg : Config) (last start clk i tm : Z) seen es
    (n : nat) :
  clk <= i -> i <= tm -> i <= last + 3000 ->
  nominalRun cfg (lastUpdate last) (S (S n)) (armedState start clk i tm seen es)
  = nominalRun cfg (lastUpdate last) n
      (armedState start i (i + 1500) tm true es).
Proof.
  intros H1 H2 H3. apply Z.leb_le in H1, H2.
  assert (H4 : (i - Z.min i last >? 3000) = false)
    by (rewrite Z.gtb_ltb; apply Z.ltb_ge; lia).
  nominal_turn.
  rewrite nominalRun_turn by reflexivity.
  cbv [nominalNext lastUpdate]. unfold_turn. rewrite Z.leb_refl.
  unfold_turn. rewrite H4. reflexivity.
Qed.

(** A poll that finds the heartbeat file last written more than 3000 ms
    ago. *)
Lemma nominal_poll_stale (cfg : Config) (last start clk i tm : Z) seen es
    (n : nat) :
  clk <= i -> i <= tm -> last + 3000 < i ->
  exists s',
    nominalRun cfg (lastUpdate last) (S (S (S n)))
      (armedState start clk i tm seen es) = Some s'
    /\ settled s' = Some "" /\ clock s' = i.
Proof.
  intros H1 H2 H3. apply Z.leb_le in H1, H2.
  assert (H4 : (i - Z.min i last >? 3000) = true) by (apply Z.gtb_lt; lia).
  eexists. nominal_turn.
  rewrite nominalRun_turn by reflexivity.
  cbv [nominalNext lastUpdate]. unfold_turn. rewrite Z.leb_refl.
  unfold_turn. rewrite H4. rewrite cleanupAndResolve_eq. unfold_setters.
  nominal_turn.
  split; [eapply nominalRun_settled; reflexivity|]. split; reflexivity.
Qed.

Lemma nominal_stale (cfg : Config) (last start tm : Z) es :
  forall (k : nat) (clk i : Z) seen,
    clk <= i -> i <= last + 4500 -> last + 4500 <= tm ->
    last + 4500 - i < 1500 * Z.of_nat k ->
    exists fuel s',
      nominalRun cfg (lastUpdate last) fuel (armedState start clk i tm seen es)
      = Some s'
      /\ settled s' = Some "" /\ last + 3000 < clock s' <= last + 4500.
Proof.
  induction k as [|k IH]; intros clk i seen H1 H2 H3 H4.
  - lia.
  - destruct (Z_le_gt_dec i (last + 3000)) as [Hw | Hr].
    + destruct (IH i (i + 1500) true) as (fuel & s' & Hrun & Hres); try lia.
      exists (S (S fuel)), s'. rewrite nominal_poll_recent by lia.
      split; assumption.
    + destruct (nominal_poll_stale cfg last start clk i tm seen es O)
        as (s' & Hrun & Hs & Hc); try lia.
      exists 3%nat, s'. repeat split; try assumption; lia.
Qed.

(** A heartbeat that stops: the heartbeat file is kept fresh until time
    [last] and never written again.  For a setup that succeeds, with the
    first poll no later than 4500 ms after [last] and the timeout no
    earlier, the nominal schedule resolves the session with the empty
    string more than 3000 ms and at most 3000 + 1500 ms after [last]. *)
Theorem stopped_heartbeat_resolves_within_4500 (cfg : Config)
    (t0 t1 t2 t3 last : Z) (s0 : State) :
  run cfg [(t0, Call); (t1, OptionsWritten true true);
           (t2, ResponseInitialised true); (t3, DelayElapsed true)] initial
  = Some s0 ->
  t3 + 1500 <= last + 4500 ->
  last + 4500 <= t3 + timeoutDelay cfg ->
  exists fuel s',
    nominalRun cfg (lastUpdate last) fuel s0 = Some s'
    /\ settled s' = Some ""
    /\ last + 3000 < clock s' <= last + 3000 + 1500.
Proof.
  intros Hrun Hfirst Hfar.
  destruct (setup_run cfg t0 t1 t2 t3 s0 Hrun) as (spec & Hcmd & H12 & H23 & ->).
  destruct (nominal_stale cfg last t1 (t3 + timeoutDelay cfg)
              (setupEffects spec)
              (Z.to_nat (Z.max 0 (last + 4500 - (t3 + 1500)) + 1))
              t3 (t3 + 1500) false)
    as (fuel & s' & Hn & Hs & Hc); try lia.
  exists fuel, s'. repeat split; try assumption; lia.
Qed.

Lemma stopped_heartbeat_resolves_within_4500_witness :
  exists fuel s',
    nominalRun (sampleConfig 60) (lastUpdate 4000) fuel
      (armedState 0 500 2000 65500 false (setupEffects kitty)) = Some s'
    /\ settled s' = Some ""
    /\ 4000 + 3000 < clock s' <= 4000 + 3000 + 1500.
Proof.
  eapply (stopped_heartbeat_resolves_within_4500 (sampleConfig 60)
            0 0 0 500 4000).
  - vm_compute. reflexivity.
  - lia.
  - vm_compute. discriminate.
Defined.

(** The grace period protects only a heartbeat that was never seen: once a
    poll has found the file fresh, the next poll that finds it missing
    resolves the session with the empty string at once, however early. *)
Theorem missing_after_seen_resolves_at_once (cfg : Config)
    (start clk i tm a b mtime : Z) (es : list Effect) :
  clk <= a -> i <= a -> a + 1500 <= b -> a - mtime <= 3000 ->
  exists s',
    run cfg [(a, IntervalFires); (a, StatDone (StatOk mtime));
             (b, IntervalFires); (b, StatDone StatENOENT);
             (b, CleanupDone 0)]
      (armedState start clk i tm false es) = Some s'
    /\ settled s' = Some "" /\ clock s' = b
    /\ heartbeatFileSeen s' = true.
Proof.
  intros H1 H2 H3 H4.
  assert (Hab : a <= b) by lia.
  apply Z.leb_le in H1, H2, H3, Hab.
  assert (H5 : (a - mtime >? 3000) = false)
    by (rewrite Z.gtb_ltb; apply Z.ltb_ge; lia).
  eexists. cbv [armedState]. run_turns. rewrite H5. run_turns.
  rewrite cleanupAndResolve_eq. run_turns.
  repeat split.
Qed.

Lemma missing_after_seen_resolves_at_once_witness :
  exists s',
    run (sampleConfig 60)
      [(2000, IntervalFires); (2000, StatDone (StatOk 1900));
       (3500, IntervalFires); (3500, StatDone StatENOENT);
       (3500, CleanupDone 0)]
      (armedState 0 500 2000 65500 false (setupEffects kitty)) = Some s'
    /\ settled s' = Some "" /\ clock s' = 3500
    /\ heartbeatFileSeen s' = true.
Proof.
  eapply (missing_after_seen_resolves_at_once (sampleConfig 60)
            0 500 2000 65500 2000 3500 1900); lia.
Defined.

(** ** A session left to itself *)

Lemma unattendedRun_turn (cfg : Config) hb (n : nat) (s : State) :
  settled s = None ->
  unattendedRun cfg hb (S n) s
  = match unattendedNext cfg hb s with
    | Some s' => unattendedRun cfg hb n s'
    | None => None
    end.
Proof. intros H. cbn [unattendedRun]. rewrite H. reflexivity. Qed.

Lemma unattendedRun_settled (cfg : Config) hb (n : nat) (s : State)
    (r : string) :
  settled s = Some r -> unattendedRun cfg hb n s = Some s.
Proof. intros H. destruct n; cbn [unattendedRun]; rewrite H; reflexivity. Qed.

Lemma run_app (cfg : Config) (tr tr' : list (Z * Event)) (s : State) :
  run cfg (tr ++ tr') s
  = match run cfg tr s with
    | Some s1 => run cfg tr' s1
    | None => None
    end.
Proof.
  revert s. induction tr as [|[now e] tr IH]; intros s; [reflexivity|].
  cbn [app run]. destruct (step cfg now e s); [apply IH | reflexivity].
Qed.

(** The turns of a session left to itself are turns of the event loop. *)
Lemma unattendedNext_step (cfg : Config) hb (s s' : State) :
  unattendedNext cfg hb s = Some s' ->
  exists now e, step cfg now e s = Some s'.
Proof.
  unfold unattendedNext. intros H.
  repeat match type of H with
         | context [match ?x with _ => _ end] => destruct x
         end;
    try discriminate; eauto.
Qed.

Lemma unattendedRun_run (cfg : Config) hb (fuel : nat) :
  forall s s', unattendedRun cfg hb fuel s = Some s' ->
               exists tr, run cfg tr s = Some s'.
Proof.
  induction fuel as [|n IH]; intros s s' H; cbn [unattendedRun] in H.
  - destruct (settled s); [|discriminate]. injection H as <-.
    exists []. reflexivity.
  - destruct (settled s).
    + injection H as <-. exists []. reflexivity.
    + destruct (unattendedNext cfg hb s) as [s1|] eqn:Hn; [|discriminate].
      destruct (unattendedNext_step cfg hb s s1 Hn) as (now & e & Hstep).
      destruct (IH s1 s' H) as (tr & Hrun).
      exists ((now, e) :: tr). cbn [run]. rewrite Hstep. exact Hrun.
Qed.

(** One turn of a session left to itself, on a written-out state. *)
Ltac unattended_turn :=
  rewrite unattendedRun_turn by reflexivity;
  cbv [unattendedNext armedWith armedState];
  unfold_turn; cbn [nth_error app];
  repeat (first [ rewrite Z.leb_refl
                | match goal with
                  | H : (_ <=? _) = _ |- _ => rewrite H
                  | H : (_ >? _) = _ |- _ => rewrite H
                  end ];
          unfold_turn; cbn [nth_error app]);
  rewrite ?cleanupAndResolve_eq; unfold_setters.

(** A pending cleanup completes, and its response settles the promise. *)
Lemma unattended_cleanup (cfg : Config) hb (s : State) (r : string)
    (rest : list string) (n : nat) :
  settled s = None -> cleanups s = r :: rest ->
  exists s', unattendedRun cfg hb (S n) s = Some s' /\ settled s' = Some r.
Proof.
  destruct s as [c p u w t h f st rd sts cl se ef].
  cbn [settled cleanups]. intros -> ->.
  eexists. unattended_turn.
  split; [eapply unattendedRun_settled; reflexivity | reflexivity].
Qed.

(** A resolution that starts in an armed session ends with the empty
    string. *)
Lemma unattended_resolving (cfg : Config) hb (start clk i tm : Z) seen u rd n es
    (f : nat) :
  exists s',
    unattendedRun cfg hb (S f)
      (cleanupAndResolve "" (armedWith start clk i tm seen u rd n es))
    = Some s'
    /\ settled s' = Some "".
Proof.
  apply (unattended_cleanup cfg hb _ "" []);
    rewrite cleanupAndResolve_eq; reflexivity.
Qed.

(** An armed session left to itself is resolved with the empty string: the
    stats and the reads in flight complete, the polls follow one another,
    and the timeout fires at the latest. *)
Lemma unattended_armed (cfg : Config) hb (start tm : Z) u es :
  forall (k rd n : nat) (clk i : Z) seen,
    tm - i < 1500 * Z.of_nat k ->
    exists fuel s',
      unattendedRun cfg hb fuel (armedWith start clk i tm seen u rd n es)
      = Some s'
      /\ settled s' = Some "".
Proof.
  assert (Hstat : forall rd n clk i seen,
            (exists fuel s',
               unattendedRun cfg hb fuel
                 (armedWith start clk i tm seen u rd n es) = Some s'
               /\ settled s' = Some "") ->
            (exists fuel s',
               unattendedRun cfg hb fuel
                 (armedWith start clk i tm true u rd n es) = Some s'
               /\ settled s' = Some "") ->
            exists fuel s',
              unattendedRun cfg hb fuel
                (armedWith start clk i tm seen u rd (S n) es) = Some s'
              /\ settled s' = Some "").
  { intros rd n clk i seen (f1 & s1 & Hr1 & Hs1) (f2 & s2 & Hr2 & Hs2).
    assert (Hturn : forall f,
              unattendedRun cfg hb (S f)
                (armedWith start clk i tm seen u rd (S n) es)
              = unattendedRun cfg hb f
                  (onStat (hb clk) clk
                     (armedWith start clk i tm seen u rd n es))).
    { intros f. rewrite unattendedRun_turn by reflexivity.
      cbv [unattendedNext armedWith]. unfold_turn. rewrite Z.leb_refl.
      reflexivity. }
    destruct (unattended_resolving cfg hb start clk i tm seen u rd n es O)
      as (s0 & Hr0 & Hs0).
    assert (Hstop :
              onStat (hb clk) clk (armedWith start clk i tm seen u rd n es)
              = cleanupAndResolve "" (armedWith start clk i tm seen u rd n es) ->
              exists fuel s',
                unattendedRun cfg hb fuel
                  (armedWith start clk i tm seen u rd (S n) es) = Some s'
                /\ settled s' = Some "").
    { intros Heq. exists 2%nat, s0. rewrite Hturn, Heq. split; assumption. }
    destruct (hb clk) as [mtime| | |] eqn:Hhb.
    - cbn [onStat] in *. destruct (clk - mtime >? 3000).
      + apply Hstop. reflexivity.
      + exists (S f2), s2. rewrite Hturn. split; assumption.
    - cbn [onStat] in *. cbv [armedWith heartbeatFileSeen startTime] in *.
      destruct seen.
      + apply Hstop. reflexivity.
      + destruct (clk - start >? 7000).
        * apply Hstop. reflexivity.
        * exists (S f1), s1. rewrite Hturn. split; assumption.
    - apply Hstop. reflexivity.
    - apply Hstop. reflexivity. }
  assert (Hread : forall rd clk i seen,
            (exists fuel s',
               unattendedRun cfg hb fuel
                 (armedWith start clk i tm seen u rd O es) = Some s'
               /\ settled s' = Some "") ->
            exists fuel s',
              unattendedRun cfg hb fuel
                (armedWith start clk i tm seen u (S rd) O es) = Some s'
              /\ settled s' = Some "").
  { intros rd clk i seen (f1 & s1 & Hr1 & Hs1).
    exists (S f1), s1. split; [|exact Hs1]. rewrite <- Hr1.
    rewrite unattendedRun_turn by reflexivity.
    cbv [unattendedNext armedWith]. unfold_turn. rewrite Z.leb_refl.
    reflexivity. }
  assert (Htimeout : forall clk i seen,
            tm < i ->
            exists fuel s',
              unattendedRun cfg hb fuel
                (armedWith start clk i tm seen u O O es) = Some s'
              /\ settled s' = Some "").
  { intros clk i seen Hlt. apply Z.leb_gt in Hlt.
    assert (H1 : (clk <=? Z.max clk tm) = true) by (apply Z.leb_le; lia).
    assert (H2 : (tm <=? Z.max clk tm) = true) by (apply Z.leb_le; lia).
    exists 2%nat. eexists. do 2 unattended_turn.
    split; [eapply unattendedRun_settled; reflexivity | reflexivity]. }
  induction k as [|k IHk].
  - intros rd n clk i seen Hk. revert n clk i seen Hk.
    induction rd as [|rd IHrd]; intros n clk i seen Hk.
    + revert clk i seen Hk. induction n as [|n IHn]; intros clk i seen Hk.
      * apply Htimeout. lia.
      * apply Hstat; apply IHn; exact Hk.
    + revert clk i seen Hk. induction n as [|n IHn]; intros clk i seen Hk.
      * apply Hread. apply (IHrd O). exact Hk.
      * apply Hstat; apply IHn; exact Hk.
  - intros rd n clk i seen Hk. revert n clk i seen Hk.
    induction rd as [|rd IHrd]; intros n clk i seen Hk.
    + revert clk i seen Hk. induction n as [|n IHn]; intros clk i seen Hk.
      * destruct (Z_le_gt_dec i tm) as [Hp | Ht]; [|apply Htimeout; lia].
        destruct (IHk O 1%nat (Z.max clk i) (Z.max clk i + 1500) seen)
          as (fuel & s' & Hrun & Hs); [lia|].
        exists (S fuel), s'. split; [|exact Hs]. rewrite <- Hrun.
        apply Z.leb_le in Hp.
        assert (H1 : (clk <=? Z.max clk i) = true) by (apply Z.leb_le; lia).
        assert (H2 : (i <=? Z.max clk i) = true) by (apply Z.leb_le; lia).
        unattended_turn. reflexivity.
      * apply Hstat; apply IHn; exact Hk.
    + revert clk i seen Hk. induction n as [|n IHn]; intros clk i seen Hk.
      * apply Hread. apply (IHrd O). exact Hk.
      * apply Hstat; apply IHn; exact Hk.
Qed.

Lemma unattendedRun_more (cfg : Config) hb (s' : State) :
  forall (a b : nat) (s0 : State),
    unattendedRun cfg hb a s0 = Some s' ->
    unattendedRun cfg hb (a + b) s0 = Some s'.
Proof.
  induction a as [|a IH]; intros b s0 H; cbn [unattendedRun] in H.
  - destruct (settled s0) eqn:Hs0; [|discriminate].
    injection H as <-. eapply unattendedRun_settled. exact Hs0.
  - cbn [Nat.add unattendedRun]. destruct (settled s0); [exact H|].
    destruct (unattendedNext cfg hb s0); [|discriminate].
    apply IH. exact H.
Qed.

(** The setup of a session left to itself, from wherever it stands: it
    fails for want of a terminal and the cleanup resolves, or it arms the
    triggers. *)
Lemma unattended_setup (cfg : Config) hb (c st : Z) (p : Phase) u f es :
  inSetup p = true ->
  exists fuel s',
    unattendedRun cfg hb fuel
      {| clock := c; phase := p; ui := u; watcher := false;
         timeoutHandle := None; heartbeatInterval := None;
         heartbeatFileSeen := f; startTime := st; reads := O; stats := O;
         cleanups := []; settled := None; effects := es |}
    = Some s'
    /\ settled s' = Some "".
Proof.
  intros Hp.
  assert (Harmed : forall start clk i tm seen u' es',
            exists fuel s',
              unattendedRun cfg hb fuel
                (armedWith start clk i tm seen u' O O es') = Some s'
              /\ settled s' = Some "").
  { intros start clk i tm seen u' es'.
    apply (unattended_armed cfg hb start tm u' es'
             (Z.to_nat (Z.max 0 (tm - i) + 1)) O O clk i seen).
    lia. }
  assert (H1 : forall due, (c <=? Z.max c due) = true)
    by (intros; apply Z.leb_le; lia).
  assert (H2 : forall due, (due <=? Z.max c due) = true)
    by (intros; apply Z.leb_le; lia).
  assert (H3 : (c <=? Z.max c (c + 500)) = true) by (apply Z.leb_le; lia).
  assert (H4 : (c + 500 <=? Z.max c (c + 500)) = true)
    by (apply Z.leb_le; lia).
  destruct p as [| | |due| |]; try discriminate.
  - destruct (terminalCmd cfg) as [spec|] eqn:Hcmd.
    + destruct (Harmed c (Z.max c (c + 500))
                  (Z.max c (c + 500) + 1500)
                  (Z.max c (c + 500) + timeoutDelay cfg) f true
                  ((es ++ [WriteFile OptionsFile]) ++ [Spawn spec]
                   ++ [WriteFile ResponseFile]))
        as (fuel & s' & Hrun & Hs).
      exists (4 + fuel)%nat, s'. split; [|exact Hs]. rewrite <- Hrun.
      cbn [Nat.add]. clear Hrun Hs.
      unattended_turn. unattended_turn. rewrite Hcmd. unfold_turn.
      unattended_turn. unattended_turn.
      rewrite <- !app_assoc. reflexivity.
    + exists 3%nat. eexists.
      unattended_turn. unattended_turn. rewrite Hcmd. unfold_turn.
      unattended_turn.
      split; [eapply unattendedRun_settled; reflexivity | reflexivity].
  - destruct (terminalCmd cfg) as [spec|] eqn:Hcmd.
    + destruct (Harmed c (Z.max c (c + 500))
                  (Z.max c (c + 500) + 1500)
                  (Z.max c (c + 500) + timeoutDelay cfg) f true
                  (es ++ [Spawn spec] ++ [WriteFile ResponseFile]))
        as (fuel & s' & Hrun & Hs).
      exists (3 + fuel)%nat, s'. split; [|exact Hs]. rewrite <- Hrun.
      cbn [Nat.add]. clear Hrun Hs.
      unattended_turn. rewrite Hcmd. unfold_turn.
      unattended_turn. unattended_turn.
      rewrite <- !app_assoc. reflexivity.
    + exists 2%nat. eexists.
      unattended_turn. rewrite Hcmd. unfold_turn.
      unattended_turn.
      split; [eapply unattendedRun_settled; reflexivity | reflexivity].
  - destruct (Harmed st (Z.max c (c + 500))
                (Z.max c (c + 500) + 1500)
                (Z.max c (c + 500) + timeoutDelay cfg) f u es)
      as (fuel & s' & Hrun & Hs).
    exists (2 + fuel)%nat, s'. split; [|exact Hs]. rewrite <- Hrun.
    cbn [Nat.add]. clear Hrun Hs.
    unattended_turn. unattended_turn. reflexivity.
  - destruct (Harmed st (Z.max c due)
                (Z.max c due + 1500)
                (Z.max c due + timeoutDelay cfg) f u es)
      as (fuel & s' & Hrun & Hs).
    exists (1 + fuel)%nat, s'. split; [|exact Hs]. rewrite <- Hrun.
    cbn [Nat.add]. clear Hrun Hs. specialize (H1 due). specialize (H2 due).
    unattended_turn. reflexivity.
Qed.

(** Whatever has happened in a session, left to itself it settles: the
    promise is resolved with the response of the oldest pending cleanup, or
    with the empty string when no cleanup is pending. *)
Lemma unattended_settles (cfg : Config) (tr : list (Z * Event)) hb
    (s : State) :
  run cfg tr initial = Some s -> settled s = None ->
  exists fuel s',
    unattendedRun cfg hb fuel s = Some s'
    /\ settled s' = Some (hd ""%string (cleanups s)).
Proof.
  intros Hrun Hs.
  pose proof (reachable_triggers cfg tr s Hrun) as HT.
  pose proof (reachable_live cfg tr s Hrun Hs) as HL.
  destruct s as [c p u w t h f st rd sts cl se ef].
  cbn [settled] in Hs. subst se.
  destruct cl as [|r rest].
  2: { destruct (unattended_cleanup cfg hb
                   {| clock := c; phase := p; ui := u; watcher := w;
                      timeoutHandle := t; heartbeatInterval := h;
                      heartbeatFileSeen := f; startTime := st; reads := rd;
                      stats := sts; cleanups := r :: rest; settled := None;
                      effects := ef |} r rest O eq_refl eq_refl)
         as (s' & Hr & Hs').
       exists 1%nat, s'. split; assumption. }
  cbn [hd cleanups].
  unfold TriggersInv, Armed, Disarmed in HT.
  cbn [watcher timeoutHandle heartbeatInterval phase cleanups settled reads
       stats] in HT, HL.
  destruct HT as [((Hw & Ht & Hh) & Hp & _ & _)
                 | ((Hw & Ht & Hh) & Hsetup & Hfailed)].
  - subst w p. destruct t as [tm|]; [|congruence].
    destruct h as [i|]; [|congruence].
    apply (unattended_armed cfg hb st tm u ef
             (Z.to_nat (Z.max 0 (tm - i) + 1)) rd sts c i f).
    lia.
  - subst w t h. destruct (inSetup p) eqn:Hp.
    + destruct (Hsetup eq_refl) as (-> & -> & _ & _).
      apply unattended_setup. exact Hp.
    + destruct p; try discriminate.
      * destruct HL as [HL | HL]; congruence.
      * congruence.
Qed.

(** The event of a failure can happen where the failure occurs. *)
Lemma failure_enabled (cfg : Config) (f : Failure) (now : Z) (s : State) :
  clock s <= now -> failureOccurs cfg now f s ->
  exists s1, step cfg now (failureEvent f) s = Some s1.
Proof.
  destruct s as [c p u w t h f0 st rd sts cl se ef].
  cbn [clock]. intros Hnow Happ. apply Z.leb_le in Hnow.
  destruct f; cbn [failureEvent];
    cbn [failureOccurs failureApplies phase ui reads stats heartbeatFileSeen
         startTime timeoutHandle] in Happ;
    unfold_turn; rewrite Hnow.
  - destruct Happ as [-> Hnone]. rewrite Hnone. eauto.
  - subst p. eauto.
  - subst p. destruct (terminalCmd cfg); eauto.
  - subst p. eauto.
  - destruct Happ as (due & -> & Hdue). apply Z.leb_le in Hdue.
    rewrite Hdue. eauto.
  - destruct Happ as (-> & _). eauto.
  - subst u. eauto.
  - destruct rd; [congruence | eauto].
  - destruct Happ as (Hst & _). destruct sts; [congruence | eauto].
  - destruct Happ as (Hst & _). destruct sts; [congruence | eauto].
  - destruct Happ as (Hst & _). destruct sts; [congruence | eauto].
  - destruct sts; [congruence | eauto].
  - destruct Happ as (due & -> & Hdue). apply Z.leb_le in Hdue.
    rewrite Hdue. eauto.
Qed.

(** After the event of a failure no answer is pending: the promise is
    unsettled as before, and the only cleanup there can be resolves with the
    empty string. *)
Lemma failure_leaves_no_answer (cfg : Config) (f : Failure) (now : Z)
    (s s1 : State) :
  settled s = None -> cleanups s = [] ->
  step cfg now (failureEvent f) s = Some s1 ->
  settled s1 = None /\ hd ""%string (cleanups s1) = ""%string.
Proof.
  intros Hs Hc Hstep.
  destruct (step_shape cfg now _ s s1 Hstep)
    as [es Hse Hcl _ _ | r es Hse Hcl _ _ Hr | k r He _ _ _ _].
  - rewrite Hse, Hcl, Hs, Hc. split; reflexivity.
  - rewrite Hse, Hcl, Hs, Hc. split; [reflexivity|]. cbn [app hd].
    destruct Hr as [-> | (data & He & _)]; [reflexivity|].
    destruct f; discriminate.
  - destruct f; discriminate.
Qed.

(** C3: the promise is only ever resolved, and with a string.  In every run
    of a session: an answer the caller receives is the empty string or the
    trimmed content of a successful non-empty read of the response file, and
    the three deletions precede it.  Whatever has happened, a session left
    to itself (pending operations complete, timers fire, nothing fails and
    nothing answers) settles, with the response of the oldest pending
    cleanup or else with the empty string, after the three deletions.  Each
    failure of the specification (no terminal, options write, spawn,
    response-file initialisation, watch, abnormal exit or error with a
    trigger armed, answer read, stale, lost or never-created heartbeat,
    other stat error, timeout) is handled by starting a cleanup whose
    completion calls [resolve] with the empty string, after the three
    deletions.  And after any of these failures, an exit or an error that
    comes before the triggers are armed included, the session left to
    itself resolves with the empty string, whatever the heartbeat file
    does. *)
Theorem C3_failures_resolve_to_empty_string (cfg : Config)
    (tr : list (Z * Event)) (s : State) :
  run cfg tr initial = Some s ->
  (forall r, settled s = Some r -> answered tr r /\ unlinked (effects s))
  /\ (forall hb,
        settled s = None ->
        exists fuel s' tr',
          unattendedRun cfg hb fuel s = Some s'
          /\ run cfg tr' s = Some s'
          /\ settled s' = Some (hd ""%string (cleanups s))
          /\ unlinked (effects s'))
  /\ (forall f now,
        settled s = None -> clock s <= now -> failureApplies cfg now f s ->
        exists s1 s2 es,
          step cfg now (failureEvent f) s = Some s1
          /\ step cfg now (CleanupDone (length (cleanups s))) s1 = Some s2
          /\ settled s2 = Some ""
          /\ effects s2 = effects s ++ es ++ unlinks ++ [Resolve ""]
          /\ noResolve es)
  /\ (forall f now hb,
        settled s = None -> cleanups s = [] -> clock s <= now ->
        failureOccurs cfg now f s ->
        exists s1 fuel s',
          step cfg now (failureEvent f) s = Some s1
          /\ unattendedRun cfg hb fuel s1 = Some s'
          /\ settled s' = Some ""
          /\ unlinked (effects s')).
Proof.
  intros Hrun.
  assert (Hleft : forall tr0 s0 hb,
            run cfg tr0 initial = Some s0 -> settled s0 = None ->
            exists fuel s' tr',
              unattendedRun cfg hb fuel s0 = Some s'
              /\ run cfg tr' s0 = Some s'
              /\ settled s' = Some (hd ""%string (cleanups s0))
              /\ unlinked (effects s')).
  { intros tr0 s0 hb Hrun0 Hs0.
    destruct (unattended_settles cfg tr0 hb s0 Hrun0 Hs0)
      as (fuel & s' & Hu & Hs').
    destruct (unattendedRun_run cfg hb fuel s0 s' Hu) as (tr' & Hrun').
    exists fuel, s', tr'. repeat split; try assumption.
    apply (reachable_clean cfg (tr0 ++ tr') s').
    - rewrite run_app, Hrun0. exact Hrun'.
    - congruence. }
  split; [|split; [|split]].
  - intros r Hr. split.
    + assert (H : Forall (answered tr) (cleanups s)
                  /\ (forall r, settled s = Some r -> answered tr r)).
      { apply (run_answers cfg (answered tr) tr initial s).
        - left. reflexivity.
        - intros t data Hin Ht. right. exists t, data. auto.
        - constructor.
        - discriminate.
        - exact Hrun. }
      apply H. exact Hr.
    + apply (reachable_clean cfg tr s Hrun). congruence.
  - intros hb Hs. exact (Hleft tr s hb Hrun Hs).
  - clear Hrun Hleft. destruct s as [c p u w t h f0 st rd sts cl se ef].
    cbn [settled clock cleanups effects]. intros f now -> Hnow Happ.
    apply Z.leb_le in Hnow.
    destruct f; cbn [failureEvent];
      cbn [failureApplies phase ui reads stats heartbeatFileSeen startTime
           timeoutHandle] in Happ.
    + destruct Happ as [-> Hnone]. fail_catch.
    + subst p. fail_catch.
    + subst p. destruct (terminalCmd cfg) eqn:Hcmd; fail_catch.
    + subst p. fail_catch.
    + destruct Happ as (due & -> & Hdue). apply Z.leb_le in Hdue. fail_catch.
    + destruct Happ as (-> & Hcode & Hw).
      destruct code as [[|?|?]|]; [congruence | | |]; fail_disarm.
    + destruct Happ as (-> & Hw). fail_disarm.
    + destruct rd as [|n]; [congruence|]. fail_disarm.
    + destruct Happ as (Hst & Hold). destruct sts as [|n]; [congruence|].
      assert (Hgt : (now - mtime >? 3000) = true)
        by (apply Z.gtb_lt; lia).
      fail_disarm.
    + destruct Happ as (Hst & ->). destruct sts as [|n]; [congruence|].
      fail_disarm.
    + destruct Happ as (Hst & -> & Hold). destruct sts as [|n]; [congruence|].
      assert (Hgt : (now - st >? 7000) = true) by (apply Z.gtb_lt; lia).
      fail_disarm.
    + destruct sts as [|n]; [congruence|]. destruct hasCode; fail_disarm.
    + destruct Happ as (due & -> & Hdue). apply Z.leb_le in Hdue. fail_disarm.
  - intros f now hb Hs Hc Hnow Hocc.
    destruct (failure_enabled cfg f now s Hnow Hocc) as (s1 & Hstep).
    destruct (failure_leaves_no_answer cfg f now s s1 Hs Hc Hstep)
      as (Hs1 & Hhd).
    destruct (Hleft (tr ++ [(now, failureEvent f)]) s1 hb)
      as (fuel & s' & _ & Hu & _ & Hset & Hun).
    + rewrite run_app, Hrun. cbn [run]. rewrite Hstep. reflexivity.
    + exact Hs1.
    + exists s1, fuel, s'. rewrite Hhd in Hset. repeat split; assumption.
Qed.

Lemma C3_failures_resolve_to_empty_string_witness :
  (exists s, run noTerminalConfig noTerminalTrace initial = Some s
             /\ settled s = Some ""%string
             /\ answered noTerminalTrace ""
             /\ unlinked (effects s))
  /\ (exists s1 fuel s',
        step (sampleConfig 60) 1 UiError earlySpawned = Some s1
        /\ unattendedRun (sampleConfig 60) neverCreated fuel s1 = Some s'
        /\ settled s' = Some ""%string
        /\ unlinked (effects s')).
Proof.
  split.
  - eexists. split; [vm_compute; reflexivity|]. split; [reflexivity|].
    eapply (C3_failures_resolve_to_empty_string noTerminalConfig noTerminalTrace).
    + vm_compute. reflexivity.
    + reflexivity.
  - apply (proj2 (proj2 (proj2
             (C3_failures_resolve_to_empty_string (sampleConfig 60) (firstn 2 earlyErrorTrace) earlySpawned
                eq_refl)))
             ProcessError 1 neverCreated).
    + reflexivity.
    + reflexivity.
    + vm_compute. discriminate.
    + reflexivity.
Defined.

(** ** Trimmed answers *)

Lemma stripPrefix_spec (p l r : list ascii) :
  Js.stripPrefix p l = Some r <-> l = p ++ r.
Proof.
  revert l. induction p as [|a p IH]; intros l; cbn [Js.stripPrefix app].
  - split; [intros H; injection H as ->; reflexivity | intros ->; reflexivity].
  - destruct l as [|b l].
    + split; discriminate.
    + destruct (Ascii.eqb_spec a b) as [->|Hne].
      * rewrite IH. split; [intros ->; reflexivity | intros H; injection H; auto].
      * split; [discriminate | intros H; injection H; congruence].
Qed.

Lemma stripAny_some (ws : list (list ascii)) (l r : list ascii) :
  Js.stripAny ws l = Some r -> exists w, In w ws /\ l = w ++ r.
Proof.
  induction ws as [|w ws IH]; cbn [Js.stripAny]; [discriminate|].
  destruct (Js.stripPrefix w l) as [r'|] eqn:Hp.
  - intros H. injection H as ->. apply stripPrefix_spec in Hp.
    exists w. split; [left; reflexivity | exact Hp].
  - intros H. destruct (IH H) as (w' & Hin & Hl).
    exists w'. split; [right; exact Hin | exact Hl].
Qed.

Lemma stripAny_none (ws : list (list ascii)) (l : list ascii) :
  Js.stripAny ws l = None <-> forall w r, In w ws -> l <> w ++ r.
Proof.
  induction ws as [|w ws IH]; cbn [Js.stripAny].
  - split; [intros _ w r [] | reflexivity].
  - destruct (Js.stripPrefix w l) as [r'|] eqn:Hp.
    + apply stripPrefix_spec in Hp. split; [discriminate|].
      intros H. exfalso. apply (H w r'); [left; reflexivity | exact Hp].
    + rewrite IH. split.
      * intros H w' r [<-|Hin] Hl; [|exact (H w' r Hin Hl)].
        apply stripPrefix_spec in Hl. congruence.
      * intros H w' r Hin. apply H. right. exact Hin.
Qed.

Lemma stripLeading_fixed (ws : list (list ascii)) (n : nat) (l : list ascii) :
  Js.stripAny ws l = None -> Js.stripLeading ws n l = l.
Proof.
  intros H. destruct n; cbn [Js.stripLeading]; [|rewrite H]; reflexivity.
Qed.

Lemma stripLeading_done (ws : list (list ascii)) :
  (forall w, In w ws -> w <> []) ->
  forall n l, (length l <= n)%nat ->
              Js.stripAny ws (Js.stripLeading ws n l) = None.
Proof.
  intros Hne. induction n as [|n IH]; intros l Hn; cbn [Js.stripLeading].
  - destruct l; [|cbn in Hn; lia].
    apply stripAny_none. intros w r Hin H.
    symmetry in H. apply app_eq_nil in H. destruct H as [H _].
    exact (Hne w Hin H).
  - destruct (Js.stripAny ws l) as [r|] eqn:Hs; [|exact Hs].
    apply IH. destruct (stripAny_some ws l r Hs) as (w & Hin & ->).
    rewrite length_app in Hn. specialize (Hne w Hin).
    destruct w; [congruence | cbn [length] in Hn; lia].
Qed.

Lemma stripLeading_suffix (ws : list (list ascii)) (n : nat) (l : list ascii) :
  exists pre, l = pre ++ Js.stripLeading ws n l.
Proof.
  revert l. induction n as [|n IH]; intros l; cbn [Js.stripLeading].
  - exists []. reflexivity.
  - destruct (Js.stripAny ws l) as [r|] eqn:Hs; [|exists []; reflexivity].
    destruct (stripAny_some ws l r Hs) as (w & _ & ->).
    destruct (IH r) as (pre & Hr). exists (w ++ pre).
    rewrite <- app_assoc, <- Hr. reflexivity.
Qed.

Lemma whiteSpace_nonempty (w : list ascii) : In w Js.whiteSpace -> w <> [].
Proof.
  unfold Js.whiteSpace, Js.bytes. cbn [In map].
  intros H. repeat (destruct H as [<-|H]; [discriminate|]). destruct H.
Qed.

Lemma rev_whiteSpace_nonempty (w : list ascii) :
  In w (map (@rev ascii) Js.whiteSpace) -> w <> [].
Proof.
  intros H. apply in_map_iff in H. destruct H as (w' & <- & Hin).
  intros Hnil. apply whiteSpace_nonempty in Hin.
  apply Hin. rewrite <- (rev_involutive w'), Hnil. reflexivity.
Qed.

(** A trimmed string does not start with white space. *)
Lemma trim_no_leading (s : string) :
  Js.stripAny Js.whiteSpace (list_ascii_of_string (Js.trim s)) = None.
Proof.
  unfold Js.trim, Js.trimEnd, Js.trimStart.
  rewrite !list_ascii_of_string_of_list_ascii.
  set (l := Js.stripLeading Js.whiteSpace _ (list_ascii_of_string s)).
  assert (Hl : Js.stripAny Js.whiteSpace l = None).
  { apply (stripLeading_done _ whiteSpace_nonempty). apply Nat.le_refl. }
  destruct (stripLeading_suffix (map (@rev ascii) Js.whiteSpace)
              (length l) (rev l)) as (pre & Hpre).
  set (t := Js.stripLeading _ _ (rev l)) in *.
  apply stripAny_none. intros w r Hin Ht.
  assert (Hrev : l = rev t ++ rev pre).
  { rewrite <- rev_app_distr, <- Hpre, rev_involutive. reflexivity. }
  rewrite Ht, <- app_assoc in Hrev.
  exact (proj1 (stripAny_none _ _) Hl w _ Hin Hrev).
Qed.

(** A trimmed string does not end with white space. *)
Lemma trim_no_trailing (s : string) :
  Js.stripAny (map (@rev ascii) Js.whiteSpace)
    (rev (list_ascii_of_string (Js.trim s))) = None.
Proof.
  unfold Js.trim, Js.trimEnd.
  rewrite list_ascii_of_string_of_list_ascii, rev_involutive.
  apply (stripLeading_done _ rev_whiteSpace_nonempty).
  rewrite length_rev. apply Nat.le_refl.
Qed.

(** [trim] leaves a trimmed string as it is. *)
Lemma trim_idempotent (s : string) : Js.trim (Js.trim s) = Js.trim s.
Proof.
  pose proof (trim_no_leading s) as Hl.
  pose proof (trim_no_trailing s) as Ht.
  generalize dependent (Js.trim s). intros r Hl Ht.
  unfold Js.trim, Js.trimEnd, Js.trimStart.
  rewrite (stripLeading_fixed _ _ _ Hl), string_of_list_ascii_of_string.
  rewrite (stripLeading_fixed _ _ _ Ht), rev_involutive.
  apply string_of_list_ascii_of_string.
Qed.

(** The answer the caller receives is trimmed: no white space or line
    terminator of ECMAScript stands at its start or at its end, and
    trimming it again changes nothing. *)
Theorem answers_are_trimmed (cfg : Config) (tr : list (Z * Event))
    (s : State) (r : string) :
  run cfg tr initial = Some s -> settled s = Some r ->
  Js.trim r = r
  /\ forall w rest,
       In w Js.whiteSpace ->
       list_ascii_of_string r <> w ++ rest
       /\ list_ascii_of_string r <> rest ++ w.
Proof.
  intros Hrun Hs.
  assert (H : Forall (fun x => exists d, x = Js.trim d) (cleanups s)
              /\ (forall x, settled s = Some x -> exists d, x = Js.trim d)).
  { apply (run_answers cfg (fun x => exists d, x = Js.trim d) tr initial s).
    - exists ""%string. reflexivity.
    - intros t data _ _. exists data. reflexivity.
    - constructor.
    - discriminate.
    - exact Hrun. }
  destruct H as [_ H]. destruct (H r Hs) as (d & ->).
  split; [apply trim_idempotent|]. intros w rest Hin. split.
  - exact (proj1 (stripAny_none _ _) (trim_no_leading d) w rest Hin).
  - intros Heq.
    apply (proj1 (stripAny_none _ _) (trim_no_trailing d) (rev w) (rev rest)).
    + apply in_map. exact Hin.
    + rewrite Heq. apply rev_app_distr.
Qed.

Lemma answers_are_trimmed_witness :
  Js.trim "yes" = "yes"%string.
Proof.
  pose (nbsp := String "194"%char (String "160"%char EmptyString)).
  pose (tr := [(0, Call); (0, OptionsWritten true true);
               (0, ResponseInitialised true); (500, DelayElapsed true);
               (600, WatchEvent "change");
               (600, ReadDone (ReadOk (nbsp ++ " yes " ++ nbsp)%string));
               (600, CleanupDone 0)]).
  eapply (answers_are_trimmed (sampleConfig 5) tr
            (match run (sampleConfig 5) tr initial with
             | Some s => s
             | None => initial
             end) "yes").
  - vm_compute. reflexivity.
  - vm_compute. reflexivity.
Defined.

(** ** The prompt components *)

Section PromptFacts.

Import JsString InteractiveInput.
Local Open Scope string_scope.
Local Open Scope Z_scope.

Lemma length_append (a b : string) :
  length (a ++ b) = length a + length b.
Proof.
  unfold length. induction a as [|c a IH]; cbn [String.append String.length].
  - lia.
  - lia.
Qed.

Lemma length_nonneg (s : string) : 0 <= length s.
Proof. unfold length. lia. Qed.

Lemma take_append (a b : string) : take (String.length a) (a ++ b) = a.
Proof.
  induction a as [|c a IH]; cbn [String.append String.length take].
  - destruct b; reflexivity.
  - rewrite IH. reflexivity.
Qed.

Lemma drop_append (a b : string) : drop (String.length a) (a ++ b) = b.
Proof.
  induction a as [|c a IH]; cbn [String.append String.length drop].
  - destruct b; reflexivity.
  - exact IH.
Qed.

Lemma take_all (s : string) (n : nat) :
  (String.length s <= n)%nat -> take n s = s.
Proof.
  revert n. induction s as [|c s IH]; intros n Hn.
  - destruct n; reflexivity.
  - destruct n; cbn [String.length] in Hn; [lia|].
    cbn [take]. rewrite IH by lia. reflexivity.
Qed.

Lemma take_drop (s : string) (n : nat) : take n s ++ drop n s = s.
Proof.
  revert n. induction s as [|c s IH]; intros [|n]; cbn; try reflexivity.
  rewrite IH. reflexivity.
Qed.

Lemma length_take (s : string) (n : nat) :
  (n <= String.length s)%nat -> String.length (take n s) = n.
Proof.
  revert n. induction s as [|c s IH]; intros [|n] Hn; cbn in *;
    try reflexivity; try lia.
  rewrite IH by lia. reflexivity.
Qed.

Lemma append_assoc (a b c : string) : (a ++ b) ++ c = a ++ b ++ c.
Proof.
  induction a as [|x a IH]; cbn; [reflexivity | now rewrite IH].
Qed.

Lemma append_empty (a : string) : a ++ "" = a.
Proof.
  induction a as [|x a IH]; cbn; [reflexivity | now rewrite IH].
Qed.

(** The two slices at a cursor between [a] and [b]. *)
Lemma slice_before (a b : string) : slice (a ++ b) 0 (length a) = a.
Proof.
  unfold slice, relativeIndex. rewrite length_append.
  pose proof (length_nonneg a) as Ha. pose proof (length_nonneg b) as Hb.
  replace (0 <? 0) with false by reflexivity.
  destruct (length a <? 0) eqn:Hlt; [apply Z.ltb_lt in Hlt; lia|].
  rewrite (Z.min_l 0) by lia. rewrite (Z.min_l (length a)) by lia.
  rewrite Z.sub_0_r, Z.max_l by lia.
  cbn [Z.to_nat drop]. unfold length. rewrite Nat2Z.id.
  replace (drop 0 (a ++ b)) with (a ++ b) by (destruct (a ++ b); reflexivity).
  apply take_append.
Qed.

Lemma slice_after (a b : string) : sliceFrom (a ++ b) (length a) = b.
Proof.
  unfold sliceFrom, slice, relativeIndex. rewrite length_append.
  pose proof (length_nonneg a) as Ha. pose proof (length_nonneg b) as Hb.
  destruct (length a <? 0) eqn:Hlt; [apply Z.ltb_lt in Hlt; lia|].
  destruct (length a + length b <? 0) eqn:Hlt'; [apply Z.ltb_lt in Hlt'; lia|].
  rewrite (Z.min_l (length a)) by lia. rewrite Z.min_id.
  replace (length a + length b - length a) with (length b) by lia.
  rewrite Z.max_l by lia. unfold length. rewrite !Nat2Z.id.
  rewrite drop_append. apply take_all. lia.
Qed.

(** A cursor inside the text splits it in two. *)
Lemma cursor_splits (s : State) :
  CursorInside s <->
  exists a b, customValue s = a ++ b /\ cursorPosition s = length a.
Proof.
  unfold CursorInside. split.
  - intros [H0 H1].
    exists (take (Z.to_nat (cursorPosition s)) (customValue s)),
           (drop (Z.to_nat (cursorPosition s)) (customValue s)).
    split; [symmetry; apply take_drop|].
    unfold length in *. rewrite length_take by lia. lia.
  - intros (a & b & -> & ->). rewrite length_append.
    pose proof (length_nonneg a). pose proof (length_nonneg b). lia.
Qed.

Lemma one_char (input : string) :
  (length input =? 1) = true -> exists c, input = String c "".
Proof.
  intros H. apply Z.eqb_eq in H. unfold length in H.
  destruct input as [|c [|d r]]; cbn in H; try lia.
  exists c. reflexivity.
Qed.

Lemma last_char (a : string) :
  0 < length a -> exists a' c, a = a' ++ String c "".
Proof.
  induction a as [|x a IH]; intros H; [unfold length in H; cbn in H; lia|].
  destruct a as [|y a'].
  - exists "", x. reflexivity.
  - destruct IH as (a'' & c & Ha); [unfold length; cbn; lia|].
    exists (String x a''), c. rewrite Ha. reflexivity.
Qed.

Ltac split_ifs :=
  repeat match goal with
         | |- context [if ?b then _ else _] => destruct b eqn:?
         end.

Ltac bools :=
  repeat match goal with
         | H : (_ && _) = true |- _ =>
             apply andb_prop in H; destruct H
         | H : (_ <? _) = true |- _ => apply Z.ltb_lt in H
         | H : (_ <? _) = false |- _ => apply Z.ltb_ge in H
         | H : (_ =? _) = true |- _ => apply Z.eqb_eq in H
         end.

(** One key event keeps the cursor inside the text. *)
Lemma press_cursor (p : Props) (s : State) (input : string) (key : Key) :
  CursorInside s -> CursorInside (press p s input key).
Proof.
  intros H. apply cursor_splits in H. destruct H as (a & b & Hv & Hc).
  pose proof (length_nonneg a) as Ha. pose proof (length_nonneg b) as Hb.
  destruct s as [m i v c]. cbn [customValue cursorPosition] in *. subst v c.
  unfold press, useInput.
  cbn [mode selectedIndex customValue cursorPosition].
  rewrite ?length_append.
  split_ifs; unfold CursorInside, commit, nothing;
    cbn [setMode setSelectedIndex setCustomValue setCursorPosition apply
         mode selectedIndex customValue cursorPosition];
    rewrite ?length_append; try lia; bools.
  - (* delete *)
    destruct b as [|y b']; [unfold length in *; cbn in *; lia|].
    rewrite slice_before.
    replace (a ++ String y b') with ((a ++ String y "") ++ b')
      by (rewrite append_assoc; reflexivity).
    replace (length a + 1) with (length (a ++ String y ""))
      by (rewrite length_append; reflexivity).
    rewrite slice_after.
    pose proof (length_nonneg b'). lia.
  - (* backspace *)
    match goal with H : 0 < length a |- _ =>
      destruct (last_char a H) as (a' & y & ->) end.
    rewrite slice_after.
    rewrite append_assoc.
    replace (length (a' ++ String y "") - 1) with (length a')
      by (rewrite length_append; unfold length; cbn; lia).
    rewrite slice_before.
    rewrite length_append in *. pose proof (length_nonneg a').
    change (length (String y "")) with 1 in *. lia.
  - (* a character *)
    rewrite slice_before, slice_after. lia.
Qed.

(** An invariant of one key event holds after any sequence of them. *)
Lemma presses_invariant (p : Props) (P : State -> Prop) :
  (forall s input key, P s -> P (press p s input key)) ->
  forall keys s, P s -> P (fst (presses p keys s)).
Proof.
  intros Hstep keys. induction keys as [|[input key] keys IH]; intros s Hs.
  - exact Hs.
  - cbn [presses]. specialize (IH _ (Hstep s input key Hs)).
    destruct (presses p keys (press p s input key)) as [s' calls].
    exact IH.
Qed.

Lemma presses_app (p : Props) (ks ks' : list (string * Key)) (s : State) :
  presses p (ks ++ ks')%list s
  = let (s1, calls1) := presses p ks s in
    let (s2, calls2) := presses p ks' s1 in
    (s2, (calls1 ++ calls2)%list).
Proof.
  revert s. induction ks as [|[input key] ks IH]; intros s.
  - cbn [app presses]. destruct (presses p ks' s). reflexivity.
  - cbn [app presses]. rewrite IH.
    destruct (presses p ks (press p s input key)) as [s1 calls1].
    destruct (presses p ks' s1) as [s2 calls2].
    destruct (onSubmit (useInput p s input key)); reflexivity.
Qed.

Lemma mounted_cursor (p : Props) : CursorInside (mounted p).
Proof.
  unfold mounted, useEffect, CursorInside.
  destruct (predefinedOptions p) as [[|o opts]|]; cbn; lia.
Qed.

Lemma mounted_selection (p : Props) : SelectionInside p (mounted p).
Proof.
  unfold mounted, useEffect, SelectionInside, hasOptions, optionsLength.
  destruct (predefinedOptions p) as [[|o opts]|]; cbn [commit setMode mode];
    try reflexivity.
  cbn. lia.
Qed.

Lemma press_selection (p : Props) (s : State) (input : string) (key : Key) :
  SelectionInside p s -> SelectionInside p (press p s input key).
Proof.
  unfold SelectionInside, press, useInput.
  destruct (hasOptions p) eqn:Hopt; intros H.
  - rewrite andb_true_r.
    assert (Hn : 0 < optionsLength p).
    { unfold hasOptions, optionsLength in *.
      destruct (predefinedOptions p) as [[|o opts]|]; try discriminate.
      cbn. lia. }
    split_ifs; unfold commit, nothing;
      cbn [setMode setSelectedIndex setCustomValue setCursorPosition apply
           mode selectedIndex customValue cursorPosition];
      split_ifs; bools; lia.
  - rewrite andb_false_r.
    split_ifs; unfold commit, nothing;
      cbn [setMode setSelectedIndex setCustomValue setCursorPosition apply
           mode selectedIndex customValue cursorPosition];
      try reflexivity; try exact H.
    all: destruct (mode s); try discriminate; reflexivity.
Qed.

Lemma index_In {A : Type} (xs : list A) (i : Z) (x : A) :
  index xs i = Some x -> In x xs.
Proof.
  unfold index. destruct (0 <=? i); [|discriminate].
  apply nth_error_In.
Qed.

Lemma index_inside {A : Type} (xs : list A) (i : Z) :
  0 <= i < Z.of_nat (List.length xs) -> exists x, index xs i = Some x.
Proof.
  intros H. unfold index.
  destruct (0 <=? i) eqn:Hi; [|apply Z.leb_gt in Hi; lia].
  destruct (nth_error xs (Z.to_nat i)) as [x|] eqn:Hx; [eauto|].
  apply nth_error_None in Hx. lia.
Qed.

Lemma truthy_false (s : string) : Js.truthy s = false -> s = "".
Proof.
  unfold Js.truthy. intros H. apply negb_false_iff in H.
  apply String.eqb_eq in H. exact H.
Qed.


(** A key event calls [onSubmit] only for the return key, and with the
    question's id; in custom mode it passes the typed text and in option
    mode one of the predefined options, so the fallback to the empty string
    is never what is submitted in place of an option. *)
Theorem submits_the_text_or_a_listed_option (p : Props)
    (keys : list (string * Key)) (input : string) (key : Key)
    (value : string) (id : option string) :
  onSubmit (useInput p (fst (presses p keys (mounted p))) input key)
    = Some (value, id) ->
  return_ key = true /\ id = questionId p
  /\ match mode (fst (presses p keys (mounted p))) with
     | CustomMode =>
         value = customValue (fst (presses p keys (mounted p)))
     | OptionMode =>
         exists opts, predefinedOptions p = Some opts /\ In value opts
     end.
Proof.
  assert (Hsel : SelectionInside p (fst (presses p keys (mounted p)))).
  { apply (presses_invariant p (SelectionInside p)).
    - intros s i k. apply press_selection.
    - apply mounted_selection. }
  generalize dependent (fst (presses p keys (mounted p))). intros s Hsel.
  unfold useInput, nothing.
  split_ifs; cbn [onSubmit]; try discriminate.
  - intros H. injection H as <- <-. split; [reflexivity|].
    split; [reflexivity|]. destruct (mode s); try discriminate. reflexivity.
  - intros H. injection H as <- <-. split; [reflexivity|].
    split; [reflexivity|].
    destruct (mode s) eqn:Hm; try discriminate.
    unfold SelectionInside, hasOptions, optionsLength, optionOrEmpty in *.
    destruct (predefinedOptions p) as [[|o opts]|];
      try (rewrite Hm in Hsel; discriminate).
    exists (o :: opts). split; [reflexivity|].
    destruct (index_inside (o :: opts) (selectedIndex s) Hsel) as (x & Hx).
    rewrite Hx. destruct (Js.truthy x) eqn:Ht.
    + apply (index_In _ _ _ Hx).
    + apply truthy_false in Ht. subst x. apply (index_In _ _ _ Hx).
Qed.

Lemma submits_the_text_or_a_listed_option_witness :
  return_ (snd Enter) = true /\ Some "q1" = Some "q1"
  /\ exists opts, Some ["yes"; "no"] = Some opts /\ In "no" opts.
Proof.
  exact (submits_the_text_or_a_listed_option
           {| question := "Proceed?"; questionId := Some "q1";
              predefinedOptions := Some ["yes"; "no"] |}
           [Down] (fst Enter) (snd Enter) "no" (Some "q1") eq_refl).
Defined.

(** A key that is none of the special ones, or the character of such a key
    taken alone: what the handler does with it depends on the cursor only. *)
Lemma press_Char (p : Props) (m : Mode) (i : Z) (a b : string) (c : ascii) :
  press p {| mode := m; selectedIndex := i; customValue := a ++ b;
             cursorPosition := length a |} (String c "") plain
  = {| mode := CustomMode; selectedIndex := i;
       customValue := a ++ String c b;
       cursorPosition := length (a ++ String c "") |}.
Proof.
  unfold press, useInput, plain, commit.
  cbn [upArrow downArrow leftArrow rightArrow return_ backspace
       delete ctrl meta orb andb negb mode selectedIndex customValue
       cursorPosition].
  replace (Js.truthy (String c "")) with true by reflexivity.
  replace (length (String c "") =? 1) with true by reflexivity.
  cbn [andb setMode setSelectedIndex setCustomValue setCursorPosition apply].
  rewrite slice_before, slice_after, length_append. reflexivity.
Qed.

Lemma press_Backspace (p : Props) (i : Z) (a b : string) (c : ascii) :
  press p {| mode := CustomMode; selectedIndex := i;
             customValue := a ++ String c b;
             cursorPosition := length (a ++ String c "") |}
        "" (snd Backspace)
  = {| mode := CustomMode; selectedIndex := i; customValue := a ++ b;
       cursorPosition := length a |}.
Proof.
  unfold press, useInput, Backspace, commit.
  cbn [fst snd upArrow downArrow leftArrow rightArrow return_ backspace
       delete ctrl meta orb andb negb mode selectedIndex customValue
       cursorPosition Mode_eqb].
  pose proof (length_nonneg a) as Ha.
  assert (Hlen : length (a ++ String c "") = length a + 1)
    by (rewrite length_append; reflexivity).
  destruct (0 <? length (a ++ String c "")) eqn:Hpos;
    [|apply Z.ltb_ge in Hpos; lia].
  cbn [setMode setSelectedIndex setCustomValue setCursorPosition apply].
  replace (a ++ String c b) with ((a ++ String c "") ++ b)
    by (rewrite append_assoc; reflexivity).
  rewrite slice_after. rewrite append_assoc.
  replace (length (a ++ String c "") - 1) with (length a) by lia.
  rewrite slice_before. reflexivity.
Qed.

Lemma presses_typed (p : Props) (text : string) :
  forall (m : Mode) (i : Z) (a b : string),
    presses p (typed text)
      {| mode := m; selectedIndex := i; customValue := a ++ b;
         cursorPosition := length a |}
    = ({| mode := match text with EmptyString => m | _ => CustomMode end;
          selectedIndex := i;
          customValue := a ++ text ++ b;
          cursorPosition := length (a ++ text) |}, []).
Proof.
  induction text as [|c text IH]; intros m i a b.
  - cbn [typed presses String.append]. rewrite append_empty. reflexivity.
  - cbn [typed]. unfold Char. cbn [presses].
    rewrite press_Char.
    replace (a ++ String c b) with ((a ++ String c "") ++ b)
      by (rewrite append_assoc; reflexivity).
    rewrite IH.
    replace (onSubmit (useInput p _ (String c "") plain)) with
      (@None (string * option string)).
    + rewrite !append_assoc. cbn [String.append].
      destruct text; reflexivity.
    + unfold useInput, plain, nothing.
      cbn [upArrow downArrow leftArrow rightArrow return_ backspace
           delete ctrl meta orb andb negb].
      split_ifs; reflexivity.
Qed.









Lemma press_Down (p : Props) (s : State) :
  hasOptions p = true ->
  0 <= selectedIndex s < optionsLength p ->
  press p s "" (snd Down)
  = {| mode := OptionMode;
       selectedIndex := (selectedIndex s + 1) mod optionsLength p;
       customValue := customValue s;
       cursorPosition := cursorPosition s |}.
Proof.
  intros Hopt Hi. unfold press, useInput, Down. rewrite Hopt.
  cbn [snd upArrow downArrow orb andb]. unfold commit.
  cbn [setMode setSelectedIndex setCustomValue setCursorPosition apply].
  f_equal.
  destruct (selectedIndex s <? optionsLength p - 1) eqn:Hlt; bools.
  - rewrite Z.mod_small by lia. reflexivity.
  - replace (selectedIndex s + 1) with (optionsLength p) by lia.
    rewrite Z.mod_same by lia. reflexivity.
Qed.

Lemma press_Up (p : Props) (s : State) :
  hasOptions p = true ->
  0 <= selectedIndex s < optionsLength p ->
  press p s "" (snd Up)
  = {| mode := OptionMode;
       selectedIndex := (selectedIndex s - 1) mod optionsLength p;
       customValue := customValue s;
       cursorPosition := cursorPosition s |}.
Proof.
  intros Hopt Hi. unfold press, useInput, Up. rewrite Hopt.
  cbn [snd upArrow downArrow orb andb]. unfold commit.
  cbn [setMode setSelectedIndex setCustomValue setCursorPosition apply].
  f_equal.
  destruct (0 <? selectedIndex s) eqn:Hlt; bools.
  - rewrite Z.mod_small by lia. reflexivity.
  - replace (selectedIndex s - 1) with (-1) by lia.
    replace (-1) with (optionsLength p - 1 + (-1) * optionsLength p) by lia.
    rewrite Z.mod_add by lia. rewrite Z.mod_small by lia. reflexivity.
Qed.

(** The arrow keys walk the options as a cycle: [k] presses of the down
    arrow move the selection [k] places forward modulo the number of
    options, [k] presses of the up arrow [k] places backward, so as many
    presses as there are options come back to the same one, and either
    key undoes the other. *)
Theorem arrows_cycle_through_the_options (p : Props) (s : State) (k : nat) :
  hasOptions p = true ->
  0 <= selectedIndex s < optionsLength p ->
  selectedIndex (fst (presses p (repeat Down k) s))
  = (selectedIndex s + Z.of_nat k) mod optionsLength p
  /\ selectedIndex (fst (presses p (repeat Up k) s))
     = (selectedIndex s - Z.of_nat k) mod optionsLength p.
Proof.
  intros Hopt. revert s.
  assert (Hn : 0 < optionsLength p).
  { unfold hasOptions, optionsLength in *.
    destruct (predefinedOptions p) as [[|o opts]|]; try discriminate.
    cbn. lia. }
  induction k as [|k IH]; intros s Hi.
  - cbn [repeat presses fst]. rewrite Z.add_0_r, Z.sub_0_r.
    rewrite Z.mod_small by lia. auto.
  - cbn [repeat]. split.
    + unfold Down at 1. cbn [presses].
      change {| upArrow := false; downArrow := true; leftArrow := false;
                rightArrow := false; return_ := false; backspace := false;
                delete := false; ctrl := false; meta := false |}
        with (snd Down).
      rewrite press_Down by assumption.
      match goal with |- context [presses p _ ?s'] =>
        destruct (IH s') as [IHd _];
          [cbn [selectedIndex]; apply Z.mod_pos_bound; lia|];
          destruct (presses p (repeat Down k) s') as [s2 calls] end.
      cbn [fst selectedIndex] in *. rewrite IHd.
      rewrite Zplus_mod_idemp_l. f_equal. lia.
    + unfold Up at 1. cbn [presses].
      change {| upArrow := true; downArrow := false; leftArrow := false;
                rightArrow := false; return_ := false; backspace := false;
                delete := false; ctrl := false; meta := false |}
        with (snd Up).
      rewrite press_Up by assumption.
      match goal with |- context [presses p _ ?s'] =>
        destruct (IH s') as [_ IHu];
          [cbn [selectedIndex]; apply Z.mod_pos_bound; lia|];
          destruct (presses p (repeat Up k) s') as [s2 calls] end.
      cbn [fst selectedIndex] in *. rewrite IHu.
      rewrite Zminus_mod_idemp_l. f_equal. lia.
Qed.

Lemma arrows_cycle_through_the_options_witness :
  selectedIndex (fst (presses
    {| question := "Which?"; questionId := None;
       predefinedOptions := Some ["a"; "b"; "c"] |}
    (repeat Down 4)
    {| mode := OptionMode; selectedIndex := 1; customValue := "";
       cursorPosition := 0 |}))
  = 2.
Proof.
  refine (proj1 (arrows_cycle_through_the_options
    {| question := "Which?"; questionId := None;
       predefinedOptions := Some ["a"; "b"; "c"] |}
    {| mode := OptionMode; selectedIndex := 1; customValue := "";
       cursorPosition := 0 |} 4 eq_refl _)).
  vm_compute. split; [discriminate | reflexivity].
Defined.

(** The input line shows the whole typed text: the part before the cursor,
    the highlighted character under it and the part after it make up the
    text, and no character is highlighted exactly when the cursor is after
    the end. *)
Theorem input_line_shows_the_text (s : State) :
  0 <= cursorPosition s <= length (customValue s) ->
  beforeCursor s
    ++ match charUnderCursor s with Some c => c | None => "" end
    ++ afterCursor s
  = customValue s
  /\ (charUnderCursor s = None
      <-> cursorPosition s = length (customValue s)).
Proof.
  intros H. apply (proj1 (cursor_splits s)) in H.
  destruct H as (a & b & Hv & Hc).
  destruct s as [m i v c]. cbn [customValue cursorPosition] in *. subst v c.
  unfold beforeCursor, afterCursor, charUnderCursor, charAt.
  cbn [customValue cursorPosition].
  pose proof (length_nonneg a) as Ha.
  rewrite slice_before, length_append.
  destruct (0 <=? length a) eqn:H0; [|apply Z.leb_gt in H0; lia].
  replace (Z.to_nat (length a)) with (String.length a)
    by (unfold length; rewrite Nat2Z.id; reflexivity).
  rewrite drop_append. cbn [andb].
  destruct b as [|y b].
  - replace (length "") with 0 by reflexivity.
    rewrite Z.add_0_r, Z.ltb_irrefl.
    replace (sliceFrom (a ++ "") (length a + 1)) with "".
    + rewrite append_empty. cbn [String.append]. rewrite append_empty.
      split; [reflexivity | split; reflexivity].
    + rewrite append_empty. unfold sliceFrom, slice, relativeIndex.
      destruct (length a + 1 <? 0) eqn:H1; [apply Z.ltb_lt in H1; lia|].
      destruct (length a <? 0) eqn:H2; [apply Z.ltb_lt in H2; lia|].
      rewrite !Z.min_r by lia. rewrite Z.sub_diag.
      reflexivity.
  - assert (Hb : length (String y b) = 1 + length b)
      by (unfold length; cbn [String.length]; lia).
    pose proof (length_nonneg b) as Hb0.
    destruct (length a <? length a + length (String y b)) eqn:H1;
      [|apply Z.ltb_ge in H1; lia].
    cbn [take]. replace (take 0 b) with "" by (destruct b; reflexivity).
    replace (Js.truthy (String y "")) with true by reflexivity.
    replace (a ++ String y b) with ((a ++ String y "") ++ b)
      by (rewrite append_assoc; reflexivity).
    replace (length a + 1) with (length (a ++ String y ""))
      by (rewrite length_append; reflexivity).
    rewrite slice_after. split; [rewrite append_assoc; reflexivity|].
    split; [discriminate | lia].
Qed.

Lemma input_line_shows_the_text_witness :
  ("he" ++ "l" ++ "lo") = "hello".
Proof.
  refine (proj1 (input_line_shows_the_text
    {| mode := CustomMode; selectedIndex := 0; customValue := "hello";
       cursorPosition := 2 |} _)).
  vm_compute. split; discriminate.
Defined.

(** *** Key events and renders *)

(** With a render after every key, each key is taken by the handler of the
    state it finds. *)
Lemma deliver_oneByOne (p : Props) (keys : list (string * Key)) :
  forall s,
    deliver p (oneByOne keys) (rendered s)
    = (rendered (fst (presses p keys s)), snd (presses p keys s)).
Proof.
  induction keys as [|[input key] keys IH]; intros s; [reflexivity|].
  cbn [oneByOne flat_map app fst snd deliver deliver1 rendered view latest
       presses].
  change (flat_map (fun k => [KeyEvent (fst k) (snd k); Render]) keys)
    with (oneByOne keys).
  change {| view := commit (useInput p s input key) s;
            latest := commit (useInput p s input key) s |}
    with (rendered (press p s input key)).
  rewrite IH.
  destruct (presses p keys (press p s input key)) as [s' calls].
  reflexivity.
Qed.

Lemma length_reversed (text : string) : length (reversed text) = length text.
Proof.
  unfold reversed, length.
  rewrite <- (string_of_list_ascii_of_string text) at 2.
  generalize (list_ascii_of_string text). intros l.
  assert (H : forall l0, String.length (string_of_list_ascii l0)
                         = List.length l0).
  { induction l0 as [|x l0 IH]; cbn; [reflexivity | now rewrite IH]. }
  rewrite !H, length_rev. reflexivity.
Qed.

Lemma reversed_cons (c : ascii) (text : string) :
  reversed (String c text) = reversed text ++ String c "".
Proof.
  unfold reversed. cbn [list_ascii_of_string rev].
  generalize (rev (list_ascii_of_string text)). intros l.
  induction l as [|x l IH]; cbn; [reflexivity | now rewrite IH].
Qed.

(** The characters of a text taken by one handler: each is inserted where
    the cursor was at the render of that handler. *)
Lemma together_typed (p : Props) (m : Mode) (i : Z) (a b : string)
    (text : string) :
  forall (m' : Mode) (x : string),
    deliver p (together (typed text))
      {| view := {| mode := m; selectedIndex := i; customValue := a ++ b;
                    cursorPosition := length a |};
         latest := {| mode := m'; selectedIndex := i;
                      customValue := a ++ x ++ b;
                      cursorPosition := length a + length x |} |}
    = ({| view := {| mode := m; selectedIndex := i; customValue := a ++ b;
                     cursorPosition := length a |};
          latest := {| mode := match text with
                               | EmptyString => m'
                               | _ => CustomMode
                               end;
                       selectedIndex := i;
                       customValue := a ++ (reversed text ++ x) ++ b;
                       cursorPosition
                       := length a + (length text + length x) |} |},
       []).
Proof.
  induction text as [|c text IH]; intros m' x.
  - cbn [typed together map deliver]. reflexivity.
  - cbn [typed together map]. unfold Char at 1. cbn [fst snd deliver].
    change (map (fun k => KeyEvent (fst k) (snd k)) (typed text))
      with (together (typed text)).
    assert (Hu : useInput p {| mode := m; selectedIndex := i;
                               customValue := a ++ b;
                               cursorPosition := length a |}
                   (String c "") plain
                 = {| setMode := Some CustomMode;
                      setCustomValue := Some (fun prev =>
                        slice prev 0 (length a) ++ String c ""
                        ++ sliceFrom prev (length a));
                      setCursorPosition := Some (fun prev => prev + 1);
                      setSelectedIndex := None; onSubmit := None |}).
    { unfold useInput, plain.
      cbn [upArrow downArrow leftArrow rightArrow return_ backspace delete
           ctrl meta orb andb negb mode selectedIndex customValue
           cursorPosition].
      replace (Js.truthy (String c "")) with true by reflexivity.
      replace (length (String c "") =? 1) with true by reflexivity.
      reflexivity. }
    cbn [deliver1 view latest fst snd]. change (snd (Char c)) with plain.
    rewrite Hu.
    unfold commit.
    cbn [setMode setSelectedIndex setCustomValue setCursorPosition onSubmit
         apply mode selectedIndex customValue cursorPosition].
    rewrite slice_before, slice_after.
    replace (a ++ String c "" ++ x ++ b) with (a ++ (String c "" ++ x) ++ b)
      by reflexivity.
    replace (length a + length x + 1)
      with (length a + length (String c "" ++ x))
      by (rewrite length_append; change (length (String c "")) with 1; lia).
    rewrite IH.
    assert (E1 : match text with
                 | EmptyString => CustomMode
                 | String _ _ => CustomMode
                 end = CustomMode) by (destruct text; reflexivity).
    assert (E2 : reversed text ++ (String c "" ++ x)
                 = reversed (String c text) ++ x)
      by (rewrite reversed_cons, append_assoc; reflexivity).
    assert (E3 : length text + length (String c "" ++ x)
                 = length (String c text) + length x).
    { rewrite length_append. change (length (String c "")) with 1.
      change (length (String c text)) with (Z.of_nat (S (String.length text))).
      unfold length. lia. }
    rewrite E1, E2, E3. reflexivity.
Qed.

(** Typing a text, one key for each character.  When the component renders
    after every key the text is inserted into the typed text at the cursor
    and the cursor ends right after it.  When no render comes between the
    keys, one handler takes them all and inserts every character where the
    cursor was at its render: the text is inserted last character first.
    In both cases nothing is submitted. *)
Theorem typing_inserts_at_the_cursor (p : Props) (s : State)
    (text : string) :
  0 <= cursorPosition s <= length (customValue s) ->
  (customValue (latest (fst (deliver p (oneByOne (typed text)) (rendered s))))
   = slice (customValue s) 0 (cursorPosition s) ++ text
     ++ sliceFrom (customValue s) (cursorPosition s)
   /\ cursorPosition
        (latest (fst (deliver p (oneByOne (typed text)) (rendered s))))
      = cursorPosition s + length text
   /\ snd (deliver p (oneByOne (typed text)) (rendered s)) = [])
  /\ (customValue
        (latest (fst (deliver p (together (typed text)) (rendered s))))
      = slice (customValue s) 0 (cursorPosition s) ++ reversed text
        ++ sliceFrom (customValue s) (cursorPosition s)
      /\ cursorPosition
           (latest (fst (deliver p (together (typed text)) (rendered s))))
         = cursorPosition s + length text
      /\ snd (deliver p (together (typed text)) (rendered s)) = []).
Proof.
  intros H. apply (proj1 (cursor_splits s)) in H.
  destruct H as (a & b & Hv & Hc).
  destruct s as [m i v c]. cbn [customValue cursorPosition] in *. subst v c.
  rewrite slice_before, slice_after. split.
  - rewrite deliver_oneByOne, presses_typed.
    cbn [fst snd rendered latest customValue cursorPosition].
    rewrite length_append. auto.
  - unfold rendered.
    pose proof (together_typed p m i a b text m "") as Ht.
    cbn [String.append] in Ht. rewrite Z.add_0_r in Ht.
    change (length "") with 0 in Ht. rewrite Z.add_0_r in Ht.
    rewrite append_empty in Ht. rewrite Ht.
    cbn [fst snd latest customValue cursorPosition]. auto.
Qed.

Lemma typing_inserts_at_the_cursor_witness :
  customValue (latest (fst (deliver
    {| question := "Name?"; questionId := None; predefinedOptions := None |}
    (oneByOne (typed "ll"))
    (rendered {| mode := CustomMode; selectedIndex := 0;
                 customValue := "heo"; cursorPosition := 2 |}))))
  = "hello"
  /\ customValue (latest (fst (deliver
       {| question := "Name?"; questionId := None;
          predefinedOptions := None |}
       (together (typed "ab"))
       (rendered {| mode := CustomMode; selectedIndex := 0;
                    customValue := ""; cursorPosition := 0 |}))))
     = "ba".
Proof.
  split.
  - refine (proj1 (proj1 (typing_inserts_at_the_cursor
      {| question := "Name?"; questionId := None; predefinedOptions := None |}
      {| mode := CustomMode; selectedIndex := 0; customValue := "heo";
         cursorPosition := 2 |} "ll" _))).
    vm_compute. split; discriminate.
  - refine (proj1 (proj2 (typing_inserts_at_the_cursor
      {| question := "Name?"; questionId := None; predefinedOptions := None |}
      {| mode := CustomMode; selectedIndex := 0; customValue := "";
         cursorPosition := 0 |} "ab" _))).
    vm_compute. split; discriminate.
Defined.

(** What the handler of a render in custom mode, with the cursor after at
    least one character, does on the backspace key. *)
Lemma useInput_Backspace (p : Props) (v : State) :
  mode v = CustomMode -> 0 < cursorPosition v ->
  useInput p v "" (snd Backspace)
  = {| setCustomValue := Some (fun prev =>
         slice prev 0 (cursorPosition v - 1)
         ++ sliceFrom prev (cursorPosition v));
       setCursorPosition := Some (fun prev => prev - 1);
       setMode := None; setSelectedIndex := None; onSubmit := None |}.
Proof.
  intros Hm Hc. unfold useInput, Backspace.
  cbn [snd upArrow downArrow leftArrow rightArrow return_ backspace delete
       orb andb].
  rewrite Hm. cbn [Mode_eqb].
  destruct (0 <? cursorPosition v) eqn:H; [reflexivity|].
  apply Z.ltb_ge in H. lia.
Qed.

Lemma together_Backspaces (p : Props) (v : State) (k : nat) :
  mode v = CustomMode -> 0 < cursorPosition v ->
  forall l,
    cursorPosition
      (latest (fst (deliver p (together (repeat Backspace k))
                      {| view := v; latest := l |})))
    = cursorPosition l - Z.of_nat k.
Proof.
  intros Hm Hc. induction k as [|k IH]; intros l.
  - cbn [repeat together map deliver fst latest]. lia.
  - cbn [repeat together map]. unfold Backspace at 1. cbn [fst snd deliver].
    change (map (fun k0 => KeyEvent (fst k0) (snd k0)) (repeat Backspace k))
      with (together (repeat Backspace k)).
    cbn [deliver1 view latest fst snd].
    change {| upArrow := false; downArrow := false; leftArrow := false;
              rightArrow := false; return_ := false; backspace := true;
              delete := false; ctrl := false; meta := false |}
      with (snd Backspace).
    rewrite (useInput_Backspace p v Hm Hc).
    match goal with
    | |- context [deliver p _ {| view := v; latest := ?l' |}] =>
        specialize (IH l');
        destruct (deliver p (together (repeat Backspace k))
                    {| view := v; latest := l' |}) as [c' calls]
    end.
    cbn [fst onSubmit] in *. rewrite IH. unfold commit.
    cbn [setCursorPosition apply cursorPosition]. lia.
Qed.

(** When the component renders after every key event, the cursor is at a
    position of the typed text or right after its end, whatever keys are
    pressed.  It is the render that keeps it there: backspace keys taken by
    one handler, in custom mode with the cursor after a character, each
    move the cursor one place back, beyond the start of the text when they
    are more than the characters before the cursor. *)
Theorem cursor_stays_inside_the_text (p : Props)
    (keys : list (string * Key)) :
  0 <= cursorPosition
         (latest (fst (deliver p (oneByOne keys) (rendered (mounted p)))))
    <= length
         (customValue
            (latest (fst (deliver p (oneByOne keys) (rendered (mounted p))))))
  /\ forall (s : State) (k : nat),
       mode s = CustomMode -> 0 < cursorPosition s ->
       cursorPosition
         (latest (fst (deliver p (together (repeat Backspace k))
                         (rendered s))))
       = cursorPosition s - Z.of_nat k.
Proof.
  split.
  - rewrite deliver_oneByOne. cbn [fst rendered latest].
    apply (presses_invariant p CursorInside).
    + intros s input key. apply press_cursor.
    + apply mounted_cursor.
  - intros s k Hm Hc. unfold rendered.
    apply (together_Backspaces p s k Hm Hc s).
Qed.

Lemma cursor_stays_inside_the_text_witness :
  cursorPosition
    (latest (fst (deliver
       {| question := "Name?"; questionId := None;
          predefinedOptions := None |}
       (together (repeat Backspace 2))
       (rendered {| mode := CustomMode; selectedIndex := 0;
                    customValue := "a"; cursorPosition := 1 |}))))
  = 1 - Z.of_nat 2.
Proof.
  apply (proj2 (cursor_stays_inside_the_text
    {| question := "Name?"; questionId := None; predefinedOptions := None |}
    [])
    {| mode := CustomMode; selectedIndex := 0; customValue := "a";
       cursorPosition := 1 |} 2%nat).
  - reflexivity.
  - reflexivity.
Defined.

(** Typing a text and pressing the return key, with a render after every
    key, submits exactly that text, once, whether or not there are
    predefined options. *)
Theorem typed_text_is_submitted (p : Props) (text : string) :
  text <> "" ->
  snd (deliver p (oneByOne (typed text ++ [Enter])%list)
         (rendered (mounted p)))
  = [(text, questionId p)].
Proof.
  intros Hne. rewrite deliver_oneByOne. cbn [snd].
  rewrite presses_app.
  assert (Hm : exists m i, mounted p
                 = {| mode := m; selectedIndex := i; customValue := "" ++ "";
                      cursorPosition := length "" |}).
  { unfold mounted, useEffect.
    destruct (predefinedOptions p) as [[|o opts]|]; cbn;
      eexists; eexists; reflexivity. }
  destruct Hm as (m & i & ->). rewrite presses_typed.
  destruct text as [|c text]; [congruence|].
  cbn [presses Enter fst snd]. unfold useInput.
  cbn [upArrow downArrow leftArrow rightArrow return_ orb andb mode
       Mode_eqb customValue onSubmit app].
  rewrite append_empty. reflexivity.
Qed.

Lemma typed_text_is_submitted_witness :
  snd (deliver
    {| question := "Proceed?"; questionId := Some "q1";
       predefinedOptions := Some ["yes"; "no"] |}
    (oneByOne (typed "maybe" ++ [Enter])%list)
    (rendered (mounted {| question := "Proceed?"; questionId := Some "q1";
                          predefinedOptions := Some ["yes"; "no"] |})))
  = [("maybe", Some "q1")].
Proof.
  apply (typed_text_is_submitted
    {| question := "Proceed?"; questionId := Some "q1";
       predefinedOptions := Some ["yes"; "no"] |} "maybe").
  discriminate.
Defined.

(** A character key and then the backspace key.  With a render between
    them the backspace undoes the character: the text and the cursor are as
    before.  Taken by one handler, in custom mode with the cursor after a
    character, the backspace removes the character that was before the
    cursor instead, and the typed one stays. *)
Theorem backspace_undoes_a_character (p : Props) (s : State) (c : ascii) :
  0 <= cursorPosition s <= length (customValue s) ->
  latest (fst (deliver p (oneByOne [Char c; Backspace]) (rendered s)))
  = {| mode := CustomMode; selectedIndex := selectedIndex s;
       customValue := customValue s;
       cursorPosition := cursorPosition s |}
  /\ (mode s = CustomMode -> 0 < cursorPosition s ->
      latest (fst (deliver p (together [Char c; Backspace]) (rendered s)))
      = {| mode := CustomMode; selectedIndex := selectedIndex s;
           customValue := slice (customValue s) 0 (cursorPosition s - 1)
                          ++ String c ""
                          ++ sliceFrom (customValue s) (cursorPosition s);
           cursorPosition := cursorPosition s |}).
Proof.
  intros H. apply (proj1 (cursor_splits s)) in H.
  destruct H as (a & b & Hv & Hc).
  destruct s as [m i v k]. cbn [customValue cursorPosition selectedIndex mode]
    in *.
  subst v k. split.
  - rewrite deliver_oneByOne. cbn [fst rendered latest].
    change (fst (presses p [Char c; Backspace] ?s))
      with (press p (press p s (String c "") plain) "" (snd Backspace)).
    rewrite press_Char, press_Backspace. reflexivity.
  - intros -> Hpos.
    destruct (last_char a Hpos) as (a' & y & ->).
    cbn [together map deliver fst snd deliver1 rendered view latest Char
         Backspace].
    change {| upArrow := false; downArrow := false; leftArrow := false;
              rightArrow := false; return_ := false; backspace := true;
              delete := false; ctrl := false; meta := false |}
      with (snd Backspace).
    rewrite useInput_Backspace by (cbn [mode cursorPosition]; auto).
    assert (Hu : useInput p {| mode := CustomMode; selectedIndex := i;
                               customValue := (a' ++ String y "") ++ b;
                               cursorPosition := length (a' ++ String y "") |}
                   (String c "") plain
                 = {| setMode := Some CustomMode;
                      setCustomValue := Some (fun prev =>
                        slice prev 0 (length (a' ++ String y ""))
                        ++ String c ""
                        ++ sliceFrom prev (length (a' ++ String y "")));
                      setCursorPosition := Some (fun prev => prev + 1);
                      setSelectedIndex := None; onSubmit := None |}).
    { unfold useInput, plain.
      cbn [upArrow downArrow leftArrow rightArrow return_ backspace delete
           ctrl meta orb andb negb mode selectedIndex customValue
           cursorPosition].
      replace (Js.truthy (String c "")) with true by reflexivity.
      replace (length (String c "") =? 1) with true by reflexivity.
      reflexivity. }
    rewrite Hu. unfold commit.
    cbn [setMode setSelectedIndex setCustomValue setCursorPosition apply
         mode selectedIndex customValue cursorPosition].
    rewrite !slice_before, !slice_after.
    assert (Hlen : length (a' ++ String y "") - 1 = length a')
      by (rewrite length_append; change (length (String y "")) with 1; lia).
    rewrite Hlen.
    assert (E1 : slice ((a' ++ String y "") ++ String c "" ++ b) 0 (length a')
                 = a')
      by (rewrite append_assoc; apply slice_before).
    assert (E2 : slice ((a' ++ String y "") ++ b) 0 (length a') = a')
      by (rewrite append_assoc; apply slice_before).
    rewrite E1, E2. f_equal. lia.
Qed.

Lemma backspace_undoes_a_character_witness :
  latest (fst (deliver
    {| question := "Name?"; questionId := None; predefinedOptions := None |}
    (oneByOne [Char "x"; Backspace])
    (rendered {| mode := CustomMode; selectedIndex := 0;
                 customValue := "hello"; cursorPosition := 3 |})))
  = {| mode := CustomMode; selectedIndex := 0; customValue := "hello";
       cursorPosition := 3 |}.
Proof.
  refine (proj1 (backspace_undoes_a_character
    {| question := "Name?"; questionId := None; predefinedOptions := None |}
    {| mode := CustomMode; selectedIndex := 0; customValue := "hello";
       cursorPosition := 3 |} "x"%char _)).
  vm_compute. split; discriminate.
Defined.

(** The left arrow and then the delete key, in custom mode with the cursor
    after a character.  With a render between them they do what the
    backspace key does.  Taken by one handler, the delete key removes the
    character that was under the cursor, if any, and not the one before
    it. *)
Theorem left_then_delete_is_backspace (p : Props) (s : State) :
  mode s = CustomMode ->
  0 < cursorPosition s <= length (customValue s) ->
  latest (fst (deliver p (oneByOne [Left; Delete]) (rendered s)))
  = latest (fst (deliver p (oneByOne [Backspace]) (rendered s)))
  /\ latest (fst (deliver p (together [Left; Delete]) (rendered s)))
     = {| mode := CustomMode; selectedIndex := selectedIndex s;
          customValue := slice (customValue s) 0 (cursorPosition s)
                         ++ sliceFrom (customValue s) (cursorPosition s + 1);
          cursorPosition := cursorPosition s - 1 |}.
Proof.
  intros Hm [Hpos Hle].
  destruct s as [m i v c]. cbn [mode customValue cursorPosition selectedIndex]
    in *.
  subst m. split.
  - rewrite !deliver_oneByOne. cbn [fst rendered latest].
    cbn [presses Left Delete Backspace fst snd]. unfold press, useInput.
    cbn [upArrow downArrow leftArrow rightArrow return_ backspace delete
         orb andb mode Mode_eqb customValue cursorPosition commit
         setMode setSelectedIndex setCustomValue setCursorPosition apply
         selectedIndex].
    rewrite Z.max_r by lia.
    destruct (c - 1 <? length v) eqn:H1; [|apply Z.ltb_ge in H1; lia].
    destruct (0 <? c) eqn:H2; [|apply Z.ltb_ge in H2; lia].
    unfold commit.
    cbn [setMode setSelectedIndex setCustomValue setCursorPosition apply
         mode selectedIndex customValue cursorPosition].
    rewrite ?Z.max_r by lia.
    replace (c - 1 + 1) with c by lia. reflexivity.
  - cbn [together map deliver fst snd deliver1 rendered view latest Left
         Delete].
    unfold useInput.
    cbn [upArrow downArrow leftArrow rightArrow return_ backspace delete
         orb andb mode Mode_eqb customValue cursorPosition].
    destruct (c <? length v) eqn:H1.
    + unfold commit.
      cbn [setMode setSelectedIndex setCustomValue setCursorPosition apply
           mode selectedIndex customValue cursorPosition].
      rewrite Z.max_r by lia. reflexivity.
    + apply Z.ltb_ge in H1. assert (c = length v) by lia. subst c.
      unfold commit, nothing.
      cbn [setMode setSelectedIndex setCustomValue setCursorPosition apply
           mode selectedIndex customValue cursorPosition].
      rewrite Z.max_r by lia. f_equal.
      pose proof (slice_before v "") as Hb.
      rewrite append_empty in Hb. rewrite Hb.
      replace (sliceFrom v (length v + 1)) with "";
        [rewrite append_empty; reflexivity|].
      unfold sliceFrom, slice, relativeIndex.
      pose proof (length_nonneg v).
      destruct (length v + 1 <? 0) eqn:H2; [apply Z.ltb_lt in H2; lia|].
      destruct (length v <? 0) eqn:H3; [apply Z.ltb_lt in H3; lia|].
      rewrite !Z.min_r by lia. rewrite Z.sub_diag. reflexivity.
Qed.

Lemma left_then_delete_is_backspace_witness :
  latest (fst (deliver
    {| question := "Name?"; questionId := None; predefinedOptions := None |}
    (together [Left; Delete])
    (rendered {| mode := CustomMode; selectedIndex := 0;
                 customValue := "hello"; cursorPosition := 2 |})))
  = {| mode := CustomMode; selectedIndex := 0; customValue := "helo";
       cursorPosition := 1 |}.
Proof.
  refine (eq_trans (proj2 (left_then_delete_is_backspace
    {| question := "Name?"; questionId := None; predefinedOptions := None |}
    {| mode := CustomMode; selectedIndex := 0; customValue := "hello";
       cursorPosition := 2 |} eq_refl _)) _).
  - vm_compute. split; [reflexivity | discriminate].
  - reflexivity.
Defined.

End PromptFacts.

Section TextInputPromptFacts.

Import JsString TextInputPrompt.
Local Open Scope string_scope.
Local Open Scope Z_scope.

Ltac split_conds :=
  repeat match goal with
         | |- context [if ?b then _ else _] => destruct b eqn:?
         end.

Ltac conds :=
  repeat match goal with
         | H : (_ && _) = true |- _ =>
             apply andb_prop in H; destruct H
         | H : (_ <? _) = true |- _ => apply Z.ltb_lt in H
         | H : (_ <? _) = false |- _ => apply Z.ltb_ge in H
         end.

Lemma initial_listed (p : Props) : SelectionListed p (initial p).
Proof.
  unfold SelectionListed, initial. cbn [mode selectedIndex].
  destruct (0 <? optionsLength p) eqn:H; conds; split; intros; try lia.
  discriminate.
Qed.

Lemma handle_listed (p : Props) (s : State) (e : Event) :
  SelectionListed p s -> SelectionListed p (commit (handle p s e) s).
Proof.
  unfold SelectionListed. intros [Hm Hi].
  destruct e as [input key|value|value];
    unfold handle, useInput, handleInputChange, handleSubmit, nothing, rem.
  - destruct (0 <? optionsLength p) eqn:Hn; conds; cbn [andb].
    + specialize (Hi Hn).
      split_conds; unfold commit;
        cbn [setMode setSelectedIndex setInputValue apply mode
             selectedIndex];
        (split; [intros _; exact Hn | intros _]); try exact Hi.
      * rewrite Z.rem_mod_nonneg by lia. apply Z.mod_pos_bound. lia.
      * rewrite Z.rem_mod_nonneg by lia. apply Z.mod_pos_bound. lia.
    + split_conds; unfold commit;
        cbn [setMode setSelectedIndex setInputValue apply mode
             selectedIndex];
        split; try discriminate; try exact Hm; intros; lia.
  - split_conds; unfold commit;
      cbn [setMode setSelectedIndex setInputValue apply mode selectedIndex];
      split; try discriminate; try exact Hm; try exact Hi.
  - split_conds; unfold commit;
      cbn [setMode setSelectedIndex setInputValue apply mode selectedIndex];
      split; try exact Hm; try exact Hi.
Qed.

Lemma events_invariant (p : Props) (P : State -> Prop) :
  (forall s e, P s -> P (commit (handle p s e) s)) ->
  forall es s, P s -> P (fst (events p es s)).
Proof.
  intros Hstep es. induction es as [|e es IH]; intros s Hs.
  - exact Hs.
  - cbn [events]. specialize (IH _ (Hstep s e Hs)).
    destruct (events p es (commit (handle p s e) s)) as [s' calls].
    exact IH.
Qed.

(** Whatever keys and text-field callbacks came before, a call to
    [onSubmit] carries the question's id and a defined value: in option
    mode one of the predefined options, otherwise the text, that of the
    state for the return key and that of the text field for its own
    submission. *)
Theorem text_input_prompt_submits_a_listed_option (p : Props)
    (es : list Event) (e : Event) (id value : option string) :
  onSubmit (handle p (fst (events p es (initial p))) e) = Some (id, value) ->
  id = questionId p
  /\ exists text, value = Some text
     /\ match mode (fst (events p es (initial p))) with
        | OptionMode => In text (predefinedOptions p)
        | InputMode =>
            text = match e with
                   | Submit field => field
                   | _ => inputValue (fst (events p es (initial p)))
                   end
        end.
Proof.
  assert (Hinv : SelectionListed p (fst (events p es (initial p)))).
  { apply (events_invariant p (SelectionListed p)).
    - intros s ev. apply handle_listed.
    - apply initial_listed. }
  generalize dependent (fst (events p es (initial p))).
  intros s [Hm Hi].
  assert (Hopt : mode s = OptionMode ->
                 exists text, index (predefinedOptions p) (selectedIndex s)
                              = Some text
                              /\ In text (predefinedOptions p)).
  { intros Hmode. specialize (Hi (Hm Hmode)).
    destruct (index_inside (predefinedOptions p) (selectedIndex s) Hi)
      as (x & Hx).
    exists x. split; [exact Hx | apply (index_In _ _ _ Hx)]. }
  destruct e as [input key|field|field];
    unfold handle, useInput, handleInputChange, handleSubmit, nothing;
    split_conds; cbn [onSubmit]; try discriminate;
    intros H; injection H as <- <-; (split; [reflexivity|]);
    conds.
  all: destruct (mode s) eqn:Hmode; cbn [Mode_eqb andb] in *;
    try discriminate.
  all: try (specialize (Hm eq_refl);
            match goal with H : (0 <? _) = false |- _ =>
              apply Z.ltb_ge in H; lia end).
  all: try (eexists; split; reflexivity).
  all: destruct (Hopt eq_refl) as (text & -> & Hin);
    exists text; split; [reflexivity | exact Hin].
Qed.

Lemma text_input_prompt_submits_a_listed_option_witness :
  Some "q1" = Some "q1"
  /\ exists text, Some "no" = Some text /\ In text ["yes"; "no"].
Proof.
  exact (text_input_prompt_submits_a_listed_option
    {| question := "Proceed?"; questionId := Some "q1";
       predefinedOptions := ["yes"; "no"] |}
    [KeyPress "" {| upArrow := true; downArrow := false;
                    leftArrow := false; rightArrow := false;
                    return_ := false; ctrl := false; meta := false;
                    escape := false; tab := false; shift := false |}]
    (Submit "ignored") (Some "q1") (Some "no") eq_refl).
Defined.

(** The two prompts move the selection in the same way: on an arrow key,
    with the same options and a selection among them, the conditional of
    the one and the remainder of the other give the same new selection, and
    both go to option mode. *)
Theorem both_prompts_move_the_selection_alike
    (p1 : InteractiveInput.Props) (p2 : Props)
    (s1 : InteractiveInput.State) (s2 : State)
    (input1 input2 : string) (key1 : InteractiveInput.Key) (key2 : Key) :
  InteractiveInput.predefinedOptions p1 = Some (predefinedOptions p2) ->
  InteractiveInput.upArrow key1 = upArrow key2 ->
  InteractiveInput.downArrow key1 = downArrow key2 ->
  upArrow key2 || downArrow key2 = true ->
  InteractiveInput.selectedIndex s1 = selectedIndex s2 ->
  0 <= selectedIndex s2 < optionsLength p2 ->
  InteractiveInput.selectedIndex
    (InteractiveInput.press p1 s1 input1 key1)
  = selectedIndex (commit (useInput p2 s2 input2 key2) s2)
  /\ InteractiveInput.mode (InteractiveInput.press p1 s1 input1 key1)
     = InteractiveInput.OptionMode
  /\ mode (commit (useInput p2 s2 input2 key2) s2) = OptionMode.
Proof.
  intros Hopts Hup Hdown Harrow Hsel Hi.
  unfold InteractiveInput.press, InteractiveInput.useInput, useInput.
  unfold InteractiveInput.hasOptions, InteractiveInput.optionsLength.
  rewrite Hopts, Hup, Hdown, Harrow.
  unfold optionsLength in *.
  destruct (predefinedOptions p2) as [|o opts] eqn:Ho;
    [cbn [List.length] in Hi; lia|].
  rewrite <- Ho in *. clear Ho.
  destruct (0 <? Z.of_nat (List.length (predefinedOptions p2))) eqn:Hn;
    [|apply Z.ltb_ge in Hn; lia].
  cbn [andb]. unfold InteractiveInput.commit, commit, rem.
  destruct (upArrow key2) eqn:Hu.
  - cbn [InteractiveInput.setMode InteractiveInput.setSelectedIndex
         InteractiveInput.apply InteractiveInput.mode
         InteractiveInput.selectedIndex
         setMode setSelectedIndex apply mode selectedIndex andb].
    split; [|split; reflexivity]. rewrite Hsel.
    rewrite Z.rem_mod_nonneg by lia.
    destruct (0 <? selectedIndex s2) eqn:Hpos; conds.
    + replace (selectedIndex s2 - 1
               + Z.of_nat (List.length (predefinedOptions p2)))
        with (selectedIndex s2 - 1
              + 1 * Z.of_nat (List.length (predefinedOptions p2))) by lia.
      rewrite Z.mod_add by lia. rewrite Z.mod_small by lia. reflexivity.
    + rewrite Z.mod_small by lia. lia.
  - cbn [orb] in Harrow. rewrite Harrow.
    cbn [InteractiveInput.setMode InteractiveInput.setSelectedIndex
         InteractiveInput.apply InteractiveInput.mode
         InteractiveInput.selectedIndex
         setMode setSelectedIndex apply mode selectedIndex andb].
    split; [|split; reflexivity]. rewrite Hsel.
    rewrite Z.rem_mod_nonneg by lia.
    destruct (selectedIndex s2
              <? Z.of_nat (List.length (predefinedOptions p2)) - 1)
      eqn:Hlt; conds.
    + rewrite Z.mod_small by lia. reflexivity.
    + replace (selectedIndex s2 + 1)
        with (Z.of_nat (List.length (predefinedOptions p2))) by lia.
      rewrite Z.mod_same by lia. reflexivity.
Qed.

Lemma both_prompts_move_the_selection_alike_witness :
  InteractiveInput.selectedIndex
    (InteractiveInput.press
       {| InteractiveInput.question := "Which?";
          InteractiveInput.questionId := None;
          InteractiveInput.predefinedOptions := Some ["a"; "b"; "c"] |}
       InteractiveInput.initial "" (snd InteractiveInput.Up))
  = 2.
Proof.
  refine (proj1 (both_prompts_move_the_selection_alike
    {| InteractiveInput.question := "Which?";
       InteractiveInput.questionId := None;
       InteractiveInput.predefinedOptions := Some ["a"; "b"; "c"] |}
    {| question := "Which?"; questionId := None;
       predefinedOptions := ["a"; "b"; "c"] |}
    InteractiveInput.initial
    {| mode := OptionMode; selectedIndex := 0; inputValue := "" |}
    "" ""
    (snd InteractiveInput.Up)
    {| upArrow := true; downArrow := false; leftArrow := false;
       rightArrow := false; return_ := false; ctrl := false; meta := false;
       escape := false; tab := false; shift := false |}
    eq_refl eq_refl eq_refl eq_refl eq_refl _)).
  vm_compute. split; [discriminate | reflexivity].
Defined.

End TextInputPromptFacts.
